(** * ASGarD batching, tensors, quadrature and PDE factory: a shallow embedding

    The definitions below follow [src/tensors.hpp] (the dense tensor classes
    [fk::vector] and [fk::matrix], then the batch code: [batch],
    [batched_gemm], [compute_batch_size], [compute_dimensions],
    [allocate_batches], [kron_base], [kronmult_to_batch_sets],
    [build_batches]), [src/quadrature.cpp] ([legendre]) and [src/pde.hpp]
    ([make_PDE]).

    Conventions.
    - A C++ [int] is a [Z]; the quantities of the batch code (slot positions,
      sizes, strides) stay far below [INT_MAX] in any run that can allocate
      its workspaces, so no wrap-around is written out for them.
    - [static_cast<int>(std::pow(b, e))] on non-negative integers is [b ^ e].
    - A failed [assert], an out-of-range [operator[]] and a thrown
      [std::out_of_range] all abort the run: the embedding returns [None].
    - A raw pointer [P*] is a buffer together with an element offset; the null
      pointer of a batch slot is [None]. *)

From Stdlib Require Import ZArith Lia Floats.
From stdpp Require Import base option list strings.

Open Scope Z_scope.

(** ** Aborting computations *)

(** [assert(b)]. *)
Definition cassert (b : bool) : option unit :=
  if b then Some () else None.

(** A loop whose body may abort, threading the loop state. *)
Fixpoint foldM {S A : Type} (f : S → A → option S) (l : list A) (s : S)
  : option S :=
  match l with
  | [] => Some s
  | x :: l' => s' ← f s x; foldM f l' s'
  end.

(** ** Pointers and views *)

Module Views.

(** The buffers the batch code points into. *)
Inductive buffer : Type :=
| coefficients (term dim : Z)   (* pde.get_coefficients(term, dim) *)
| batch_input                   (* workspace.batch_input *)
| reduction_space               (* workspace.reduction_space *)
| batch_intermediate            (* workspace.batch_intermediate *)
| unit_vector                   (* workspace.get_unit_vector() *)
| heap (id : Z).                (* any other allocation *)

Record ptr : Type := Ptr { region : buffer; index : Z }.

#[global] Instance buffer_eq_dec : EqDecision buffer.
Proof. solve_decision. Defined.
#[global] Instance ptr_eq_dec : EqDecision ptr.
Proof. solve_decision. Defined.

Definition ptr_add (p : ptr) (n : Z) : ptr :=
  Ptr (region p) (index p + n).

(** [fk::vector<P, mem_type::view>]: [data()] and [size()]. *)
Record vector_view : Type :=
  VectorView { v_data : ptr; v_size : Z }.

(** [fk::matrix<P, mem_type::view>]: [data()], [nrows()], [ncols()],
    [stride()]. *)
Record matrix_view : Type :=
  MatrixView { m_data : ptr; m_nrows : Z; m_ncols : Z; m_stride : Z }.

(** Modelled from the spec: the view classes are declared in a header that
    is not among the sources. Spec, data model: a view is a non-owning
    handle bound to an existing matrix or vector with its own
    [(nrows, ncols, stride)]; a view into a vector is a subvector or a
    matrix overlay; a view's stride is the owner's allocation stride.
    [fk::vector<P, view>(owner, start, stop)] is the subvector
    [owner[start..stop]], both ends included. *)
Definition subvector (owner : buffer) (start stop : Z) : vector_view :=
  VectorView (Ptr owner start) (stop - start + 1).

(** Modelled from the spec: [fk::matrix<P, view>(vec, nrows, ncols, start)],
    the column-major matrix overlay of [nrows * ncols] elements of a vector
    from element [start] on; its columns are contiguous, so its stride is
    [nrows]. *)
Definition overlay (v : vector_view) (nrows ncols start : Z) : matrix_view :=
  MatrixView (ptr_add (v_data v) start) nrows ncols nrows.

(** Modelled from the spec: [fk::matrix<P, view>(owner, r0, r1, c0, c1)],
    the window of rows [r0..r1] and columns [c0..c1] of a column-major owner
    matrix; element [(i, j)] of the owner is at [j * stride + i], and the
    window keeps the owner's stride. *)
Definition window (owner : buffer) (owner_stride r0 r1 c0 c1 : Z)
  : matrix_view :=
  MatrixView (Ptr owner (c0 * owner_stride + r0))
             (r1 - r0 + 1) (c1 - c0 + 1) owner_stride.

End Views.

Import Views.

(** ** The batch container *)

Module Batch.

(** [class batch<P>]: the shape shared by all entries and the pointer list
    [batch_]. *)
Record batch : Type := MkBatch {
  num_entries : Z;
  nrows : Z;
  ncols : Z;
  get_stride : Z;
  get_trans : bool;
  batch_ : list (option ptr)
}.

(** [batch<P>::batch(num_entries, nrows, ncols, stride, do_trans)]. *)
Definition new_batch (num_entries nrows ncols stride : Z) (do_trans : bool)
  : option batch :=
  cassert (0 <? num_entries);;
  cassert (0 <? nrows);;
  cassert (0 <? ncols);;
  cassert (0 <? stride);;
  Some (MkBatch num_entries nrows ncols stride do_trans
                (replicate (Z.to_nat num_entries) None)).

(** The pointer array holds [num_entries] pointers. *)
Definition batch_wf (b : batch) : Prop :=
  0 ≤ num_entries b ∧ length (batch_ b) = Z.to_nat (num_entries b).

(** [batch<P>::operator()(position)]. *)
Definition get_entry (b : batch) (position : Z) : option (option ptr) :=
  cassert (0 <=? position);;
  cassert (position <? num_entries b);;
  batch_ b !! Z.to_nat position.

(** [batch<P>::assign_entry(a, position)]. *)
Definition assign_entry (a : matrix_view) (position : Z) (b : batch)
  : option batch :=
  cassert (m_nrows a =? nrows b);;
  cassert (m_ncols a =? ncols b);;
  (if get_stride b =? 1 then Some ()
   else cassert (m_stride a =? get_stride b));;
  cassert (0 <=? position);;
  cassert (position <? num_entries b);;
  old ← batch_ b !! Z.to_nat position;
  cassert (bool_decide (old = None));;
  Some (MkBatch (num_entries b) (nrows b) (ncols b) (get_stride b)
                (get_trans b)
                (<[Z.to_nat position := Some (m_data a)]> (batch_ b))).

(** [batch<P>::clear_entry(position)]: the new batch and whether a pointer
    was there; a position outside the array is outside the allocation. *)
Definition clear_entry (position : Z) (b : batch) : option (batch * bool) :=
  cassert (0 <=? position);;
  old ← batch_ b !! Z.to_nat position;
  Some (MkBatch (num_entries b) (nrows b) (ncols b) (get_stride b)
                (get_trans b) (<[Z.to_nat position := None]> (batch_ b)),
        bool_decide (old ≠ None)).

(** [batch<P>::is_filled()]. *)
Definition is_filled (b : batch) : bool :=
  forallb (λ p, bool_decide (p ≠ None)) (batch_ b).

(** [batch<P>::clear_all()]. *)
Definition clear_all (b : batch) : batch :=
  MkBatch (num_entries b) (nrows b) (ncols b) (get_stride b) (get_trans b)
          ((λ _, None) <$> batch_ b).

(** The number of assigned (non-null) slots. *)
Definition assigned (b : batch) : nat :=
  length (filter (λ p, p ≠ None) (batch_ b)).

(** *** batched_gemm *)

Section Gemm.
(** The element type [P] of the template. *)
Context {P : Type}.

(** One call [lib_dispatch::gemm(transa, transb, m, n, k, alpha, A, lda,
    B, ldb, beta, C, ldc)]. *)
Record gemm_call : Type := GemmCall {
  transa : bool; transb : bool;
  gm : Z; gn : Z; gk : Z;
  galpha : P; gA : ptr; lda : Z;
  gB : ptr; ldb : Z;
  gbeta : P; gC : ptr; ldc : Z
}.

(** The checks at the head of [batched_gemm]. *)
Definition rows_op (b : batch) : Z :=
  if get_trans b then ncols b else nrows b.
Definition cols_op (b : batch) : Z :=
  if get_trans b then nrows b else ncols b.

(** One pass of the loop of [batched_gemm]: [a(i) && b(i) && c(i)] is
    evaluated left to right and stops at the first null pointer. *)
Definition gemm_pass (a b c : batch) (alpha beta : P)
    (calls : list gemm_call) (i : Z) : option (list gemm_call) :=
  ai ← get_entry a i;
  match ai with
  | None => Some calls
  | Some pa =>
    bi ← get_entry b i;
    match bi with
    | None => Some calls
    | Some pb =>
      ci ← get_entry c i;
      match ci with
      | None => Some calls
      | Some pc =>
        Some (calls ++
              [GemmCall (get_trans a) (get_trans b)
                        (rows_op a) (cols_op b) (cols_op a)
                        alpha pa (get_stride a) pb (get_stride b)
                        beta pc (get_stride c)])
      end
    end
  end.

(** [batched_gemm(a, b, c, alpha, beta)]: the gemm calls made, in order. *)
Definition batched_gemm (a b c : batch) (alpha beta : P)
  : option (list gemm_call) :=
  cassert (num_entries a =? num_entries b);;
  cassert (num_entries b =? num_entries c);;
  let n := num_entries a in
  cassert (negb (get_trans c));;
  let rows_a := rows_op a in
  let cols_a := cols_op a in
  let rows_b := rows_op b in
  let cols_b := cols_op b in
  cassert (cols_a =? rows_b);;
  cassert (nrows c =? rows_a);;
  cassert (ncols c =? cols_b);;
  foldM (gemm_pass a b c alpha beta) (seqZ 0 n) [].

(** The preconditions of [batched_gemm], as the spec lists them. *)
Definition gemm_precondition (a b c : batch) : Prop :=
  num_entries a = num_entries b ∧ num_entries b = num_entries c
  ∧ get_trans c = false
  ∧ cols_op a = rows_op b ∧ nrows c = rows_op a ∧ ncols c = cols_op b.

(** The gemm of slot [i], when none of its three pointers is null. *)
Definition gemm_of_slot (a b c : batch) (alpha beta : P) (i : Z)
  : option gemm_call :=
  pa ← mjoin (batch_ a !! Z.to_nat i);
  pb ← mjoin (batch_ b !! Z.to_nat i);
  pc ← mjoin (batch_ c !! Z.to_nat i);
  Some (GemmCall (get_trans a) (get_trans b)
                 (rows_op a) (cols_op b) (cols_op a)
                 alpha pa (get_stride a) pb (get_stride b)
                 beta pc (get_stride c)).
End Gemm.

(** ** Example batches *)

(** Three batches of three slots for a product of a transposed 2 x 4 left
    operand with a 2 x 3 right operand; slot 1 lacks its left operand and
    slot 2 its output. *)
Definition batch_a : batch :=
  MkBatch 3 2 4 2 true
    [Some (Ptr (heap 0) 0); None; Some (Ptr (heap 0) 16)].
Definition batch_b : batch :=
  MkBatch 3 2 3 2 false
    [Some (Ptr (heap 1) 0); Some (Ptr (heap 1) 6); Some (Ptr (heap 1) 12)].
Definition batch_c : batch :=
  MkBatch 3 4 3 4 false
    [Some (Ptr (heap 2) 0); Some (Ptr (heap 2) 12); None].

End Batch.

Import Batch.

(** ** Allocation of batches and the kronmult schedule *)

Module Kronmult.

(** Modelled from the spec: the PDE descriptor class is declared in a header
    that is not among the sources. The batch code reads [num_dims],
    [num_terms], the degree of dimension 0 and the stride of each coefficient
    matrix [get_coefficients(term, dim)]. *)
Record PDE : Type := MkPDE {
  num_dims : Z;
  num_terms : Z;
  degree0 : Z;                       (* get_dimensions()[0].get_degree() *)
  coefficient_stride : Z → Z → Z     (* get_coefficients(k, d).stride() *)
}.

(** [matrix_size_set]. *)
Record matrix_size_set : Type := MatrixSizeSet {
  rows_a : Z; cols_a : Z; rows_b : Z; cols_b : Z
}.

(** [std::vector<batch<P>>]: the three operand lists a, b, c of one batched
    gemm. *)
Abbreviation batch_operands_set := (list batch).

(** [compute_batch_size(degree, num_dims, dimension)]. *)
Definition compute_batch_size (degree num_dims dimension : Z) : option Z :=
  cassert (0 <=? dimension);;
  cassert (dimension <? num_dims);;
  cassert (0 <? num_dims);;
  cassert (0 <? degree);;
  if (dimension =? 0) || (dimension =? num_dims - 1) then Some 1
  else Some (degree ^ (num_dims - dimension - 1)).

(** [compute_dimensions(degree, num_dims, dimension)]. *)
Definition compute_dimensions (degree num_dims dimension : Z)
  : option matrix_size_set :=
  cassert (0 <=? dimension);;
  cassert (dimension <? num_dims);;
  cassert (0 <? num_dims);;
  cassert (0 <? degree);;
  if dimension =? 0 then
    Some (MatrixSizeSet degree degree degree (degree ^ (num_dims - 1)))
  else
    Some (MatrixSizeSet (degree ^ dimension) degree degree degree).

(** [allocate_batches(pde, num_elems)]. *)
Definition allocate_batches (pde : PDE) (num_elems : Z)
  : option (list batch_operands_set) :=
  let degree := degree0 pde in
  let do_trans := false in
  let num_gemms := num_terms pde * num_elems in
  sizes ← compute_dimensions degree (num_dims pde) 0;
  let stride := coefficient_stride pde 0 0 in
  a ← new_batch num_gemms (rows_a sizes) (cols_a sizes) stride do_trans;
  b ← new_batch num_gemms (rows_b sizes) (cols_b sizes) (rows_b sizes)
                do_trans;
  c ← new_batch num_gemms (rows_a sizes) (cols_b sizes) (rows_a sizes) false;
  foldM (λ batches i,
           n ← compute_batch_size degree (num_dims pde) i;
           let num_gemms := n * num_terms pde * num_elems in
           sizes ← compute_dimensions degree (num_dims pde) i;
           let trans_a := false in
           let trans_b := true in
           let stride := coefficient_stride pde 0 i in
           a ← new_batch num_gemms (rows_a sizes) (cols_a sizes)
                         (rows_a sizes) trans_a;
           b ← new_batch num_gemms (rows_b sizes) (cols_b sizes) stride
                         trans_b;
           c ← new_batch num_gemms (rows_a sizes) (rows_b sizes)
                         (rows_a sizes) false;
           Some (batches ++ [[a; b; c]]))
        (seqZ 1 (num_dims pde - 1)) [[a; b; c]].

(** [batches[operand].assign_entry(a, position)] on one operand set. *)
Definition assign_operand (set : batch_operands_set) (operand : nat)
    (a : matrix_view) (position : Z) : option batch_operands_set :=
  b ← set !! operand;
  b' ← assign_entry a position b;
  Some (<[operand := b']> set).

(** [batches[dimension][operand].assign_entry(a, position)]. *)
Definition assign_at (batches : list batch_operands_set) (dimension : Z)
    (operand : nat) (a : matrix_view) (position : Z)
  : option (list batch_operands_set) :=
  cassert (0 <=? dimension);;
  set ← batches !! Z.to_nat dimension;
  set' ← assign_operand set operand a position;
  Some (<[Z.to_nat dimension := set']> batches).

(** [kron_base(A, x, y, batches, batch_offset, degree, num_dims)]. *)
Definition kron_base (A : matrix_view) (x y : vector_view)
    (batches : batch_operands_set) (batch_offset degree num_dims : Z)
  : option batch_operands_set :=
  batches ← assign_operand batches 0 A batch_offset;
  sizes ← compute_dimensions degree num_dims 0;
  let x_view := overlay x (rows_b sizes) (cols_b sizes) 0 in
  batches ← assign_operand batches 1 x_view batch_offset;
  let y_view := overlay y (rows_a sizes) (cols_b sizes) 0 in
  assign_operand batches 2 y_view batch_offset.

(** [kron_base] applied to [batches[0]] of the vector of operand sets. *)
Definition kron_base_at0 (A : matrix_view) (x y : vector_view)
    (batches : list batch_operands_set) (batch_offset degree num_dims : Z)
  : option (list batch_operands_set) :=
  set ← batches !! 0%nat;
  set' ← kron_base A x y set batch_offset degree num_dims;
  Some (<[0%nat := set']> batches).

(** The body of the loop over the gemms of an intermediate dimension. *)
Definition enqueue_gemm (A : list matrix_view) (work : list vector_view)
    (batch_offset dimension : Z) (sizes : matrix_size_set)
    (num_gemms offset : Z)
    (batches : list batch_operands_set) (gemm : Z)
  : option (list batch_operands_set) :=
  w_in ← work !! Z.to_nat (Z.rem (dimension - 1) 2);
  let x_view := overlay w_in (rows_a sizes) (cols_a sizes) (offset * gemm) in
  batches ← assign_at batches dimension 0 x_view
                      (batch_offset * num_gemms + gemm);
  A_d ← A !! Z.to_nat dimension;
  batches ← assign_at batches dimension 1 A_d
                      (batch_offset * num_gemms + gemm);
  w_out ← work !! Z.to_nat (Z.rem dimension 2);
  let work_view :=
    overlay w_out (rows_a sizes) (cols_a sizes) (offset * gemm) in
  assign_at batches dimension 2 work_view (batch_offset * num_gemms + gemm).

(** The body of the loop over the intermediate dimensions. *)
Definition enqueue_dimension (A : list matrix_view) (work : list vector_view)
    (batch_offset degree num_dims : Z)
    (batches : list batch_operands_set) (dimension : Z)
  : option (list batch_operands_set) :=
  sizes ← compute_dimensions degree num_dims dimension;
  num_gemms ← compute_batch_size degree num_dims dimension;
  let offset := rows_a sizes * cols_a sizes in
  cassert (offset * num_gemms =? degree ^ num_dims);;
  foldM (enqueue_gemm A work batch_offset dimension sizes num_gemms offset)
        (seqZ 0 num_gemms) batches.

(** [kronmult_to_batch_sets(A, x, y, work, batches, batch_offset, pde)]. *)
Definition kronmult_to_batch_sets (A : list matrix_view) (x y : vector_view)
    (work : list vector_view) (batches : list batch_operands_set)
    (batch_offset : Z) (pde : PDE) : option (list batch_operands_set) :=
  let degree := degree0 pde in
  let result_size := degree ^ num_dims pde in
  cassert (v_size x =? result_size);;
  cassert (v_size y =? result_size);;
  cassert (Z.of_nat (length work) =? Z.min (num_dims pde - 1) 2);;
  cassert (forallb (λ v, v_size v =? result_size) work);;
  cassert (forallb (λ m, (m_nrows m =? degree) && (m_ncols m =? degree)) A);;
  cassert (Z.of_nat (length batches) =? num_dims pde);;
  cassert (0 <=? batch_offset);;
  A_0 ← A !! 0%nat;
  if num_dims pde =? 1 then
    kron_base_at0 A_0 x y batches batch_offset degree (num_dims pde)
  else
    work_0 ← work !! 0%nat;
    batches ← kron_base_at0 A_0 x work_0 batches batch_offset degree
                            (num_dims pde);
    batches ← foldM (enqueue_dimension A work batch_offset degree
                                       (num_dims pde))
                    (seqZ 1 (num_dims pde - 2)) batches;
    sizes ← compute_dimensions degree (num_dims pde) (num_dims pde - 1);
    w_in ← work !! Z.to_nat (Z.rem (num_dims pde) 2);
    let x_view := overlay w_in (rows_a sizes) (cols_a sizes) 0 in
    batches ← assign_at batches (num_dims pde - 1) 0 x_view batch_offset;
    A_last ← A !! Z.to_nat (num_dims pde - 1);
    batches ← assign_at batches (num_dims pde - 1) 1 A_last batch_offset;
    let y_view := overlay y (rows_a sizes) (cols_a sizes) 0 in
    assign_at batches (num_dims pde - 1) 2 y_view batch_offset.

(** *** Chunks, element table and workspace *)

(** [limits<int>]: an inclusive range of connected elements. *)
Record limits : Type := Limits { start : Z; stop : Z }.

(** [element_chunk], a [std::map<int, limits<int>>], as the list of its
    entries in iteration order, that is by ascending row index. *)
Abbreviation element_chunk := (list (Z * limits)).

(** [chunk.at(r)]; throws when [r] is not a key. *)
Definition chunk_at (chunk : element_chunk) (r : Z) : option limits :=
  e ← list_find (λ e, fst e = r) chunk;
  Some (snd (snd e)).

(** Modelled from the spec: [num_elements_in_chunk] is defined in a file that
    is not among the sources; it is the total count of connected items over
    the rows of the chunk. *)
Definition num_elements_in_chunk (chunk : element_chunk) : Z :=
  foldl (λ n e, n + (stop (snd e) - start (snd e) + 1)) 0 chunk.

(** Modelled from the spec: [max_connected_in_chunk], from the same file, is
    the largest count of connected items of a row of the chunk. *)
Definition max_connected_in_chunk (chunk : element_chunk) : Z :=
  foldl (λ n e, Z.max n (stop (snd e) - start (snd e) + 1)) 0 chunk.

(** Modelled from the spec: the element table is declared in a header that is
    not among the sources; [get_coords(i)] is the coordinate vector (levels,
    then cells) of element [i], [size()] the number of elements. *)
Record element_table : Type := ElementTable {
  get_coords : Z → list Z;
  table_size : Z
}.

(** Modelled from the spec: [get_1d_index(level, cell)], the spec's
    [idx1d(L, C) = C + (L == 0 ? 0 : 2^(L-1))]. *)
Definition get_1d_index (level cell : Z) : Z :=
  cell + (if level =? 0 then 0 else 2 ^ (level - 1)).

(** Modelled from the spec: the sizes of the vectors of [rank_workspace],
    declared in a header that is not among the sources. *)
Record rank_workspace : Type := RankWorkspace {
  batch_input_size : Z;
  reduction_space_size : Z;
  batch_intermediate_size : Z;
  unit_vector_size : Z
}.

(** [fk::vector<int>::operator()(i)]; a negative index is out of the
    allocation. *)
Definition coord (v : list Z) (i : Z) : option Z :=
  cassert (i <? Z.of_nat (length v));;
  cassert (0 <=? i);;
  v !! Z.to_nat i.

(** [linearize(coords)]. *)
Definition linearize (coords : list Z) : option (list Z) :=
  let n := Z.quot (Z.of_nat (length coords)) 2 in
  mapM (λ i, l ← coord coords i;
             c ← coord coords (i + n);
             Some (get_1d_index l c))
       (seqZ 0 n).

(** The lambdas computing [operator_row] and [operator_col]. *)
Definition operator_position (indices : list Z) (degree num_dims : Z)
  : option (list Z) :=
  mapM (λ d, e ← coord indices d; Some (e * degree)) (seqZ 0 num_dims).

(** The lambda computing [prev_row_elems] for row [i]. *)
Definition prev_row_elems (chunk : element_chunk) (i : Z) : option Z :=
  first ← head chunk;
  if i =? fst first then Some 0
  else foldM (λ prev_elems r,
                lim ← chunk_at chunk r;
                Some (prev_elems + (stop lim - start lim + 1)))
             (seqZ (fst first) (i - fst first)) 0.

(** [kron_index] for row [i] with range [connected], connected element [j]
    and term [k]. *)
Definition kron_index (pde : PDE) (chunk : element_chunk) (i : Z)
    (connected : limits) (j k : Z) : option Z :=
  prev ← prev_row_elems chunk i;
  let total_prev_elems := prev + j - start connected in
  Some (k + total_prev_elems * num_terms pde).

(** The body of the loop over the terms. *)
Definition build_term (pde : PDE) (elem_table : element_table)
    (chunk : element_chunk) (i : Z) (connected : limits)
    (operator_row : list Z) (j : Z) (operator_col : list Z)
    (batches : list batch_operands_set) (k : Z)
  : option (list batch_operands_set) :=
  let degree := degree0 pde in
  let elem_size := degree ^ num_dims pde in
  let num_workspaces := Z.min (num_dims pde - 1) 2 in
  prev ← prev_row_elems chunk i;
  let total_prev_elems := prev + j - start connected in
  let kron_index := k + total_prev_elems * num_terms pde in
  let y_index := elem_size * kron_index in
  let y_view :=
    subvector reduction_space y_index (y_index + elem_size - 1) in
  let work_index := elem_size * kron_index * Z.min (num_dims pde - 1) 2 in
  let work_views :=
    replicate (Z.to_nat num_workspaces)
              (subvector batch_intermediate work_index
                         (work_index + elem_size - 1)) in
  let work_views :=
    if num_workspaces =? 2 then
      <[1%nat := subvector batch_intermediate (work_index + elem_size)
                           (work_index + elem_size * 2 - 1)]> work_views
    else work_views in
  operator_views ←
    mapM (λ d, r ← coord operator_row d;
               c ← coord operator_col d;
               Some (window (coefficients k d) (coefficient_stride pde k d)
                            r (r + degree - 1) c (c + degree - 1)))
         (reverse (seqZ 0 (num_dims pde)));
  (* a remainder by zero aborts *)
  cassert (negb (table_size elem_table =? 0));;
  let x_index := Z.rem total_prev_elems (table_size elem_table) * elem_size in
  let x_view := subvector batch_input x_index (x_index + elem_size - 1) in
  kronmult_to_batch_sets operator_views x_view y_view work_views batches
                         kron_index pde.

(** The body of the loop over the connected elements. *)
Definition build_connected (pde : PDE) (elem_table : element_table)
    (chunk : element_chunk) (i : Z) (connected : limits)
    (operator_row : list Z)
    (batches : list batch_operands_set) (j : Z)
  : option (list batch_operands_set) :=
  let coords := get_coords elem_table j in
  cassert (Z.of_nat (length coords) =? num_dims pde * 2);;
  connected_indices ← linearize coords;
  operator_col ←
    operator_position connected_indices (degree0 pde) (num_dims pde);
  foldM (build_term pde elem_table chunk i connected operator_row j
                    operator_col)
        (seqZ 0 (num_terms pde)) batches.

(** The body of the loop over the rows of the chunk. *)
Definition build_row (pde : PDE) (elem_table : element_table)
    (chunk : element_chunk)
    (batches : list batch_operands_set) (row : Z * limits)
  : option (list batch_operands_set) :=
  let '(i, connected) := row in
  let coords := get_coords elem_table i in
  cassert (Z.of_nat (length coords) =? num_dims pde * 2);;
  elem_indices ← linearize coords;
  operator_row ← operator_position elem_indices (degree0 pde) (num_dims pde);
  foldM (build_connected pde elem_table chunk i connected operator_row)
        (seqZ (start connected) (stop connected - start connected + 1))
        batches.

(** [build_batches(pde, elem_table, workspace, chunk)]. *)
Definition build_batches (pde : PDE) (elem_table : element_table)
    (workspace : rank_workspace) (chunk : element_chunk)
  : option (list batch_operands_set) :=
  let degree := degree0 pde in
  let elem_size := degree ^ num_dims pde in
  let x_size := Z.of_nat (length chunk) in
  cassert (x_size <=? batch_input_size workspace);;
  let elements_in_chunk := num_elements_in_chunk chunk in
  cassert (elem_size * elements_in_chunk * num_terms pde
           <=? reduction_space_size workspace);;
  let num_workspaces := Z.min (num_dims pde - 1) 2 in
  cassert (batch_intermediate_size workspace
           =? reduction_space_size workspace * num_workspaces);;
  let max_connected := max_connected_in_chunk chunk in
  let max_items_to_reduce := num_terms pde * max_connected in
  cassert (max_items_to_reduce <=? unit_vector_size workspace);;
  batches ← allocate_batches pde elements_in_chunk;
  foldM (build_row pde elem_table chunk) chunk batches.

(** *** Reading a vector of operand sets *)

(** The shape of a batch: its fields and the length of its pointer array. *)
Definition shape (b : batch) : Z * Z * Z * Z * bool * nat :=
  (num_entries b, nrows b, ncols b, get_stride b, get_trans b,
   length (batch_ b)).

(** The shape of [batches[d][o]]. *)
Definition shape_at (batches : list batch_operands_set) (d : Z) (o : nat)
  : option (Z * Z * Z * Z * bool * nat) :=
  if d <? 0 then None
  else set ← batches !! Z.to_nat d; b ← set !! o; Some (shape b).

(** The pointer in slot [q] of [batches[d][o]]. *)
Definition slot (batches : list batch_operands_set) (d : Z) (o : nat) (q : Z)
  : option (option ptr) :=
  if (d <? 0) || (q <? 0) then None
  else set ← batches !! Z.to_nat d; b ← set !! o; batch_ b !! Z.to_nat q.

(** The number of gemms one kronmult adds at dimension [d]. *)
Definition gemms_at (pde : PDE) (d : Z) : Z :=
  if (d =? 0) || (d =? num_dims pde - 1) then 1
  else degree0 pde ^ (num_dims pde - d - 1).

(** The shape [allocate_batches] gives operand [o] of dimension [d], for
    [m] kronmults (terms times elements). *)
Definition operand_shape (pde : PDE) (m : Z) (d : Z) (o : nat)
  : Z * Z * Z * Z * bool * nat :=
  let deg := degree0 pde in
  let n := gemms_at pde d * m in
  if d =? 0 then
    match o with
    | 0%nat => (n, deg, deg, coefficient_stride pde 0 0, false, Z.to_nat n)
    | _ => (n, deg, deg ^ (num_dims pde - 1), deg, false, Z.to_nat n)
    end
  else
    match o with
    | 1%nat => (n, deg, deg, coefficient_stride pde 0 d, true, Z.to_nat n)
    | _ => (n, deg ^ d, deg, deg ^ d, false, Z.to_nat n)
    end.

(** A vector of operand sets laid out as [allocate_batches] lays it out. *)
Definition allocated (pde : PDE) (m : Z) (batches : list batch_operands_set)
  : Prop :=
  Z.of_nat (length batches) = num_dims pde
  ∧ (∀ d o, 0 ≤ d < num_dims pde → (o < 3)%nat →
            shape_at batches d o = Some (operand_shape pde m d o))
  ∧ ∀ d, 0 ≤ d < num_dims pde → shape_at batches d 3 = None.

(** The descriptor fields the batch code relies on. *)
Definition pde_ok (pde : PDE) : Prop :=
  1 ≤ num_dims pde ∧ 1 ≤ num_terms pde ∧ 1 ≤ degree0 pde
  ∧ ∀ d, 0 ≤ d < num_dims pde → 0 < coefficient_stride pde 0 d.

(** The arguments of a kronmult as its assertions and its indexing expect
    them: vectors of [degree^D] elements, [min(D-1, 2)] work vectors, one
    [degree x degree] operator view per dimension whose stride is that of the
    batch it goes to. *)
Definition kron_args_ok (pde : PDE) (A : list matrix_view)
    (x y : vector_view) (work : list vector_view) : Prop :=
  v_size x = degree0 pde ^ num_dims pde
  ∧ v_size y = degree0 pde ^ num_dims pde
  ∧ Z.of_nat (length work) = Z.min (num_dims pde - 1) 2
  ∧ Forall (λ v, v_size v = degree0 pde ^ num_dims pde) work
  ∧ num_dims pde ≤ Z.of_nat (length A)
  ∧ Forall (λ m, m_nrows m = degree0 pde ∧ m_ncols m = degree0 pde) A
  ∧ ∀ d m, 0 ≤ d < num_dims pde → A !! Z.to_nat d = Some m →
           coefficient_stride pde 0 d = 1
           ∨ m_stride m = coefficient_stride pde 0 d.

(** The schedule of the spec, section 4.G: the pointer that gemm number
    [gemm] of dimension [d] takes as operand [o] (0: left input, 1: right
    input, 2: output). *)
Definition kron_operand (pde : PDE) (A : list matrix_view)
    (x y : vector_view) (work : list vector_view)
    (d : Z) (o : nat) (gemm : Z) : option ptr :=
  let D := num_dims pde in
  if d =? 0 then
    match o with
    | 0%nat => m_data <$> A !! 0%nat
    | 1%nat => Some (v_data x)
    | _ => if D =? 1 then Some (v_data y) else v_data <$> work !! 0%nat
    end
  else if d =? D - 1 then
    match o with
    | 0%nat => v_data <$> work !! Z.to_nat (Z.rem D 2)
    | 1%nat => m_data <$> A !! Z.to_nat d
    | _ => Some (v_data y)
    end
  else
    match o with
    | 0%nat => (λ w, ptr_add (v_data w) (degree0 pde ^ (d + 1) * gemm))
                 <$> work !! Z.to_nat (Z.rem (d - 1) 2)
    | 1%nat => m_data <$> A !! Z.to_nat d
    | _ => (λ w, ptr_add (v_data w) (degree0 pde ^ (d + 1) * gemm))
             <$> work !! Z.to_nat (Z.rem d 2)
    end.

(** One of three operands, by its index. *)
Definition pick {A : Type} (a0 a1 a2 : A) (o : nat) : A :=
  match o with 0%nat => a0 | 1%nat => a1 | _ => a2 end.

(** A view passes the shape checks of [assign_entry] on a batch of shape
    [sh]. *)
Definition view_fits (a : matrix_view) (sh : Z * Z * Z * Z * bool * nat)
  : Prop :=
  let '(ne, nr, nc, st, tr, len) := sh in
  len = Z.to_nat ne ∧ m_nrows a = nr ∧ m_ncols a = nc
  ∧ (st = 1 ∨ m_stride a = st).

(** The assigned slots of every operand list, dimension by dimension. *)
Definition assigned_slots (batches : list batch_operands_set)
  : list (list nat) :=
  (λ set : list batch, assigned <$> set) <$> batches.

(** The gemms enqueued over all dimensions: the assigned slots of the left
    operand lists. *)
Definition gemms_enqueued (batches : list batch_operands_set) : nat :=
  foldr (λ set n, (default 0 (assigned <$> head set) + n)%nat) 0%nat batches.

(** The slots written once the dimensions below [m] are done and [g] gemms
    of dimension [m] are enqueued, for the kronmult at [batch_offset]. *)
Definition written (pde : PDE) (batch_offset m g : Z) (d q : Z) : bool :=
  (0 <=? d)
  && (((d <? m) && (batch_offset * gemms_at pde d <=? q)
       && (q <? batch_offset * gemms_at pde d + gemms_at pde d))
      || ((d =? m) && (batch_offset * gemms_at pde d <=? q)
          && (q <? batch_offset * gemms_at pde d + g))).

(** [batches'] is [batches] with the written slots holding the operands of
    the schedule, and nothing else changed. *)
Definition progress (pde : PDE) (A : list matrix_view) (x y : vector_view)
    (work : list vector_view) (batch_offset : Z)
    (batches : list batch_operands_set) (m g : Z)
    (batches' : list batch_operands_set) : Prop :=
  length batches' = length batches
  ∧ (∀ d o, shape_at batches' d o = shape_at batches d o)
  ∧ ∀ d o q, (o < 3)%nat →
      slot batches' d o q =
        if written pde batch_offset m g d q
        then Some (kron_operand pde A x y work d o
                                (q - batch_offset * gemms_at pde d))
        else slot batches d o q.

(** The state of [build_batches] before the kronmult of [kron_index = n]:
    the batches are laid out as allocated, the slots from [n] kronmults on
    are still null, and the slots of the kronmults before are assigned. *)
Definition build_inv (pde : PDE) (m n : Z)
    (batches : list batch_operands_set) : Prop :=
  allocated pde m batches
  ∧ (∀ d o q, 0 ≤ d < num_dims pde → (o < 3)%nat →
       n * gemms_at pde d ≤ q < m * gemms_at pde d →
       slot batches d o q = Some None)
  ∧ ∀ d o q, 0 ≤ d < num_dims pde → (o < 3)%nat →
      0 ≤ q < n * gemms_at pde d →
      ∃ p, slot batches d o q = Some (Some p).

(** Every slot of a vector of operand sets is null. *)
Definition all_free (batches : list batch_operands_set) : Prop :=
  ∀ d o q x, slot batches d o q = Some x → x = None.

(** A chunk as the chunker makes it: consecutive row indices, each with a
    non-empty range of connected elements. *)
Fixpoint chunk_ok (first : Z) (chunk : element_chunk) : Prop :=
  match chunk with
  | [] => True
  | (i, lim) :: rest => i = first ∧ start lim ≤ stop lim
                        ∧ chunk_ok (first + 1) rest
  end.

(** ** Example problems *)

(** A three-dimensional PDE of degree 2 with one term. *)
Definition pde_3d : PDE := MkPDE 3 1 2 (λ _ _, 8).
Definition A_3d : list matrix_view :=
  [window (coefficients 0 2) 8 0 1 0 1; window (coefficients 0 1) 8 0 1 0 1;
   window (coefficients 0 0) 8 0 1 0 1].
Definition x_3d : vector_view := subvector batch_input 0 7.
Definition y_3d : vector_view := subvector reduction_space 0 7.
Definition work_3d : list vector_view :=
  [subvector batch_intermediate 0 7; subvector batch_intermediate 8 15].

(** A one-dimensional PDE of degree 2 with two terms. *)
Definition pde_1d : PDE := MkPDE 1 2 2 (λ _ _, 8).
Definition A_1d : list matrix_view := [window (coefficients 1 0) 8 2 3 4 5].
Definition x_1d : vector_view := subvector batch_input 2 3.
Definition y_1d : vector_view := subvector reduction_space 6 7.

(** A six-dimensional PDE of degree 4 with one term. *)
Definition pde_6d : PDE := MkPDE 6 1 4 (λ _ _, 16).
Definition A_6d : list matrix_view :=
  (λ d, window (coefficients 0 d) 16 0 3 0 3) <$> [5; 4; 3; 2; 1; 0].
Definition x_6d : vector_view := subvector batch_input 0 4095.
Definition y_6d : vector_view := subvector reduction_space 0 4095.
Definition work_6d : list vector_view :=
  [subvector batch_intermediate 0 4095;
   subvector batch_intermediate 4096 8191].

(** A chunk of two rows, an element table of four elements in three
    dimensions and a workspace that holds the chunk. *)
Definition chunk_2 : list (Z * limits) := [(0, Limits 0 1); (1, Limits 0 2)].
Definition pde_3d_2 : PDE := MkPDE 3 2 2 (λ _ _, 8).
Definition table_4 : element_table := ElementTable (λ _, [1; 1; 1; 0; 0; 0]) 4.
Definition workspace_2 : rank_workspace := RankWorkspace 32 80 160 6.

End Kronmult.

(** ** Dense tensors: [fk::vector] and [fk::matrix] *)

Module Tensors.

(** The element type [P] of the templates, with what the comparison
    operators use of it. [TOL] is the macro
    [std::numeric_limits<P>::epsilon() * 2]; [sle] is the order [<=], which
    only the statements below use. *)
Class Scalar (P : Type) : Type := {
  is_floating_point : bool;     (* std::is_floating_point<P>::value *)
  zero : P;                     (* P(), the value of new P[n]() *)
  sabs : P → P;                 (* std::abs *)
  ssub : P → P → P;             (* a - b *)
  sgt : P → P → bool;           (* a > b *)
  sle : P → P → bool;           (* a <= b *)
  sne : P → P → bool;           (* a != b *)
  TOL : P
}.

(** What the order and the arithmetic of an element type satisfy: a value
    compared with itself passes the test of its kind of type ([x - x] is not
    above the tolerance, not even for a NaN; an integer is not [!=] itself),
    [<=] excludes [>], and zero is not above the tolerance. *)
Class ScalarLaws (P : Type) `{Scalar P} : Prop := {
  self_equal : ∀ x : P,
    (if is_floating_point then sgt (sabs (ssub x x)) TOL else sne x x)
    = false;
  sle_not_gt : ∀ x y : P, sle x y = true → sgt x y = false;
  zero_small : sgt (sabs zero) TOL = false
}.

(** [int]: the comparison is exact, and [epsilon()] is 0. *)
#[global] Instance int_scalar : Scalar Z := {|
  is_floating_point := false;
  zero := 0;
  sabs := Z.abs;
  ssub := Z.sub;
  sgt := Z.gtb;
  sle := Z.leb;
  sne := λ a b, negb (a =? b);
  TOL := 0
|}.

(** [double], as the binary64 floats of the kernel; [epsilon()] is [2^-52]. *)
#[global] Instance double_scalar : Scalar float := {|
  is_floating_point := true;
  zero := 0%float;
  sabs := PrimFloat.abs;
  ssub := PrimFloat.sub;
  sgt := λ a b, PrimFloat.ltb b a;
  sle := PrimFloat.leb;
  sne := λ a b, negb (PrimFloat.eqb a b);
  TOL := PrimFloat.mul 0x1p-52%float 2%float
|}.

Section Containers.
Context {P : Type} `{Scalar P}.

(** The test of the two comparison operators on one pair of entries: do they
    make the operator return [false]? *)
Definition entry_differs (a b : P) : bool :=
  if is_floating_point then
    if sgt (sabs a) TOL && sgt (sabs b) TOL then sgt (sabs (ssub a b)) TOL
    else false
  else sne a b.

(** A [fk::vector<P>] is the list of its elements; [size()] is their
    number. *)
Definition size (v : list P) : Z := Z.of_nat (length v).

(** [vector(int size)], zero-initialised. *)
Definition new_vector (n : Z) : list P := replicate (Z.to_nat n) zero.

(** [vector::operator()(i)]; a negative index is out of the allocation. *)
Definition vector_at (v : list P) (i : Z) : option P :=
  cassert (i <? size v);;
  cassert (0 <=? i);;
  v !! Z.to_nat i.

(** The loop of [vector::operator==], which returns at the first pair of
    entries that differ. *)
Fixpoint vector_eq_loop (a b : list P) (indices : list Z) : option bool :=
  match indices with
  | [] => Some true
  | i :: rest =>
    x ← vector_at a i;
    y ← vector_at b i;
    if entry_differs x y then Some false else vector_eq_loop a b rest
  end.

(** [vector::operator==(other)]; [same_object] is [&other == this]. *)
Definition vector_eq (same_object : bool) (a b : list P) : option bool :=
  if same_object then Some true
  else if negb (size a =? size b) then Some false
  else vector_eq_loop a b (seqZ 0 (size a)).

(** [fk::matrix<P>]: column-major elements with the two dimensions. *)
Record matrix : Type := Matrix {
  nrows_ : Z;
  ncols_ : Z;
  data_ : list P
}.

(** The data holds [nrows * ncols] elements. *)
Definition matrix_wf (m : matrix) : Prop :=
  0 ≤ nrows_ m ∧ 0 ≤ ncols_ m
  ∧ Z.of_nat (length (data_ m)) = nrows_ m * ncols_ m.

(** [matrix(int M, int N)], zero-initialised. *)
Definition new_matrix (M N : Z) : matrix :=
  Matrix M N (replicate (Z.to_nat (M * N)) zero).

(** [matrix::operator()(i, j) const]: [*data(i, j)], that is
    [data_[j * nrows() + i]]. *)
Definition matrix_at (m : matrix) (i j : Z) : option P :=
  cassert ((i <? nrows_ m) && (j <? ncols_ m));;
  cassert (0 <=? j * nrows_ m + i);;
  data_ m !! Z.to_nat (j * nrows_ m + i).

(** [m(i, j) = v] through [matrix::operator()(i, j)]. *)
Definition matrix_set (m : matrix) (i j : Z) (v : P) : option matrix :=
  cassert ((i <? nrows_ m) && (j <? ncols_ m));;
  cassert (0 <=? j * nrows_ m + i);;
  cassert (j * nrows_ m + i <? Z.of_nat (length (data_ m)));;
  Some (Matrix (nrows_ m) (ncols_ m)
               (<[Z.to_nat (j * nrows_ m + i) := v]> (data_ m))).

(** The index pairs of the loops [for j < ncols) for (i < nrows)], in the
    order the loops visit them. *)
Definition column_major (nrows ncols : Z) : list (Z * Z) :=
  j ← seqZ 0 ncols; i ← seqZ 0 nrows; [(i, j)].

(** The loops of [matrix::operator==]. *)
Fixpoint matrix_eq_loop (a b : matrix) (indices : list (Z * Z))
  : option bool :=
  match indices with
  | [] => Some true
  | (i, j) :: rest =>
    x ← matrix_at a i j;
    y ← matrix_at b i j;
    if entry_differs x y then Some false else matrix_eq_loop a b rest
  end.

(** [matrix::operator==(other)]; [same_object] is [&other == this]. *)
Definition matrix_eq (same_object : bool) (a b : matrix) : option bool :=
  if same_object then Some true
  else if negb (nrows_ a =? nrows_ b) || negb (ncols_ a =? ncols_ b)
  then Some false
  else matrix_eq_loop a b (column_major (nrows_ a) (ncols_ a)).

(** [matrix::transpose()]: the matrix after the call. *)
Definition transpose (m : matrix) : option matrix :=
  let temp := new_matrix (ncols_ m) (nrows_ m) in
  temp ← foldM (λ temp j,
                  foldM (λ temp i,
                           v ← matrix_at m i j;
                           matrix_set temp j i v)
                        (seqZ 0 (nrows_ m)) temp)
               (seqZ 0 (ncols_ m)) temp;
  Some (Matrix (nrows_ temp) (ncols_ temp) (data_ temp)).

End Containers.

Arguments matrix : clear implicits.

(** [t] holds the entries of [m] with rows and columns exchanged. *)
Definition is_transpose {P : Type} (m t : matrix P) : Prop :=
  nrows_ t = ncols_ m ∧ ncols_ t = nrows_ m
  ∧ Z.of_nat (length (data_ t)) = nrows_ m * ncols_ m
  ∧ ∀ i j, 0 ≤ i < nrows_ m → 0 ≤ j < ncols_ m →
      data_ t !! Z.to_nat (i * ncols_ m + j)
      = data_ m !! Z.to_nat (j * nrows_ m + i).

(** A 2 x 3 matrix of doubles with an infinity and a NaN. *)
Definition matrix_2x3 : matrix float :=
  Matrix 2 3 [1.5%float; infinity; nan; (-2)%float; 0%float; 0x1p-60%float].

End Tensors.

(** ** The PDE factory *)

Module Factory.

(** [enum class PDE_opts]. *)
Inductive PDE_opts : Type :=
| continuity_1 | continuity_2 | continuity_3 | continuity_6
| fokkerplanck_1d_4p1a | fokkerplanck_1d_4p2 | fokkerplanck_1d_4p3
| fokkerplanck_1d_4p4 | fokkerplanck_1d_4p5 | fokkerplanck_2d_complete
| impurity_3d_A
| vlasov4 | vlasov43 | vlasov5 | vlasov7 | vlasov8
| pde_user.

(** The classes derived from [PDE<P>] that the factory constructs. *)
Inductive PDE_class : Type :=
| PDE_continuity_1d | PDE_continuity_2d | PDE_continuity_3d
| PDE_continuity_6d
| PDE_fokkerplanck_1d_4p1a | PDE_fokkerplanck_1d_4p2
| PDE_fokkerplanck_1d_4p3 | PDE_fokkerplanck_1d_4p4
| PDE_fokkerplanck_1d_4p5 | PDE_fokkerplanck_2d_complete
| PDE_impurity_3d_A.

(** What a call of the factory does: it returns
    [std::make_unique<C>(level, degree)], or prints a message and calls
    [exit(code)]. *)
Inductive outcome : Type :=
| made (c : PDE_class) (level degree : Z)
| exited (message : string) (code : Z).

(** The enumerators, numbered from 0 in the order of their declaration. *)
Definition PDE_opts_of_int (n : Z) : option PDE_opts :=
  [continuity_1; continuity_2; continuity_3; continuity_6;
   fokkerplanck_1d_4p1a; fokkerplanck_1d_4p2; fokkerplanck_1d_4p3;
   fokkerplanck_1d_4p4; fokkerplanck_1d_4p5; fokkerplanck_2d_complete;
   impurity_3d_A; vlasov4; vlasov43; vlasov5; vlasov7; vlasov8; pde_user]
  !! Z.to_nat n ≫= λ c, if n <? 0 then None else Some c.

(** The cases of [make_PDE] on the enumerators. *)
Definition make_PDE (choice : PDE_opts) (level degree : Z) : outcome :=
  match choice with
  | continuity_1 => made PDE_continuity_1d level degree
  | continuity_2 => made PDE_continuity_2d level degree
  | continuity_3 => made PDE_continuity_3d level degree
  | continuity_6 => made PDE_continuity_6d level degree
  | fokkerplanck_1d_4p1a => made PDE_fokkerplanck_1d_4p1a level degree
  | fokkerplanck_1d_4p2 => made PDE_fokkerplanck_1d_4p2 level degree
  | fokkerplanck_1d_4p3 => made PDE_fokkerplanck_1d_4p3 level degree
  | fokkerplanck_1d_4p4 => made PDE_fokkerplanck_1d_4p4 level degree
  | fokkerplanck_1d_4p5 => made PDE_fokkerplanck_1d_4p5 level degree
  | fokkerplanck_2d_complete =>
      made PDE_fokkerplanck_2d_complete level degree
  | impurity_3d_A => made PDE_impurity_3d_A level degree
  | vlasov4 => made PDE_continuity_1d level degree
  | vlasov43 => made PDE_continuity_1d level degree
  | vlasov5 => made PDE_continuity_1d level degree
  | vlasov7 => made PDE_continuity_1d level degree
  | vlasov8 => made PDE_continuity_1d level degree
  | pde_user => made PDE_continuity_1d level degree
  end.

(** [make_PDE] on any value of the enumeration type, with its [default:]
    case for the values that are no enumerator. *)
Definition make_PDE_raw (choice level degree : Z) : outcome :=
  match PDE_opts_of_int choice with
  | Some c => make_PDE c level degree
  | None => exited "Invalid pde choice" (-1)
  end.

(** The choices the enumeration marks as not implemented. *)
Definition is_vlasov (choice : PDE_opts) : bool :=
  match choice with
  | vlasov4 | vlasov43 | vlasov5 | vlasov7 | vlasov8 => true
  | _ => false
  end.

(** A configuration error: the factory leaves through [exit]. *)
Definition is_configuration_error (o : outcome) : bool :=
  match o with exited _ _ => true | made _ _ _ => false end.

End Factory.

(** ** Legendre polynomials on a domain *)

Module Quadrature.

Import Tensors.

(** [legendre] is instantiated for [float] and [double]; the embedding is
    the instantiation for [double], on the binary64 floats of the kernel. *)
Abbreviation double := float.

(** The conversion of an [int] to [double]. *)
Definition double_of_int (n : Z) : double :=
  if n <? 0 then PrimFloat.opp (PrimFloat.of_uint63 (Uint63.of_Z (- n)))
  else PrimFloat.of_uint63 (Uint63.of_Z n).

(** [dcopy_(n, x, 1, y, incy)] with [y = &data[base]]: element [i] of [x]
    goes to [data[base + i * incy]]. *)
Definition dcopy (x : list double) (base incy : Z) (data : list double)
  : option (list double) :=
  foldM (λ data i,
           v ← x !! Z.to_nat i;
           let k := base + i * incy in
           cassert (0 <=? k);;
           cassert (k <? Z.of_nat (length data));;
           Some (<[Z.to_nat k := v]> data))
        (seqZ 0 (size x)) data.

(** [matrix::update_col(col_idx, v)]. *)
Definition update_col (m : matrix double) (col_idx : Z) (v : list double)
  : option (matrix double) :=
  cassert (nrows_ m =? size v);;
  cassert (col_idx <? ncols_ m);;
  data ← dcopy v (col_idx * nrows_ m + 0) 1 (data_ m);
  Some (Matrix (nrows_ m) (ncols_ m) data).

(** [matrix::update_row(row_idx, v)]. *)
Definition update_row (m : matrix double) (row_idx : Z) (v : list double)
  : option (matrix double) :=
  cassert (ncols_ m =? size v);;
  cassert (row_idx <? nrows_ m);;
  data ← dcopy v (0 * nrows_ m + row_idx) (nrows_ m) (data_ m);
  Some (Matrix (nrows_ m) (ncols_ m) data).

(** [matrix::extract_submatrix(row_idx, col_idx, num_rows, num_cols)]. *)
Definition extract_submatrix (m : matrix double)
    (row_idx col_idx num_rows num_cols : Z) : option (matrix double) :=
  cassert (0 <=? row_idx);;
  cassert (0 <=? col_idx);;
  cassert (row_idx + num_rows <=? nrows_ m);;
  cassert (col_idx + num_cols <=? ncols_ m);;
  foldM (λ submatrix i,
           foldM (λ submatrix j,
                    v ← matrix_at m (i + row_idx) (j + col_idx);
                    matrix_set submatrix i j v)
                 (seqZ 0 num_cols) submatrix)
        (seqZ 0 num_rows) (new_matrix num_rows num_cols).

(** Modelled from the spec: the conversion of a matrix to a [fk::vector] is
    declared in a header that is not among the sources; the vector holds the
    elements of the matrix in storage order, for a single column that
    column. *)
Definition column_vector (m : matrix double) : list double := data_ m.

(** [extract_submatrix(0, col, domain.size(), 1)] read as a vector. *)
Definition extract_column (m : matrix double) (col n : Z)
  : option (list double) :=
  column_vector <$> extract_submatrix m 0 col n 1.

(** [vector::operator+(right)]. *)
Definition vector_add (a b : list double) : option (list double) :=
  cassert (size a =? size b);;
  Some (zip_with PrimFloat.add a b).

(** [vector::operator-(right)]. *)
Definition vector_sub (a b : list double) : option (list double) :=
  cassert (size a =? size b);;
  Some (zip_with PrimFloat.sub a b).

(** Modelled from the spec: the product of a vector and a scalar is not in
    the header among the sources; spec, section 4.A: scalar [*] allocates a
    fresh result, every element times the scalar. *)
Definition vector_scale (a : list double) (s : double) : list double :=
  (λ x, PrimFloat.mul x s) <$> a.

(** Modelled from the spec: the product of a matrix and a scalar of type [P],
    as for vectors (the header among the sources has the product with an
    [int], element by element). *)
Definition matrix_scale (m : matrix double) (s : double) : matrix double :=
  Matrix (nrows_ m) (ncols_ m) ((λ x, PrimFloat.mul x s) <$> data_ m).

(** [std::transform(a.begin(), a.end(), b.begin(), out, multiplies)]: it
    reads one element of [b] for each element of [a]. *)
Definition multiplies (a b : list double) : option (list double) :=
  cassert (size a <=? size b);;
  Some (zip_with PrimFloat.mul a b).

(** Modelled from the spec: [find(domain, pred)] is defined in a file that is
    not among the sources; legendre zeroes the rows of the points outside
    [-1, 1], so [find] gives the indices of the elements that satisfy the
    predicate, in ascending order. *)
Definition find (v : list double) (pred : double → bool) : list Z :=
  omap (λ p, if pred (snd p) then Some (fst p) else None)
       (zip (seqZ 0 (size v)) v).

(** The lambda of [legendre]: the point is outside [-1, 1]. *)
Definition out_of_range (elem : double) : bool :=
  PrimFloat.ltb elem (-1)%float || PrimFloat.ltb 1%float elem.

(** The state of the recurrence loop of [legendre]. *)
Record recurrence : Type := Recurrence {
  r_legendre : matrix double;
  r_legendre_prime : matrix double;
  legendre_order : list double;
  legendre_prime_order : list double;
  legendre_n_1 : list double;
  legendre_prime_n_1 : list double
}.

(** One pass of the loop [for (i = 0; i < degree - 2; ++i)]. *)
Definition recurrence_pass (domain : list double) (st : recurrence) (i : Z)
  : option recurrence :=
  let n := i + 1 in
  let column_index := i + 2 in
  product ← multiplies domain (legendre_order st);
  let factor :=
    PrimFloat.div 1%float (PrimFloat.add (double_of_int n) 1%float) in
  let two_n_1 :=
    PrimFloat.add (PrimFloat.mul 2%float (double_of_int n)) 1%float in
  legendre_col ← vector_sub (vector_scale product two_n_1)
                            (vector_scale (legendre_n_1 st)
                                          (double_of_int n));
  let legendre_col := vector_scale legendre_col factor in
  legendre ← update_col (r_legendre st) column_index legendre_col;
  product ← multiplies domain (legendre_prime_order st);
  sum ← vector_add product (legendre_order st);
  legendre_prime_col ← vector_sub (vector_scale sum two_n_1)
                                  (vector_scale (legendre_prime_n_1 st)
                                                (double_of_int n));
  let legendre_prime_col := vector_scale legendre_prime_col factor in
  legendre_prime ← update_col (r_legendre_prime st) column_index
                              legendre_prime_col;
  Some (Recurrence legendre legendre_prime
                   legendre_col legendre_prime_col
                   (legendre_order st) (legendre_prime_order st)).

(** One pass of the normalizing loop. *)
Definition normalize_pass (n : Z) (st : matrix double * matrix double)
    (i : Z) : option (matrix double * matrix double) :=
  let norm_2 :=
    PrimFloat.div 2%float
      (PrimFloat.add (PrimFloat.mul 2%float (double_of_int i)) 1%float) in
  let dscale := PrimFloat.div 1%float (PrimFloat.sqrt norm_2) in
  legendre_sub ← extract_column (fst st) i n;
  legendre ← update_col (fst st) i (vector_scale legendre_sub dscale);
  legendre_prime_sub ← extract_column (snd st) i n;
  legendre_prime ← update_col (snd st) i
                              (vector_scale legendre_prime_sub dscale);
  Some (legendre, legendre_prime).

(** [legendre] up to and including its normalizing loop: the polynomial
    values and their derivatives on the whole domain, before the rows out of
    range are zeroed and the result is scaled. *)
Definition legendre_normalized (domain : list double) (degree : Z)
  : option (matrix double * matrix double) :=
  cassert (0 <=? degree);;
  cassert (0 <? size domain);;
  let n := size domain in
  let ones := replicate (Z.to_nat n) 1%float in
  let legendre := new_matrix n (Z.max 1 degree) in
  let legendre_prime := new_matrix n (Z.max 1 degree) in
  legendre ← update_col legendre 0 ones;
  st ← (if 2 <=? degree then
          legendre ← update_col legendre 1 domain;
          legendre_prime ← update_col legendre_prime 1 ones;
          Some (legendre, legendre_prime)
        else Some (legendre, legendre_prime));
  st ← (if 3 <=? degree then
          order ← extract_column (fst st) 1 n;
          prime_order ← extract_column (snd st) 1 n;
          n_1 ← extract_column (fst st) 0 n;
          prime_n_1 ← extract_column (snd st) 0 n;
          r ← foldM (recurrence_pass domain) (seqZ 0 (degree - 2))
                    (Recurrence (fst st) (snd st) order prime_order
                                n_1 prime_n_1);
          Some (r_legendre r, r_legendre_prime r)
        else Some st);
  foldM (normalize_pass n) (seqZ 0 degree) st.

(** One pass of the loop over the indices out of range. *)
Definition zero_pass (degree : Z) (st : matrix double * matrix double)
    (i : Z) : option (matrix double * matrix double) :=
  let zeros := replicate (Z.to_nat (Z.max degree 1)) 0%float in
  legendre ← update_row (fst st) i zeros;
  legendre_prime ← update_row (snd st) i zeros;
  Some (legendre, legendre_prime).

(** [std::sqrt(2.0)]. *)
Definition sqrt_2 : double := PrimFloat.sqrt 2%float.

(** [legendre(domain, degree)] for [double]. *)
Definition legendre (domain : list double) (degree : Z)
  : option (matrix double * matrix double) :=
  st ← legendre_normalized domain degree;
  st ← foldM (zero_pass degree) (find domain out_of_range) st;
  if 0 <? degree then
    Some (matrix_scale (fst st) sqrt_2, matrix_scale (snd st) sqrt_2)
  else Some st.

(** [m] is an [R x C] matrix with its [R * C] elements. *)
Definition has_dims (m : matrix double) (R C : Z) : Prop :=
  nrows_ m = R ∧ ncols_ m = C ∧ Z.of_nat (length (data_ m)) = R * C.

(** The entry in row [i] and column [j]. *)
Definition entry (m : matrix double) (i j : Z) : option double :=
  data_ m !! Z.to_nat (j * nrows_ m + i).

(** The state of the recurrence keeps its shapes. *)
Definition recurrence_ok (n C : Z) (st : recurrence) : Prop :=
  has_dims (r_legendre st) n C ∧ has_dims (r_legendre_prime st) n C
  ∧ size (legendre_order st) = n ∧ size (legendre_prime_order st) = n
  ∧ size (legendre_n_1 st) = n ∧ size (legendre_prime_n_1 st) = n.

End Quadrature.

(** ** Raw arrays *)

(** [array[i]] on a raw array or a [std::vector]: an index outside the
    allocation is undefined behaviour. *)
Definition raw_at {A : Type} (array : list A) (i : Z) : option A :=
  if i <? 0 then None else array !! Z.to_nat i.

(** [std::memcpy] of [n] elements from the array [src] to the array [dst]:
    both must hold [n] elements. *)
Definition memcpy {A : Type} (dst src : list A) (n : Z) : option (list A) :=
  cassert (0 <=? n);;
  cassert (n <=? Z.of_nat (length src));;
  cassert (n <=? Z.of_nat (length dst));;
  Some (take (Z.to_nat n) src ++ drop (Z.to_nat n) dst).

(** ** More of the batch class: comparison, copy and batched gemv *)

Module BatchOps.

(** The loop of [batch<P>::operator==], which returns at the first slot
    whose two pointers differ. *)
Fixpoint batch_eq_loop (a other : batch) (indices : list Z) : option bool :=
  match indices with
  | [] => Some true
  | i :: rest =>
    p ← raw_at (batch_ a) i;
    q ← raw_at (batch_ other) i;
    if bool_decide (p ≠ q) then Some false else batch_eq_loop a other rest
  end.

(** [batch<P>::operator==(other)]. *)
Definition batch_eq (a other : batch) : option bool :=
  if negb (nrows a =? nrows other) then Some false
  else if negb (ncols a =? ncols other) then Some false
  else if negb (get_stride a =? get_stride other) then Some false
  else if negb (num_entries a =? num_entries other) then Some false
  else if negb (Bool.eqb (get_trans a) (get_trans other)) then Some false
  else batch_eq_loop a other (seqZ 0 (num_entries a)).

(** [batch<P>::operator=(batch<P> const &other)]: the batch after the
    assignment; [same_object] is [&other == this]. *)
Definition batch_copy_assign (same_object : bool) (this other : batch)
  : option batch :=
  if same_object then Some this
  else
    cassert (num_entries this =? num_entries other);;
    cassert (nrows this =? nrows other);;
    cassert (ncols this =? ncols other);;
    cassert (get_stride this =? get_stride other);;
    cassert (Bool.eqb (get_trans this) (get_trans other));;
    pointers ← memcpy (batch_ this) (batch_ other) (num_entries other);
    Some (MkBatch (num_entries this) (nrows this) (ncols this)
                  (get_stride this) (get_trans this) pointers).

(** *** batched_gemv *)

Section Gemv.
(** The element type [P] of the template. *)
Context {P : Type}.

(** One call [lib_dispatch::gemv(trans, m, n, alpha, A, lda, x, incx, beta,
    y, incy)]. *)
Record gemv_call : Type := GemvCall {
  vtrans : bool;
  vm : Z; vn : Z;
  valpha : P; vA : ptr; vlda : Z;
  vx : ptr; vincx : Z;
  vbeta : P; vy : ptr; vincy : Z
}.

(** One pass of the loop of [batched_gemv]. *)
Definition gemv_pass (a b c : batch) (alpha beta : P)
    (calls : list gemv_call) (i : Z) : option (list gemv_call) :=
  ai ← get_entry a i;
  match ai with
  | None => Some calls
  | Some pa =>
    bi ← get_entry b i;
    match bi with
    | None => Some calls
    | Some pb =>
      ci ← get_entry c i;
      match ci with
      | None => Some calls
      | Some pc =>
        Some (calls ++
              [GemvCall (get_trans a) (rows_op a) (cols_op a)
                        alpha pa (get_stride a) pb (get_stride b)
                        beta pc (get_stride c)])
      end
    end
  end.

(** [batched_gemv(a, b, c, alpha, beta)]: the gemv calls made, in order. *)
Definition batched_gemv (a b c : batch) (alpha beta : P)
  : option (list gemv_call) :=
  cassert (num_entries a =? num_entries b);;
  cassert (num_entries b =? num_entries c);;
  let n := num_entries a in
  cassert (negb (get_trans b) && negb (get_trans c));;
  let rows_a := rows_op a in
  let cols_a := cols_op a in
  let rows_b := nrows b in
  cassert (cols_a =? rows_b);;
  cassert (ncols b =? 1);;
  cassert (ncols c =? 1);;
  foldM (gemv_pass a b c alpha beta) (seqZ 0 n) [].

(** What [batched_gemv] asserts of its three batches. *)
Definition gemv_precondition (a b c : batch) : Prop :=
  num_entries a = num_entries b ∧ num_entries b = num_entries c
  ∧ get_trans b = false ∧ get_trans c = false
  ∧ cols_op a = nrows b ∧ ncols b = 1 ∧ ncols c = 1.

(** The gemv of slot [i], when none of its three pointers is null. *)
Definition gemv_of_slot (a b c : batch) (alpha beta : P) (i : Z)
  : option gemv_call :=
  pa ← mjoin (batch_ a !! Z.to_nat i);
  pb ← mjoin (batch_ b !! Z.to_nat i);
  pc ← mjoin (batch_ c !! Z.to_nat i);
  Some (GemvCall (get_trans a) (rows_op a) (cols_op a)
                 alpha pa (get_stride a) pb (get_stride b)
                 beta pc (get_stride c)).
End Gemv.

(** [b] with another row count. *)
Definition with_nrows (b : batch) (r : Z) : batch :=
  MkBatch (num_entries b) r (ncols b) (get_stride b) (get_trans b)
          (batch_ b).

(** A batch of three column vectors of two elements, stored with stride 2;
    only its first slot is assigned. *)
Definition batch_gv : batch :=
  MkBatch 3 2 1 2 false [Some (Ptr (heap 3) 0); None; None].

End BatchOps.

(** ** More of the tensor classes: arithmetic, resizing and submatrices *)

Module TensorOps.

Import Tensors.

(** The arithmetic of the element type [P] that the operators of the two
    classes use, besides what [Scalar] has. *)
Class Arith (P : Type) : Type := {
  sadd : P → P → P;             (* a + b *)
  smul : P → P → P;             (* a * b *)
  of_int : Z → P                (* the conversion of an int to P *)
}.

Section Operations.
Context {P : Type} `{Scalar P} `{Arith P}.

(** [v(i) = x] through [vector::operator()(i)]; a negative index is out of
    the allocation. *)
Definition vector_set (v : list P) (i : Z) (x : P) : option (list P) :=
  cassert (i <? size v);;
  cassert (0 <=? i);;
  Some (<[Z.to_nat i := x]> v).

(** [vector::operator!=(other)]. *)
Definition vector_ne (same_object : bool) (a b : list P) : option bool :=
  negb <$> vector_eq same_object a b.

(** [matrix::operator!=(other)]. *)
Definition matrix_ne (same_object : bool) (a b : matrix P) : option bool :=
  negb <$> matrix_eq same_object a b.

(** [vector::operator+(right)]. *)
Definition vector_plus (a right : list P) : option (list P) :=
  cassert (size a =? size right);;
  foldM (λ ans i,
           x ← vector_at a i;
           y ← vector_at right i;
           vector_set ans i (sadd x y))
        (seqZ 0 (size a)) (new_vector (size a)).

(** [vector::operator-(right)]. *)
Definition vector_minus (a right : list P) : option (list P) :=
  cassert (size a =? size right);;
  foldM (λ ans i,
           x ← vector_at a i;
           y ← vector_at right i;
           vector_set ans i (ssub x y))
        (seqZ 0 (size a)) (new_vector (size a)).

(** [vector::operator*(right)], the dot product, for an element type that
    is neither [double] nor [float] (those call BLAS). *)
Definition vector_dot (a right : list P) : option P :=
  cassert (size a =? size right);;
  foldM (λ ans i,
           x ← vector_at a i;
           y ← vector_at right i;
           Some (sadd ans (smul x y)))
        (seqZ 0 (size a)) zero.

(** [vector::resize(new_size)]: the vector after the call. [new P[n]()]
    throws for a negative [n]. *)
Definition resize (v : list P) (new_size : Z) : option (list P) :=
  if new_size =? size v then Some v
  else
    cassert (0 <=? new_size);;
    let data := new_vector new_size in
    if (0 <? size v) && (0 <? new_size) then
      if size v <? new_size then memcpy data v (size v)
      else memcpy data v new_size
    else Some data.

(** [matrix::operator+(right)]. *)
Definition matrix_add (a right : matrix P) : option (matrix P) :=
  cassert ((nrows_ a =? nrows_ right) && (ncols_ a =? ncols_ right));;
  let ans := new_matrix (nrows_ a) (ncols_ a) in
  foldM (λ ans j,
           foldM (λ ans i,
                    x ← matrix_at a i j;
                    y ← matrix_at right i j;
                    matrix_set ans i j (sadd x y))
                 (seqZ 0 (nrows_ a)) ans)
        (seqZ 0 (ncols_ a)) ans.

(** [matrix::operator-(right)]. *)
Definition matrix_sub (a right : matrix P) : option (matrix P) :=
  cassert ((nrows_ a =? nrows_ right) && (ncols_ a =? ncols_ right));;
  let ans := new_matrix (nrows_ a) (ncols_ a) in
  foldM (λ ans j,
           foldM (λ ans i,
                    x ← matrix_at a i j;
                    y ← matrix_at right i j;
                    matrix_set ans i j (ssub x y))
                 (seqZ 0 (nrows_ a)) ans)
        (seqZ 0 (ncols_ a)) ans.

(** [matrix::operator*(int right)]. *)
Definition matrix_mul_int (a : matrix P) (right : Z) : option (matrix P) :=
  let ans := new_matrix (nrows_ a) (ncols_ a) in
  foldM (λ ans j,
           foldM (λ ans i,
                    x ← matrix_at a i j;
                    matrix_set ans i j (smul x (of_int right)))
                 (seqZ 0 (nrows_ a)) ans)
        (seqZ 0 (ncols_ a)) ans.

(** The innermost loop of [igemm_]: the sum for the entry [(i, j)]. *)
Definition igemm_sum (A : list P) (lda : Z) (B : list P) (ldb : Z)
    (k i j : Z) : option P :=
  foldM (λ result z,
           a ← raw_at A (z * lda + i);
           b ← raw_at B (j * ldb + z);
           Some (sadd result (smul a b)))
        (seqZ 0 k) zero.

(** [igemm_(A, lda, B, ldb, C, ldc, m, k, n)]: the array [C] after the
    call. *)
Definition igemm_ (A : list P) (lda : Z) (B : list P) (ldb : Z)
    (C : list P) (ldc m k n : Z) : option (list P) :=
  cassert (0 <? m);;
  cassert (0 <? k);;
  cassert (0 <? n);;
  cassert (0 <? lda);;
  cassert (0 <? ldb);;
  cassert (0 <? ldc);;
  foldM (λ C i,
           foldM (λ C j,
                    result ← igemm_sum A lda B ldb k i j;
                    c ← raw_at C (j * ldc + i);
                    Some (<[Z.to_nat (j * ldc + i) := sadd c result]> C))
                 (seqZ 0 n) C)
        (seqZ 0 m) C.

(** [matrix::operator*(B)], the matrix product, for an element type that is
    neither [double] nor [float]. *)
Definition matrix_mul (A B : matrix P) : option (matrix P) :=
  cassert (ncols_ A =? nrows_ B);;
  let m := nrows_ A in
  let n := ncols_ B in
  let k := nrows_ B in
  let C := new_matrix m n in
  let lda := m in
  let ldb := k in
  let ldc := lda in
  data ← igemm_ (data_ A) lda (data_ B) ldb (data_ C) ldc m k n;
  Some (Matrix m n data).

(** [vector::operator*(A)], the product of a row vector and a matrix, for an
    element type that is neither [double] nor [float]. *)
Definition vector_mul_matrix (X : list P) (A : matrix P) : option (list P) :=
  cassert (size X =? nrows_ A);;
  let Y := new_vector (ncols_ A) in
  At ← transpose A;
  let ldv := 1 in
  let n := 1 in
  let lda := nrows_ At in
  let m := nrows_ At in
  let k := ncols_ At in
  igemm_ (data_ At) lda X ldv Y ldv m k n.

(** [matrix::set_submatrix(row_idx, col_idx, submatrix)]: the matrix after
    the call. *)
Definition set_submatrix (m : matrix P) (row_idx col_idx : Z)
    (submatrix : matrix P) : option (matrix P) :=
  cassert (0 <=? row_idx);;
  cassert (0 <=? col_idx);;
  cassert (row_idx + nrows_ submatrix <=? nrows_ m);;
  cassert (col_idx + ncols_ submatrix <=? ncols_ m);;
  foldM (λ this i,
           foldM (λ this j,
                    v ← matrix_at submatrix i j;
                    matrix_set this (i + row_idx) (j + col_idx) v)
                 (seqZ 0 (ncols_ submatrix)) this)
        (seqZ 0 (nrows_ submatrix)) m.

(** [matrix::extract_submatrix(row_idx, col_idx, num_rows, num_cols)]. *)
Definition extract_submatrix (m : matrix P)
    (row_idx col_idx num_rows num_cols : Z) : option (matrix P) :=
  cassert (0 <=? row_idx);;
  cassert (0 <=? col_idx);;
  cassert (row_idx + num_rows <=? nrows_ m);;
  cassert (col_idx + num_cols <=? ncols_ m);;
  foldM (λ submatrix i,
           foldM (λ submatrix j,
                    v ← matrix_at m (i + row_idx) (j + col_idx);
                    matrix_set submatrix i j v)
                 (seqZ 0 num_cols) submatrix)
        (seqZ 0 num_rows) (new_matrix num_rows num_cols).

(** [matrix::operator=(std::vector<P> const &v)]: the matrix after the
    assignment; the loops run over the dimensions of the matrix, which the
    assignments to its entries do not change. *)
Definition matrix_assign (m : matrix P) (v : list P) : option (matrix P) :=
  cassert (nrows_ m * ncols_ m =? size v);;
  foldM (λ this j,
           foldM (λ this i,
                    x ← raw_at v (j + i * ncols_ m);
                    matrix_set this i j x)
                 (seqZ 0 (nrows_ m)) this)
        (seqZ 0 (ncols_ m)) m.

(** The sum that [igemm_] forms for the entry [(i, j)] of a product of two
    matrices: the products of the entries of row [i] of [A] and of column [j]
    of [B], added from left to right to zero. *)
Definition row_times_column (A B : matrix P) (i j : Z) : option P :=
  foldM (λ result z,
           a ← matrix_at A i z;
           b ← matrix_at B z j;
           Some (sadd result (smul a b)))
        (seqZ 0 (ncols_ A)) zero.

(** The same for the product of a row vector and a matrix: the products of
    the entries of column [j] of [A] and of the vector. *)
Definition column_times_vector (A : matrix P) (X : list P) (j : Z)
  : option P :=
  foldM (λ result z,
           a ← matrix_at A z j;
           x ← vector_at X z;
           Some (sadd result (smul a x)))
        (seqZ 0 (nrows_ A)) zero.

End Operations.

(** [int], on values whose sums and products fit an [int] (an overflow is
    undefined behaviour): the arithmetic of [Z]. *)
#[global] Instance int_arith : Arith Z := {|
  sadd := Z.add;
  smul := Z.mul;
  of_int := id
|}.

(** [double]: the binary64 arithmetic of the kernel. *)
#[global] Instance double_arith : Arith float := {|
  sadd := PrimFloat.add;
  smul := PrimFloat.mul;
  of_int := λ n,
    if n <? 0 then PrimFloat.opp (PrimFloat.of_uint63 (Uint63.of_Z (- n)))
    else PrimFloat.of_uint63 (Uint63.of_Z n)
|}.

End TensorOps.

(** ** The selection strings of the PDE factory *)

Module Selection.

Import Factory.

(** [pde_mapping]: the entries of the initializer list, in its order. *)
Definition pde_mapping : list (string * PDE_opts) :=
  [("continuity_1", continuity_1);
   ("continuity_2", continuity_2);
   ("continuity_3", continuity_3);
   ("continuity_6", continuity_6);
   ("fokkerplanck_1d_4p1a", fokkerplanck_1d_4p1a);
   ("fokkerplanck_1d_4p2", fokkerplanck_1d_4p2);
   ("fokkerplanck_1d_4p3", fokkerplanck_1d_4p3);
   ("fokkerplanck_1d_4p4", fokkerplanck_1d_4p4);
   ("fokkerplanck_1d_4p5", fokkerplanck_1d_4p5);
   ("fokkerplanck_2d_complete", fokkerplanck_2d_complete);
   ("impurity_3d_A", impurity_3d_A);
   ("pde_user", pde_user);
   ("vlasov4", vlasov4);
   ("vlasov7", vlasov7);
   ("vlasov8", vlasov8);
   ("vlasov5", vlasov5);
   ("vlasov43", vlasov43)]%string.

(** [pde_mapping.at(name)]: a [std::map] keeps the first entry of a key and
    throws for a key it does not hold. *)
Definition pde_at (name : string) : option PDE_opts :=
  snd <$> (snd <$> list_find (λ e, fst e = name) pde_mapping).

(** Equality of enumerators is decidable. *)
#[export] Instance PDE_opts_eq_dec : EqDecision PDE_opts.
Proof. solve_decision. Defined.

End Selection.

(** * Assertions and loops *)

Lemma cassert_true (b : bool) : b = true → cassert b = Some ().
Proof. intros ->. done. Qed.

Lemma foldM_app {S A : Type} (f : S → A → option S) (l1 l2 : list A) (s : S) :
  foldM f (l1 ++ l2) s = (s' ← foldM f l1 s; foldM f l2 s').
Proof.
  revert s; induction l1 as [|x l1 IH]; intros s; simpl; [done|].
  destruct (f s x) as [s'|]; simpl; [apply IH|done].
Qed.

Lemma foldM_seqZ_inv {S : Type} (f : S → Z → option S) (I : Z → S → Prop)
    (lo n : Z) (s : S) :
  0 ≤ n →
  I lo s →
  (∀ m t, lo ≤ m < lo + n → I m t → ∃ t', f t m = Some t' ∧ I (m + 1) t') →
  ∃ s', foldM f (seqZ lo n) s = Some s' ∧ I (lo + n) s'.
Proof.
  intros Hn. revert s. pattern n. apply natlike_ind; [| |done].
  - intros s Hs _. exists s. rewrite Z.add_0_r. done.
  - clear n Hn. intros n Hn IH s Hs Hstep.
    destruct (IH s Hs) as (s1 & Hs1 & HI1).
    { intros m t Hm. apply Hstep. lia. }
    destruct (Hstep (lo + n) s1) as (s2 & Hs2 & HI2); [lia|done|].
    exists s2. split.
    + rewrite <- Z.add_1_r, seqZ_app by lia. rewrite foldM_app, Hs1. simpl.
      change (Z.of_nat 0 + (lo + n)) with (lo + n). rewrite Hs2. done.
    + replace (lo + Z.succ n) with (lo + n + 1) by lia. done.
Qed.

Lemma mapM_Some_lookup {A B : Type} (f : A → option B) (l : list A) :
  (∀ x, x ∈ l → is_Some (f x)) →
  ∃ k, mapM f l = Some k ∧ length k = length l
       ∧ ∀ i y, k !! i = Some y → ∃ x, l !! i = Some x ∧ f x = Some y.
Proof.
  intros Hf.
  destruct (mapM_is_Some_2 f l) as [k Hk].
  { apply Forall_forall. intros x Hx. by apply Hf. }
  exists k. split; [done|].
  apply mapM_Some_1 in Hk.
  split; [symmetry; by eapply Forall2_length|].
  intros i y Hy.
  destruct (Forall2_lookup_r _ _ _ _ _ Hk Hy) as (x & Hx & Hfx). eauto.
Qed.

(** * The batch code *)

Module KronmultProofs.

Import Views Batch Kronmult.

Lemma ptr_add_0 (p : ptr) : ptr_add p 0 = p.
Proof. destruct p as [r i]. unfold ptr_add. simpl. f_equal. lia. Qed.

Lemma assign_entry_Some (a : matrix_view) (pos : Z) (b : batch) :
  m_nrows a = nrows b → m_ncols a = ncols b →
  get_stride b = 1 ∨ m_stride a = get_stride b →
  0 ≤ pos < num_entries b →
  batch_ b !! Z.to_nat pos = Some None →
  assign_entry a pos b =
    Some (MkBatch (num_entries b) (nrows b) (ncols b) (get_stride b)
                  (get_trans b)
                  (<[Z.to_nat pos := Some (m_data a)]> (batch_ b))).
Proof.
  intros Hr Hc Hs Hp Hfree. unfold assign_entry.
  rewrite (cassert_true (m_nrows a =? nrows b)) by lia. simpl.
  rewrite (cassert_true (m_ncols a =? ncols b)) by lia. simpl.
  assert ((if get_stride b =? 1 then Some ()
           else cassert (m_stride a =? get_stride b)) = Some ()) as ->.
  { destruct (Z.eqb_spec (get_stride b) 1); [done|].
    apply cassert_true. lia. }
  simpl.
  rewrite (cassert_true (0 <=? pos)) by lia. simpl.
  rewrite (cassert_true (pos <? num_entries b)) by lia. simpl.
  rewrite Hfree. simpl. done.
Qed.

Lemma assign_at_slots (bs : list (list batch)) (d : Z) (o : nat)
    (a : matrix_view) (pos : Z) (ne nr nc st : Z) (tr : bool) :
  0 ≤ d →
  shape_at bs d o = Some (ne, nr, nc, st, tr, Z.to_nat ne) →
  m_nrows a = nr → m_ncols a = nc → st = 1 ∨ m_stride a = st →
  0 ≤ pos < ne →
  slot bs d o pos = Some None →
  ∃ bs', assign_at bs d o a pos = Some bs'
    ∧ length bs' = length bs
    ∧ (∀ d' o', shape_at bs' d' o' = shape_at bs d' o')
    ∧ ∀ d' o' q, slot bs' d' o' q =
        if decide (d' = d ∧ o' = o ∧ q = pos) then Some (Some (m_data a))
        else slot bs d' o' q.
Proof.
  intros Hd Hsh Hr Hc Hs Hp Hfree.
  unfold shape_at in Hsh. unfold slot in Hfree.
  destruct (Z.ltb_spec d 0) as [|_]; [lia|].
  destruct (Z.ltb_spec pos 0) as [|_]; [lia|]. simpl in Hfree.
  destruct (bs !! Z.to_nat d) as [set|] eqn:Hset; [|done]. simpl in *.
  destruct (set !! o) as [b|] eqn:Hb; [|done]. simpl in *.
  injection Hsh as Hne Hnr Hnc Hst Htr Hlen.
  unfold assign_at, assign_operand.
  rewrite (cassert_true (0 <=? d)) by lia. simpl.
  rewrite Hset. simpl. rewrite Hb. simpl.
  rewrite assign_entry_Some by (subst; auto; lia). simpl.
  eexists. split; [done|].
  split; [by rewrite length_insert|].
  assert (Z.to_nat d < length bs)%nat as Hdlt by (by eapply lookup_lt_Some).
  assert (o < length set)%nat as Holt by (by eapply lookup_lt_Some).
  split.
  - intros d' o'. unfold shape_at.
    destruct (Z.ltb_spec d' 0); [done|].
    destruct (decide (Z.to_nat d' = Z.to_nat d)) as [->|Hne'].
    + rewrite list_lookup_insert_eq, Hset by done. simpl.
      destruct (decide (o' = o)) as [->|Hno].
      * rewrite list_lookup_insert_eq, Hb by done. simpl.
        unfold shape. simpl. by rewrite length_insert.
      * by rewrite list_lookup_insert_ne by done.
    + by rewrite list_lookup_insert_ne by done.
  - intros d' o' q. unfold slot.
    destruct (Z.ltb_spec d' 0); simpl.
    { rewrite decide_False by lia. done. }
    destruct (Z.ltb_spec q 0); simpl.
    { rewrite decide_False by lia. done. }
    destruct (decide (Z.to_nat d' = Z.to_nat d)) as [Hed|Hne'].
    + rewrite Hed, list_lookup_insert_eq, Hset by done. simpl.
      destruct (decide (o' = o)) as [->|Hno].
      * rewrite list_lookup_insert_eq, Hb by done. simpl.
        destruct (decide (q = pos)) as [->|Hq].
        -- rewrite decide_True by (split; [lia|done]).
           rewrite list_lookup_insert_eq; [done|].
           rewrite Hlen. lia.
        -- rewrite decide_False by tauto.
           rewrite list_lookup_insert_ne by lia. done.
      * rewrite decide_False by tauto.
        by rewrite list_lookup_insert_ne by done.
    + rewrite decide_False by (intros (-> & _); done).
      by rewrite list_lookup_insert_ne by done.
Qed.

Lemma operand_shape_entries (pde : PDE) (M d : Z) (o : nat) :
  ∃ nr nc st tr,
    operand_shape pde M d o
    = (gemms_at pde d * M, nr, nc, st, tr, Z.to_nat (gemms_at pde d * M)).
Proof.
  unfold operand_shape.
  destruct (d =? 0); destruct o as [|[|o]]; eauto 10.
Qed.

Lemma gemms_at_pos (pde : PDE) (d : Z) :
  pde_ok pde → 0 ≤ d < num_dims pde → 1 ≤ gemms_at pde d.
Proof.
  intros (HD & HT & Hdeg & _) Hd. unfold gemms_at.
  destruct ((d =? 0) || (d =? num_dims pde - 1)); [lia|].
  assert (0 < degree0 pde ^ (num_dims pde - d - 1)); [|lia].
  apply Z.pow_pos_nonneg; lia.
Qed.

Lemma assign_triple (bs : list (list batch)) (d pos : Z)
    (a0 a1 a2 : matrix_view) (ne : Z) :
  0 ≤ d → 0 ≤ pos < ne →
  (∀ o, (o < 3)%nat → ∃ nr nc st tr,
      shape_at bs d o = Some (ne, nr, nc, st, tr, Z.to_nat ne)
      ∧ view_fits (pick a0 a1 a2 o) (ne, nr, nc, st, tr, Z.to_nat ne)) →
  (∀ o, (o < 3)%nat → slot bs d o pos = Some None) →
  ∃ bs',
    (b1 ← assign_at bs d 0 a0 pos;
     b2 ← assign_at b1 d 1 a1 pos;
     assign_at b2 d 2 a2 pos) = Some bs'
    ∧ length bs' = length bs
    ∧ (∀ d' o', shape_at bs' d' o' = shape_at bs d' o')
    ∧ ∀ d' o' q, (o' < 3)%nat → slot bs' d' o' q =
        if decide (d' = d ∧ q = pos)
        then Some (Some (m_data (pick a0 a1 a2 o')))
        else slot bs d' o' q.
Proof.
  intros Hd Hpos Hsh Hfree.
  destruct (Hsh 0%nat) as (nr0 & nc0 & st0 & tr0 & Hs0 & _ & F0r & F0c & F0s);
    [lia|].
  destruct (Hsh 1%nat) as (nr1 & nc1 & st1 & tr1 & Hs1 & _ & F1r & F1c & F1s);
    [lia|].
  destruct (Hsh 2%nat) as (nr2 & nc2 & st2 & tr2 & Hs2 & _ & F2r & F2c & F2s);
    [lia|].
  simpl in *.
  assert (slot bs d 0 pos = Some None) as Z0 by (apply Hfree; lia).
  assert (slot bs d 1 pos = Some None) as Z1 by (apply Hfree; lia).
  assert (slot bs d 2 pos = Some None) as Z2 by (apply Hfree; lia).
  destruct (assign_at_slots bs d 0 a0 pos ne nr0 nc0 st0 tr0)
    as (b1 & E1 & L1 & S1 & Q1); auto.
  assert (shape_at b1 d 1 = Some (ne, nr1, nc1, st1, tr1, Z.to_nat ne))
    as Hs1' by (by rewrite S1).
  assert (slot b1 d 1 pos = Some None) as Z1'.
  { by rewrite Q1, decide_False by (intros (_ & ? & _); done). }
  destruct (assign_at_slots b1 d 1 a1 pos ne nr1 nc1 st1 tr1)
    as (b2 & E2 & L2 & S2 & Q2); auto.
  assert (shape_at b2 d 2 = Some (ne, nr2, nc2, st2, tr2, Z.to_nat ne))
    as Hs2' by (by rewrite S2, S1).
  assert (slot b2 d 2 pos = Some None) as Z2'.
  { rewrite Q2, decide_False by (intros (_ & ? & _); done).
    by rewrite Q1, decide_False by (intros (_ & ? & _); done). }
  destruct (assign_at_slots b2 d 2 a2 pos ne nr2 nc2 st2 tr2)
    as (b3 & E3 & L3 & S3 & Q3); auto.
  exists b3. rewrite E1. simpl. rewrite E2. simpl.
  split; [done|]. split; [congruence|].
  split; [intros; by rewrite S3, S2, S1|].
  intros d' o' q Ho'. rewrite Q3, Q2, Q1.
  destruct (decide (d' = d ∧ q = pos)) as [[-> ->]|Hn].
  - destruct o' as [|[|[|o']]]; [| | |lia]; simpl;
      repeat (first [rewrite decide_True by done
                    |rewrite decide_False by (intros (_ & ? & _); done)]);
      done.
  - repeat rewrite decide_False by tauto. done.
Qed.

Ltac bool_lia :=
  apply eq_true_iff_eq;
  repeat first [rewrite orb_true_iff | rewrite andb_true_iff
               | rewrite bool_decide_eq_true | rewrite Z.leb_le
               | rewrite Z.ltb_lt | rewrite Z.eqb_eq];
  lia.

Lemma written_step (pde : PDE) (off m g d q : Z) :
  0 ≤ g →
  written pde off m (g + 1) d q
  = written pde off m g d q
    || bool_decide (d = m ∧ q = off * gemms_at pde m + g) && (0 <=? m).
Proof.
  intros Hg. unfold written. destruct (decide (d = m)) as [->|Hn]; bool_lia.
Qed.

Lemma written_next (pde : PDE) (off m d q : Z) :
  0 ≤ m →
  written pde off m (gemms_at pde m) d q = written pde off (m + 1) 0 d q.
Proof.
  intros Hm. unfold written. destruct (decide (d = m)) as [->|Hn]; bool_lia.
Qed.

Lemma written_none (pde : PDE) (off d q : Z) :
  written pde off 0 0 d q = false.
Proof.
  unfold written. apply not_true_is_false.
  repeat first [rewrite orb_true_iff | rewrite andb_true_iff
               | rewrite Z.leb_le | rewrite Z.ltb_lt | rewrite Z.eqb_eq].
  lia.
Qed.

Lemma progress_start (pde : PDE) A x y work off bs :
  progress pde A x y work off bs 0 0 bs.
Proof.
  split; [done|]. split; [done|].
  intros d o q _. by rewrite written_none.
Qed.

Lemma progress_next (pde : PDE) A x y work off bs m bs' :
  0 ≤ m →
  progress pde A x y work off bs m (gemms_at pde m) bs' →
  progress pde A x y work off bs (m + 1) 0 bs'.
Proof.
  intros Hm (L & S & Q). split; [done|]. split; [done|].
  intros d o q Ho. rewrite Q by done. by rewrite written_next.
Qed.

Lemma triple_progress (pde : PDE) A x y work (off M : Z)
    (bs cur : list (list batch)) (m g pos : Z) (a0 a1 a2 : matrix_view) :
  pde_ok pde →
  allocated pde M bs → 0 ≤ off < M → 0 ≤ m < num_dims pde →
  0 ≤ g < gemms_at pde m →
  pos = off * gemms_at pde m + g →
  (∀ o q, (o < 3)%nat →
     off * gemms_at pde m ≤ q < off * gemms_at pde m + gemms_at pde m →
     slot bs m o q = Some None) →
  progress pde A x y work off bs m g cur →
  (∀ o, (o < 3)%nat →
     view_fits (pick a0 a1 a2 o) (operand_shape pde M m o)) →
  (∀ o, (o < 3)%nat →
     kron_operand pde A x y work m o g = Some (m_data (pick a0 a1 a2 o))) →
  ∃ bs',
    (b1 ← assign_at cur m 0 a0 pos;
     b2 ← assign_at b1 m 1 a1 pos;
     assign_at b2 m 2 a2 pos) = Some bs'
    ∧ progress pde A x y work off bs m (g + 1) bs'.
Proof.
  intros Hpde (Hlen & Hshape & _) Hoff Hm Hg -> Hfree (L & S & Q) Hfit Hptr.
  destruct (assign_triple cur m (off * gemms_at pde m + g) a0 a1 a2
              (gemms_at pde m * M)) as (bs' & E & L' & S' & Q').
  - lia.
  - nia.
  - intros o Ho. specialize (Hfit o Ho).
    destruct (operand_shape_entries pde M m o) as (nr & nc & st & tr & Eo).
    exists nr, nc, st, tr. rewrite S, Hshape by done.
    rewrite Eo in Hfit |- *. done.
  - intros o Ho. rewrite Q by done.
    assert (written pde off m g m (off * gemms_at pde m + g) = false) as ->.
    { unfold written. apply not_true_is_false.
      repeat first [rewrite orb_true_iff | rewrite andb_true_iff
                   | rewrite Z.leb_le | rewrite Z.ltb_lt | rewrite Z.eqb_eq].
      lia. }
    apply Hfree; [done|lia].
  - exists bs'. split; [done|]. split; [congruence|].
    split; [intros; by rewrite S', S|].
    intros d o q Ho. rewrite Q' by done. rewrite written_step by lia.
    destruct (decide (d = m ∧ q = off * gemms_at pde m + g)) as [[-> ->]|Hn].
    + rewrite bool_decide_true by done.
      destruct (Z.leb_spec 0 m); [|lia]. rewrite orb_true_r.
      replace (off * gemms_at pde m + g - off * gemms_at pde m) with g by lia.
      by rewrite Hptr.
    + rewrite bool_decide_false by done. simpl. rewrite orb_false_r.
      apply Q. done.
Qed.

Lemma assign_at_insert (bs : list (list batch)) (n : nat) (d : Z)
    (set : list batch) (o : nat) (a : matrix_view) (pos : Z) :
  0 ≤ d → n = Z.to_nat d → (n < length bs)%nat →
  assign_at (<[n := set]> bs) d o a pos
  = (set' ← assign_operand set o a pos; Some (<[n := set']> bs)).
Proof.
  intros Hd -> Hlt. unfold assign_at.
  rewrite (cassert_true (0 <=? d)) by lia. simpl.
  rewrite list_lookup_insert_eq by done. simpl.
  destruct (assign_operand set o a pos); simpl; [|done].
  by rewrite list_insert_insert_eq.
Qed.

Lemma kron_base_at0_triple (A : matrix_view) (x y : vector_view)
    (bs : list (list batch)) (off deg D : Z) (sizes : matrix_size_set) :
  compute_dimensions deg D 0 = Some sizes →
  kron_base_at0 A x y bs off deg D
  = (b1 ← assign_at bs 0 0 A off;
     b2 ← assign_at b1 0 1 (overlay x (rows_b sizes) (cols_b sizes) 0) off;
     assign_at b2 0 2 (overlay y (rows_a sizes) (cols_b sizes) 0) off).
Proof.
  intros Hsz. unfold kron_base_at0, kron_base. rewrite Hsz. simpl.
  destruct (bs !! 0%nat) as [set|] eqn:Hset; simpl.
  2:{ unfold assign_at. simpl. change (Z.to_nat 0) with 0%nat.
      rewrite Hset. done. }
  assert (0 < length bs)%nat as Hlt by (by eapply lookup_lt_Some).
  assert (assign_at bs 0 0 A off
          = (set' ← assign_operand set 0 A off; Some (<[0%nat := set']> bs)))
    as ->.
  { unfold assign_at. simpl. change (Z.to_nat 0) with 0%nat.
    rewrite Hset. done. }
  destruct (assign_operand set 0 A off) as [s1|]; simpl; [|done].
  rewrite (assign_at_insert bs 0 0) by (simpl; lia).
  destruct (assign_operand s1 1 _ off) as [s2|]; simpl; [|done].
  rewrite (assign_at_insert bs 0 0) by (simpl; lia).
  destruct (assign_operand s2 2 _ off) as [s3|]; simpl; done.
Qed.

Section Kron.
Context (pde : PDE) (A : list matrix_view) (x y : vector_view)
        (work : list vector_view).
Context (Hpde : pde_ok pde) (Hargs : kron_args_ok pde A x y work).

Let D := num_dims pde.
Let deg := degree0 pde.

Lemma A_lookup (d : Z) :
  0 ≤ d < D →
  ∃ m, A !! Z.to_nat d = Some m ∧ m_nrows m = deg ∧ m_ncols m = deg
       ∧ (coefficient_stride pde 0 d = 1
          ∨ m_stride m = coefficient_stride pde 0 d).
Proof.
  intros Hd. destruct Hargs as (_ & _ & _ & _ & HA & HF & Hst).
  destruct (lookup_lt_is_Some_2 A (Z.to_nat d)) as [m Hm]; [lia|].
  exists m. split; [done|].
  rewrite Forall_lookup in HF. destruct (HF _ _ Hm). auto.
Qed.

Lemma work_lookup (i : Z) :
  0 ≤ i < Z.min (D - 1) 2 →
  ∃ w, work !! Z.to_nat i = Some w.
Proof.
  intros Hi. destruct Hargs as (_ & _ & Hw & _).
  apply lookup_lt_is_Some_2. fold D in Hw. lia.
Qed.

Lemma compute_dimensions_Some (d : Z) :
  0 ≤ d < D →
  compute_dimensions deg D d
  = Some (if d =? 0 then MatrixSizeSet deg deg deg (deg ^ (D - 1))
          else MatrixSizeSet (deg ^ d) deg deg deg).
Proof.
  intros Hd. destruct Hpde as (HD & HT & Hdeg & _).
  unfold compute_dimensions.
  rewrite (cassert_true (0 <=? d)) by lia. simpl.
  rewrite (cassert_true (d <? D)) by lia. simpl.
  rewrite (cassert_true (0 <? D)) by (subst D; lia). simpl.
  rewrite (cassert_true (0 <? deg)) by (subst deg; lia). simpl.
  by destruct (d =? 0).
Qed.

Lemma compute_batch_size_Some (d : Z) :
  0 ≤ d < D → compute_batch_size deg D d = Some (gemms_at pde d).
Proof.
  intros Hd. destruct Hpde as (HD & HT & Hdeg & _).
  unfold compute_batch_size, gemms_at.
  rewrite (cassert_true (0 <=? d)) by lia. simpl.
  rewrite (cassert_true (d <? D)) by lia. simpl.
  rewrite (cassert_true (0 <? D)) by (subst D; lia). simpl.
  rewrite (cassert_true (0 <? deg)) by (subst deg; lia). simpl.
  fold D deg. by destruct ((d =? 0) || (d =? D - 1)).
Qed.

Lemma asserts_pass (bs : list (list batch)) (off : Z) :
  Z.of_nat (length bs) = D → 0 ≤ off →
  kronmult_to_batch_sets A x y work bs off pde
  = (A_0 ← A !! 0%nat;
     if D =? 1 then kron_base_at0 A_0 x y bs off deg D
     else
       work_0 ← work !! 0%nat;
       batches ← kron_base_at0 A_0 x work_0 bs off deg D;
       batches ← foldM (enqueue_dimension A work off deg D)
                       (seqZ 1 (D - 2)) batches;
       sizes ← compute_dimensions deg D (D - 1);
       w_in ← work !! Z.to_nat (Z.rem D 2);
       let x_view := overlay w_in (rows_a sizes) (cols_a sizes) 0 in
       batches ← assign_at batches (D - 1) 0 x_view off;
       A_last ← A !! Z.to_nat (D - 1);
       batches ← assign_at batches (D - 1) 1 A_last off;
       let y_view := overlay y (rows_a sizes) (cols_a sizes) 0 in
       assign_at batches (D - 1) 2 y_view off).
Proof.
  intros Hlen Hoff.
  destruct Hargs as (Hx & Hy & Hw & HFw & HA & HFA & _).
  unfold kronmult_to_batch_sets. fold D deg.
  rewrite (cassert_true (v_size x =? deg ^ D)) by (subst D deg; lia).
  simpl.
  rewrite (cassert_true (v_size y =? deg ^ D)) by (subst D deg; lia).
  simpl.
  rewrite (cassert_true (Z.of_nat (length work) =? Z.min (D - 1) 2))
    by (subst D; lia).
  simpl.
  rewrite (cassert_true (forallb _ work)).
  2:{ apply forallb_forall. intros v Hv. apply Z.eqb_eq.
      rewrite Forall_forall in HFw. apply HFw.
      by apply list_elem_of_In. }
  simpl.
  rewrite (cassert_true (forallb _ A)).
  2:{ apply forallb_forall. intros m Hm.
      rewrite Forall_forall in HFA.
      destruct (HFA m) as [Hr Hc]; [by apply list_elem_of_In|].
      apply andb_true_iff. split; apply Z.eqb_eq; done. }
  simpl.
  rewrite (cassert_true (Z.of_nat (length bs) =? D)) by lia. simpl.
  rewrite (cassert_true (0 <=? off)) by lia. simpl.
  done.
Qed.

Lemma pow_split (d : Z) : 0 ≤ d < D → deg ^ d * deg * deg ^ (D - d - 1) = deg ^ D.
Proof.
  intros Hd. replace D with (d + 1 + (D - d - 1)) at 2 by lia.
  rewrite !Z.pow_add_r, Z.pow_1_r by lia. done.
Qed.

Lemma kronmult_progress (bs : list (list batch)) (off M : Z) :
  allocated pde M bs → 0 ≤ off < M →
  (∀ d o q, 0 ≤ d < D → (o < 3)%nat →
     off * gemms_at pde d ≤ q < off * gemms_at pde d + gemms_at pde d →
     slot bs d o q = Some None) →
  ∃ bs', kronmult_to_batch_sets A x y work bs off pde = Some bs'
         ∧ progress pde A x y work off bs D 0 bs'.
Proof.
  intros Hal Hoff Hfree.
  assert (1 ≤ D) as HD by (destruct Hpde; done).
  assert (1 ≤ deg) as Hdeg by (destruct Hpde as (_ & _ & ? & _); done).
  assert (gemms_at pde 0 = 1) as G0 by (unfold gemms_at; done).
  assert (gemms_at pde (D - 1) = 1) as GL.
  { unfold gemms_at. fold D. rewrite Z.eqb_refl, orb_true_r. done. }
  rewrite asserts_pass by (destruct Hal; subst D; lia).
  destruct (A_lookup 0) as (A0 & HA0 & A0r & A0c & A0s); [lia|].
  change (Z.to_nat 0) with 0%nat in HA0. rewrite HA0. simpl.
  pose proof (compute_dimensions_Some 0 ltac:(lia)) as Hcd0. simpl in Hcd0.
  destruct (Z.eqb_spec D 1) as [HD1|HD1].
  - (* a single dimension: the base gemm writes to y *)
    rewrite (kron_base_at0_triple _ _ _ _ _ _ _ _ Hcd0). simpl.
    destruct (triple_progress pde A x y work off M bs bs 0 0 off
                A0 (overlay x deg (deg ^ (D - 1)) 0)
                (overlay y deg (deg ^ (D - 1)) 0))
      as (bs' & E & P); auto; try lia.
    + intros o q Ho Hq. apply Hfree; [lia|done|done].
    + apply progress_start.
    + intros [|[|[|o]]] Ho; [| | |lia]; unfold operand_shape; simpl;
        fold D deg; repeat split; auto.
    + intros [|[|[|o]]] Ho; [| | |lia]; unfold kron_operand; simpl;
        fold D.
      * by rewrite HA0.
      * by rewrite ptr_add_0.
      * rewrite HD1. simpl. by rewrite ptr_add_0.
    + exists bs'. split; [done|].
      replace D with (0 + 1) by lia. apply progress_next; [lia|].
      rewrite G0. done.
  - (* several dimensions *)
    destruct (work_lookup 0) as (w0 & Hw0); [lia|].
    change (Z.to_nat 0) with 0%nat in Hw0. rewrite Hw0. simpl.
    rewrite (kron_base_at0_triple _ _ _ _ _ _ _ _ Hcd0). simpl.
    destruct (triple_progress pde A x y work off M bs bs 0 0 off
                A0 (overlay x deg (deg ^ (D - 1)) 0)
                (overlay w0 deg (deg ^ (D - 1)) 0))
      as (bs1 & E1 & P1); auto; try lia.
    { intros o q Ho Hq. apply Hfree; [lia|done|done]. }
    { apply progress_start. }
    { intros [|[|[|o]]] Ho; [| | |lia]; unfold operand_shape; simpl;
        fold D deg; repeat split; auto. }
    { intros [|[|[|o]]] Ho; [| | |lia]; unfold kron_operand; simpl;
        fold D.
      - by rewrite HA0.
      - by rewrite ptr_add_0.
      - destruct (Z.eqb_spec D 1); [lia|]. rewrite Hw0. simpl.
        by rewrite ptr_add_0. }
    rewrite E1. simpl.
    apply (progress_next pde A x y work off bs 0) in P1; [|lia].
    (* the intermediate dimensions *)
    destruct (foldM_seqZ_inv (enqueue_dimension A work off deg D)
                (λ m cur, progress pde A x y work off bs m 0 cur)
                1 (D - 2) bs1) as (bs2 & E2 & P2); [lia|done| |].
    { intros m cur Hm Pm.
      unfold enqueue_dimension.
      rewrite compute_dimensions_Some by lia.
      rewrite compute_batch_size_Some by lia. simpl.
      destruct (Z.eqb_spec m 0) as [|_]; [lia|]. simpl.
      assert (gemms_at pde m = deg ^ (D - m - 1)) as Gm.
      { unfold gemms_at. fold D deg.
        destruct (Z.eqb_spec m 0), (Z.eqb_spec m (D - 1)); simpl;
          try lia; done. }
      rewrite (cassert_true (_ =? _)).
      2:{ apply Z.eqb_eq. rewrite Gm. apply pow_split. lia. }
      simpl.
      assert (1 ≤ gemms_at pde m) as Gpos
        by (apply gemms_at_pos; [done|fold D; lia]).
      destruct (work_lookup (Z.rem (m - 1) 2)) as (win & Hwin).
      { pose proof (Z.rem_bound_pos (m - 1) 2). lia. }
      destruct (work_lookup (Z.rem m 2)) as (wout & Hwout).
      { pose proof (Z.rem_bound_pos m 2). lia. }
      destruct (A_lookup m) as (Am & HAm & Amr & Amc & Ams); [lia|].
      destruct (foldM_seqZ_inv
                  (enqueue_gemm A work off m
                     (MatrixSizeSet (deg ^ m) deg deg deg)
                     (gemms_at pde m) (deg ^ m * deg))
                  (λ g cur', progress pde A x y work off bs m g cur')
                  0 (gemms_at pde m) cur) as (cur' & E' & P');
        [lia|done| |].
      - intros g t Hg Pg. unfold enqueue_gemm. simpl.
        rewrite Hwin. simpl.
        destruct (triple_progress pde A x y work off M bs t m g
                    (off * gemms_at pde m + g)
                    (overlay win (deg ^ m) deg (deg ^ m * deg * g))
                    Am
                    (overlay wout (deg ^ m) deg (deg ^ m * deg * g)))
          as (t' & Et & Pt); auto; try (fold D; lia).
        + intros o q Ho Hq. apply Hfree; [fold D; lia|done|done].
        + intros [|[|[|o]]] Ho; [| | |lia]; unfold operand_shape;
            destruct (Z.eqb_spec m 0); try lia; simpl;
            fold D deg; repeat split; auto.
        + assert (deg ^ (m + 1) = deg ^ m * deg) as Epow
            by (rewrite Z.pow_add_r, Z.pow_1_r by lia; done).
          intros [|[|[|o]]] Ho; [| | |lia]; unfold kron_operand;
            fold D deg;
            destruct (Z.eqb_spec m 0), (Z.eqb_spec m (D - 1)); try lia;
            simpl.
          * rewrite Hwin. simpl. by rewrite Epow.
          * by rewrite HAm.
          * rewrite Hwout. simpl. by rewrite Epow.
        + destruct (assign_at t m 0 _ _) as [t1|]; simpl in Et; [|done].
          simpl. rewrite HAm. simpl.
          destruct (assign_at t1 m 1 _ _) as [t2|]; simpl in Et; [|done].
          simpl. rewrite Hwout. simpl. eauto.
      - exists cur'. split; [done|].
        apply progress_next; [lia|]. done. }
    rewrite E2. simpl.
    replace (1 + (D - 2)) with (D - 1) in P2 by lia.
    (* the highest dimension *)
    rewrite compute_dimensions_Some by lia.
    destruct (Z.eqb_spec (D - 1) 0) as [|_]; [lia|]. simpl.
    destruct (work_lookup (Z.rem D 2)) as (wl & Hwl).
    { pose proof (Z.rem_bound_pos D 2).
      assert (D = 2 → Z.rem D 2 = 0) by (intros ->; done). lia. }
    rewrite Hwl. simpl.
    destruct (A_lookup (D - 1)) as (Al & HAl & Alr & Alc & Als); [lia|].
    destruct (triple_progress pde A x y work off M bs bs2 (D - 1) 0 off
                (overlay wl (deg ^ (D - 1)) deg 0) Al
                (overlay y (deg ^ (D - 1)) deg 0))
      as (bs3 & E3 & P3); auto; try (fold D; lia).
    { intros o q Ho Hq. apply Hfree; [lia|done|done]. }
    { intros [|[|[|o]]] Ho; [| | |lia]; unfold operand_shape;
        destruct (Z.eqb_spec (D - 1) 0); try lia; simpl;
        fold D deg; repeat split; auto. }
    { intros [|[|[|o]]] Ho; [| | |lia]; unfold kron_operand;
        fold D deg;
        destruct (Z.eqb_spec (D - 1) 0); try lia;
        rewrite Z.eqb_refl; simpl.
      - rewrite Hwl. simpl. by rewrite ptr_add_0.
      - by rewrite HAl.
      - by rewrite ptr_add_0. }
    destruct (assign_at bs2 (D - 1) 0 _ _) as [t1|]; simpl in E3; [|done].
    simpl. rewrite HAl. simpl.
    destruct (assign_at t1 (D - 1) 1 _ _) as [t2|]; simpl in E3; [|done].
    simpl. rewrite E3. exists bs3. split; [done|].
    replace D with (D - 1 + 1) at 1 by lia.
    apply progress_next; [lia|]. rewrite GL. done.
Qed.

End Kron.

Lemma new_batch_Some (ne nr nc st : Z) (tr : bool) :
  0 < ne → 0 < nr → 0 < nc → 0 < st →
  new_batch ne nr nc st tr
  = Some (MkBatch ne nr nc st tr (replicate (Z.to_nat ne) None)).
Proof.
  intros. unfold new_batch.
  rewrite !(cassert_true (0 <? _)) by lia. done.
Qed.

Lemma slot_app_l (bs : list (list batch)) (set : list batch) d o q :
  d < Z.of_nat (length bs) → slot (bs ++ [set]) d o q = slot bs d o q.
Proof.
  intros Hd. unfold slot. destruct ((d <? 0) || (q <? 0)) eqn:E; [done|].
  apply orb_false_iff in E as [E1%Z.ltb_ge _].
  by rewrite lookup_app_l by lia.
Qed.

Lemma shape_at_app_l (bs : list (list batch)) (set : list batch) d o :
  d < Z.of_nat (length bs) → shape_at (bs ++ [set]) d o = shape_at bs d o.
Proof.
  intros Hd. unfold shape_at. destruct (Z.ltb_spec d 0); [done|].
  by rewrite lookup_app_l by lia.
Qed.

Lemma slot_app_r (bs : list (list batch)) (set : list batch) d o q :
  d = Z.of_nat (length bs) → 0 ≤ q →
  slot (bs ++ [set]) d o q = (b ← set !! o; batch_ b !! Z.to_nat q).
Proof.
  intros -> Hq. unfold slot.
  destruct (Z.ltb_spec (Z.of_nat (length bs)) 0); [lia|].
  destruct (Z.ltb_spec q 0); [lia|]. simpl.
  rewrite Nat2Z.id, list_lookup_middle by done. done.
Qed.

Lemma shape_at_app_r (bs : list (list batch)) (set : list batch) d o :
  d = Z.of_nat (length bs) →
  shape_at (bs ++ [set]) d o = (b ← set !! o; Some (shape b)).
Proof.
  intros ->. unfold shape_at.
  destruct (Z.ltb_spec (Z.of_nat (length bs)) 0); [lia|].
  rewrite Nat2Z.id, list_lookup_middle by done. done.
Qed.

Lemma fresh_set_free (a b c : batch) (o : nat) (q : Z) (x : option ptr) :
  (∀ i y, batch_ a !! i = Some y → y = None) →
  (∀ i y, batch_ b !! i = Some y → y = None) →
  (∀ i y, batch_ c !! i = Some y → y = None) →
  ([a; b; c] !! o ≫= λ b', batch_ b' !! Z.to_nat q) = Some x → x = None.
Proof.
  intros Ha Hb Hc. destruct o as [|[|[|o]]]; simpl; eauto. done.
Qed.

Lemma replicate_None_lookup (n i : nat) (y : option ptr) :
  replicate n None !! i = Some y → y = None.
Proof. intros [-> _]%lookup_replicate. done. Qed.

Lemma allocate_batches_spec (pde : PDE) (N : Z) :
  pde_ok pde → 1 ≤ N →
  ∃ bs, allocate_batches pde N = Some bs
        ∧ allocated pde (num_terms pde * N) bs
        ∧ all_free bs.
Proof.
  intros Hpde HN. pose proof Hpde as (HD & HT & Hdeg & Hcs).
  set (M := num_terms pde * N).
  assert (1 ≤ M) as HM by (subst M; nia).
  unfold allocate_batches.
  rewrite (compute_dimensions_Some pde Hpde 0) by lia. simpl.
  assert (0 < degree0 pde ^ (num_dims pde - 1)) as Hp
    by (apply Z.pow_pos_nonneg; lia).
  do 2 rewrite new_batch_Some by (try apply Hcs; first [lia|nia]). simpl.
  set (I := λ (m : Z) (bs : list (list batch)),
         Z.of_nat (length bs) = m
         ∧ (∀ d o, 0 ≤ d < m → (o < 3)%nat →
              shape_at bs d o = Some (operand_shape pde M d o))
         ∧ (∀ d, 0 ≤ d < m → shape_at bs d 3 = None)
         ∧ all_free bs).
  match goal with
  | |- ∃ bs, foldM ?f ?l ?s = Some bs ∧ _ =>
      destruct (foldM_seqZ_inv f I 1 (num_dims pde - 1) s)
        as (bs & E & Hlen & Hsh & Hsh3 & Hfree)
  end.
  - lia.
  - (* dimension 0 *)
    split; [done|]. split; [|split].
    + intros d o Hd Ho. assert (d = 0) as -> by lia.
      unfold shape_at, operand_shape, gemms_at. simpl.
      destruct o as [|[|[|o]]]; [| | |lia]; simpl; unfold shape; simpl;
        rewrite length_replicate;
        (destruct M eqn:EM; [lia| |lia]); subst M; rewrite EM; done.
    + intros d Hd. assert (d = 0) as -> by lia. done.
    + intros d o q x. unfold slot.
      destruct ((d <? 0) || (q <? 0)); [done|].
      destruct (Z.to_nat d) as [|n]; simpl; [|done].
      apply fresh_set_free; simpl; apply replicate_None_lookup.
  - (* dimension m *)
    intros m bs Hm (Hlen & Hsh & Hsh3 & Hfree).
    rewrite (compute_batch_size_Some pde Hpde m) by lia. simpl.
    rewrite (compute_dimensions_Some pde Hpde m) by lia.
    destruct (Z.eqb_spec m 0) as [|_]; [lia|]. simpl.
    assert (1 ≤ gemms_at pde m) as Hg by (apply gemms_at_pos; [done|lia]).
    assert (0 < degree0 pde ^ m) as Hpm by (apply Z.pow_pos_nonneg; lia).
    assert (0 < gemms_at pde m * num_terms pde * N) as Hent.
    { rewrite <- Z.mul_assoc. fold M. nia. }
    do 2 rewrite new_batch_Some by (try apply Hcs; lia). simpl.
    eexists. split; [done|]. split; [|split; [|split]].
    + rewrite length_app. simpl. lia.
    + intros d o Hd Ho. destruct (decide (d = m)) as [->|Hne].
      * rewrite shape_at_app_r by lia.
        unfold operand_shape. destruct (Z.eqb_spec m 0); [lia|].
        destruct o as [|[|[|o]]]; [| | |lia]; simpl; unfold shape; simpl;
          rewrite length_replicate, <- Z.mul_assoc; done.
      * rewrite shape_at_app_l by lia. apply Hsh; [lia|done].
    + intros d Hd. destruct (decide (d = m)) as [->|Hne].
      * rewrite shape_at_app_r by lia. done.
      * rewrite shape_at_app_l by lia. apply Hsh3. lia.
    + intros d o q x. destruct (Z_lt_ge_dec d m) as [Hlt|Hge].
      * rewrite slot_app_l by lia. apply Hfree.
      * unfold slot.
        destruct ((d <? 0) || (q <? 0)); [done|].
        destruct (decide (d = m)) as [->|Hne].
        -- rewrite <- Hlen, Nat2Z.id, list_lookup_middle by done. simpl.
           apply fresh_set_free; simpl; apply replicate_None_lookup.
        -- rewrite lookup_ge_None_2; [done|].
           rewrite length_app. simpl. lia.
  - exists bs. split; [done|]. split; [|done].
    split; [lia|]. split.
    + intros d o Hd Ho. apply Hsh; [lia|done].
    + intros d Hd. apply Hsh3. lia.
Qed.

(** The assigned slots of a pointer list are counted by a window. *)
Lemma filter_window (l : list (option ptr)) (lo g : nat) :
  (lo + g ≤ length l)%nat →
  (∀ q x, l !! q = Some x → (x ≠ None ↔ (lo ≤ q < lo + g)%nat)) →
  length (filter (λ p, p ≠ None) l) = g.
Proof.
  revert lo g. induction l as [|x l IH]; intros lo g Hlen Hwin.
  - simpl in Hlen. assert (g = 0%nat) as -> by lia. done.
  - destruct lo as [|lo].
    + destruct g as [|g].
      * rewrite filter_cons_False.
        2:{ intros Hx. apply (Hwin 0%nat x) in Hx; [lia|done]. }
        apply (IH 0%nat 0%nat); [lia|].
        intros q y Hq. rewrite (Hwin (S q) y Hq). lia.
      * rewrite filter_cons_True.
        2:{ apply (Hwin 0%nat x); [done|lia]. }
        simpl. f_equal. apply (IH 0%nat g); [simpl in Hlen; lia|].
        intros q y Hq. rewrite (Hwin (S q) y Hq). lia.
    + rewrite filter_cons_False.
      2:{ intros Hx. apply (Hwin 0%nat x) in Hx; [lia|done]. }
      apply (IH lo g); [simpl in Hlen; lia|].
      intros q y Hq. rewrite (Hwin (S q) y Hq). lia.
Qed.

Section Fresh.
Context (pde : PDE) (A : list matrix_view) (x y : vector_view)
        (work : list vector_view).
Context (Hpde : pde_ok pde) (Hargs : kron_args_ok pde A x y work).

Lemma kron_operand_Some (d : Z) (o : nat) (g : Z) :
  0 ≤ d < num_dims pde → (o < 3)%nat →
  is_Some (kron_operand pde A x y work d o g).
Proof.
  intros Hd Ho. unfold kron_operand.
  destruct (A_lookup pde A x y work Hargs d Hd) as (Ad & HAd & _).
  destruct (A_lookup pde A x y work Hargs 0) as (A0 & HA0 & _);
    [destruct Hpde; lia|].
  change (Z.to_nat 0) with 0%nat in HA0.
  destruct (Z.eqb_spec d 0) as [->|Hd0].
  - destruct o as [|[|o]]; simpl.
    + rewrite HA0. by eexists.
    + by eexists.
    + destruct (Z.eqb_spec (num_dims pde) 1); [by eexists|].
      destruct (work_lookup pde A x y work Hargs 0) as (w & Hw); [lia|].
      change (Z.to_nat 0) with 0%nat in Hw. rewrite Hw. by eexists.
  - destruct (Z.eqb_spec d (num_dims pde - 1)) as [->|Hdl].
    + destruct o as [|[|o]]; simpl.
      * destruct (work_lookup pde A x y work Hargs
                    (Z.rem (num_dims pde) 2)) as (w & Hw).
        { pose proof (Z.rem_bound_pos (num_dims pde) 2).
          assert (num_dims pde = 2 → Z.rem (num_dims pde) 2 = 0)
            by (intros ->; done). lia. }
        rewrite Hw. by eexists.
      * rewrite HAd. by eexists.
      * by eexists.
    + destruct o as [|[|o]]; simpl.
      * destruct (work_lookup pde A x y work Hargs (Z.rem (d - 1) 2))
          as (w & Hw).
        { pose proof (Z.rem_bound_pos (d - 1) 2). lia. }
        rewrite Hw. by eexists.
      * rewrite HAd. by eexists.
      * destruct (work_lookup pde A x y work Hargs (Z.rem d 2))
          as (w & Hw).
        { pose proof (Z.rem_bound_pos d 2). lia. }
        rewrite Hw. by eexists.
Qed.

Lemma written_done (off d q : Z) :
  0 ≤ d < num_dims pde →
  written pde off (num_dims pde) 0 d q
  = (off * gemms_at pde d <=? q)
    && (q <? off * gemms_at pde d + gemms_at pde d).
Proof. intros Hd. unfold written. bool_lia. Qed.

(** The operand sets of a dimension after a kronmult on fresh batches. *)
Lemma dimension_after (N off : Z) (bs0 bs' : list (list batch)) (d : Z) :
  allocated pde (num_terms pde * N) bs0 → all_free bs0 →
  0 ≤ off < num_terms pde * N →
  progress pde A x y work off bs0 (num_dims pde) 0 bs' →
  0 ≤ d < num_dims pde →
  ∃ a b c, bs' !! Z.to_nat d = Some [a; b; c]
    ∧ ∀ o, (o < 3)%nat →
        shape (pick a b c o) = operand_shape pde (num_terms pde * N) d o
        ∧ assigned (pick a b c o) = Z.to_nat (gemms_at pde d)
        ∧ ∀ g, 0 ≤ g < gemms_at pde d →
            batch_ (pick a b c o) !! Z.to_nat (off * gemms_at pde d + g)
            = Some (kron_operand pde A x y work d o g).
Proof.
  intros (Hlen & Hsh & Hsh3) Hfree Hoff (L & S & Q) Hd.
  set (M := num_terms pde * N) in *.
  assert (1 ≤ gemms_at pde d) as Hg by (by apply gemms_at_pos).
  pose proof (Hsh d 0%nat Hd ltac:(lia)) as H0.
  pose proof (Hsh d 1%nat Hd ltac:(lia)) as H1.
  pose proof (Hsh d 2%nat Hd ltac:(lia)) as H2.
  pose proof (Hsh3 d Hd) as H3.
  rewrite <- S in H0, H1, H2, H3. unfold shape_at in H0, H1, H2, H3.
  destruct (Z.ltb_spec d 0); [lia|].
  destruct (bs' !! Z.to_nat d) as [set|] eqn:Hset; [|done].
  simpl in *.
  destruct set as [|a [|b [|c [|e set]]]]; simpl in *; try done.
  exists a, b, c. split; [done|].
  intros o Ho.
  assert (shape (pick a b c o) = operand_shape pde M d o) as Hshape.
  { destruct o as [|[|[|o]]]; [| | |lia]; simpl; congruence. }
  assert (∀ q, 0 ≤ q →
            batch_ (pick a b c o) !! Z.to_nat q = slot bs' d o q) as Hslot.
  { intros q Hq. unfold slot.
    destruct (Z.ltb_spec d 0); [lia|].
    destruct (Z.ltb_spec q 0); [lia|]. simpl. rewrite Hset. simpl.
    destruct o as [|[|[|o]]]; [| | |lia]; done. }
  split; [done|]. split.
  - unfold assigned.
    destruct (operand_shape_entries pde M d o) as (nr & nc & st & tr & E).
    rewrite E in Hshape. unfold shape in Hshape.
    injection Hshape as _ _ _ _ _ Hl.
    replace (Z.to_nat (gemms_at pde d))
      with (Z.to_nat (off * gemms_at pde d + gemms_at pde d)
            - Z.to_nat (off * gemms_at pde d))%nat by nia.
    apply (filter_window _ (Z.to_nat (off * gemms_at pde d))).
    + rewrite Hl. nia.
    + intros q p Hq.
      rewrite <- (Nat2Z.id q), Hslot, Q, written_done in Hq by lia.
      destruct (Z.leb_spec (off * gemms_at pde d) (Z.of_nat q));
        destruct (Z.ltb_spec (Z.of_nat q)
                    (off * gemms_at pde d + gemms_at pde d)); simpl in Hq.
      * destruct (kron_operand_Some d o
                    (Z.of_nat q - off * gemms_at pde d) Hd Ho) as [p' Hp'].
        rewrite Hp' in Hq. injection Hq as <-. split; [nia|done].
      * apply Hfree in Hq as ->. split; [done|nia].
      * apply Hfree in Hq as ->. split; [done|nia].
      * apply Hfree in Hq as ->. split; [done|nia].
  - intros g Hgg. rewrite Hslot, Q, written_done by (try done; nia).
    destruct (Z.leb_spec (off * gemms_at pde d)
                         (off * gemms_at pde d + g)); [|lia].
    destruct (Z.ltb_spec (off * gemms_at pde d + g)
                (off * gemms_at pde d + gemms_at pde d)); [|lia].
    simpl. do 2 f_equal. lia.
Qed.

(** A kronmult on freshly allocated batches runs to its end. *)
Lemma kronmult_fresh (N off : Z) :
  1 ≤ N → 0 ≤ off < num_terms pde * N →
  ∃ bs0 bs', allocate_batches pde N = Some bs0
    ∧ kronmult_to_batch_sets A x y work bs0 off pde = Some bs'
    ∧ allocated pde (num_terms pde * N) bs0 ∧ all_free bs0
    ∧ progress pde A x y work off bs0 (num_dims pde) 0 bs'.
Proof.
  intros HN Hoff.
  destruct (allocate_batches_spec pde N Hpde HN) as (bs0 & E0 & Hal & Hfr).
  destruct (kronmult_progress pde A x y work Hpde Hargs bs0 off
              (num_terms pde * N) Hal Hoff) as (bs' & E' & P').
  { intros d o q Hd Ho Hq.
    pose proof Hal as (_ & Hsh & _).
    specialize (Hsh d o Hd Ho).
    destruct (operand_shape_entries pde (num_terms pde * N) d o)
      as (nr & nc & st & tr & E).
    rewrite E in Hsh. unfold shape_at in Hsh.
    destruct (Z.ltb_spec d 0); [lia|].
    destruct (bs0 !! Z.to_nat d) as [set|] eqn:Hset; [|done]. simpl in Hsh.
    destruct (set !! o) as [b|] eqn:Hb; [|done]. simpl in Hsh.
    injection Hsh as _ _ _ _ _ Hl.
    assert (1 ≤ gemms_at pde d) by (by apply gemms_at_pos).
    destruct (lookup_lt_is_Some_2 (batch_ b) (Z.to_nat q)) as [p Hp];
      [nia|].
    assert (slot bs0 d o q = Some p) as Hs.
    { unfold slot. destruct (Z.ltb_spec d 0); [lia|].
      destruct (Z.ltb_spec q 0); [nia|]. simpl.
      rewrite Hset. simpl. rewrite Hb. done. }
    rewrite Hs. f_equal. by eapply Hfr. }
  eauto 10.
Qed.

End Fresh.

Lemma count_from (chunk : list (Z * limits)) (n : Z) :
  foldl (λ n e, n + (stop (snd e) - start (snd e) + 1)) n chunk
  = n + num_elements_in_chunk chunk.
Proof.
  unfold num_elements_in_chunk. revert n.
  induction chunk as [|e chunk IH]; intros n; simpl; [lia|].
  rewrite IH, (IH (0 + _)). lia.
Qed.

Lemma count_app (l1 l2 : list (Z * limits)) :
  num_elements_in_chunk (l1 ++ l2)
  = num_elements_in_chunk l1 + num_elements_in_chunk l2.
Proof.
  unfold num_elements_in_chunk at 1. rewrite foldl_app.
  fold (num_elements_in_chunk l1). apply count_from.
Qed.

Lemma count_cons (e : Z * limits) (l : list (Z * limits)) :
  num_elements_in_chunk (e :: l)
  = (stop (snd e) - start (snd e) + 1) + num_elements_in_chunk l.
Proof. unfold num_elements_in_chunk at 1. simpl. apply count_from. Qed.

Lemma chunk_ok_lookup (first : Z) (chunk : list (Z * limits)) (p : nat)
    (i : Z) (lim : limits) :
  chunk_ok first chunk → chunk !! p = Some (i, lim) →
  i = first + Z.of_nat p ∧ start lim ≤ stop lim.
Proof.
  revert first p. induction chunk as [|[i0 lim0] chunk IH];
    intros first p Hok Hp; [done|].
  destruct Hok as (-> & Hlim & Hok). destruct p as [|p]; simpl in Hp.
  - injection Hp as <- <-. split; [lia|done].
  - destruct (IH _ _ Hok Hp) as [-> ?]. split; [lia|done].
Qed.

Lemma chunk_ok_rows (first : Z) (chunk : list (Z * limits)) :
  chunk_ok first chunk →
  Forall (λ e, start (snd e) ≤ stop (snd e)) chunk.
Proof.
  revert first. induction chunk as [|[i0 lim0] chunk IH]; intros first Hok;
    [constructor|].
  destruct Hok as (_ & Hlim & Hok). constructor; [done|by eapply IH].
Qed.

Lemma count_nonneg (l : list (Z * limits)) :
  Forall (λ e, start (snd e) ≤ stop (snd e)) l →
  0 ≤ num_elements_in_chunk l.
Proof.
  induction 1 as [|e l He _ IH]; [done|]. rewrite count_cons. lia.
Qed.

Lemma count_take_mono (first : Z) (chunk : list (Z * limits)) (p p' : nat) :
  chunk_ok first chunk → (p ≤ p')%nat →
  num_elements_in_chunk (take p chunk)
  ≤ num_elements_in_chunk (take p' chunk).
Proof.
  intros Hok Hp. apply chunk_ok_rows in Hok.
  replace p' with (p + (p' - p))%nat by lia.
  rewrite <- take_take_drop, count_app.
  assert (0 ≤ num_elements_in_chunk (take (p' - p) (drop p chunk))) as Hn.
  { apply count_nonneg, Forall_take, Forall_drop. done. }
  lia.
Qed.

Lemma count_take_S (chunk : list (Z * limits)) (p : nat) (i : Z)
    (lim : limits) :
  chunk !! p = Some (i, lim) →
  num_elements_in_chunk (take (S p) chunk)
  = num_elements_in_chunk (take p chunk) + (stop lim - start lim + 1).
Proof.
  intros Hp. rewrite (take_S_r _ _ _ Hp), count_app, count_cons. simpl.
  change (num_elements_in_chunk []) with 0. lia.
Qed.

Lemma count_take_all (first : Z) (chunk : list (Z * limits)) (p : nat) :
  chunk_ok first chunk →
  num_elements_in_chunk (take p chunk) ≤ num_elements_in_chunk chunk.
Proof.
  intros Hok. destruct (decide (p ≤ length chunk)%nat).
  - rewrite <- (firstn_all chunk) at 2. by eapply count_take_mono.
  - rewrite take_ge by lia. done.
Qed.

Lemma chunk_at_lookup (first : Z) (chunk : list (Z * limits)) (p : nat)
    (i : Z) (lim : limits) :
  chunk_ok first chunk → chunk !! p = Some (i, lim) →
  chunk_at chunk i = Some lim.
Proof.
  unfold chunk_at. revert first p.
  induction chunk as [|[i0 lim0] chunk IH]; intros first p Hok Hp; [done|].
  pose proof (chunk_ok_lookup _ _ _ _ _ Hok Hp) as [Hi _].
  destruct Hok as (-> & Hlim & Hok). simpl.
  destruct p as [|p]; simpl in Hp.
  - injection Hp as <- <-. rewrite decide_True by done. done.
  - rewrite decide_False by (simpl; lia).
    specialize (IH _ _ Hok Hp).
    destruct (list_find (λ e, e.1 = i) chunk) as [[n e]|]; simpl in *; done.
Qed.

Lemma prev_row_elems_spec (first : Z) (chunk : list (Z * limits)) (p : nat)
    (i : Z) (lim : limits) :
  chunk_ok first chunk → chunk !! p = Some (i, lim) →
  prev_row_elems chunk i = Some (num_elements_in_chunk (take p chunk)).
Proof.
  intros Hok Hp. pose proof (chunk_ok_lookup _ _ _ _ _ Hok Hp) as [Hi _].
  unfold prev_row_elems.
  assert (∃ lim0, head chunk = Some (first, lim0)) as [lim0 ->].
  { destruct chunk as [|[i0 lim0] rest]; [done|].
    destruct Hok as (-> & _). by eexists. }
  simpl.
  destruct (Z.eqb_spec i first) as [Heq|Hne].
  { assert (p = 0%nat) as -> by lia. done. }
  destruct (foldM_seqZ_inv
              (λ prev_elems r,
                 lim ← chunk_at chunk r;
                 Some (prev_elems + (stop lim - start lim + 1)))
              (λ r acc, acc = num_elements_in_chunk
                                (take (Z.to_nat (r - first)) chunk))
              first (i - first) 0) as (acc & E & ->); [lia| | |].
  - rewrite Z.sub_diag. done.
  - intros r acc Hr ->.
    destruct (lookup_lt_is_Some_2 chunk (Z.to_nat (r - first)))
      as [[ir limr] Hq].
    { apply lookup_lt_Some in Hp. lia. }
    pose proof (chunk_ok_lookup _ _ _ _ _ Hok Hq) as [Hir _].
    assert (ir = r) as -> by lia.
    rewrite (chunk_at_lookup _ _ _ _ _ Hok Hq). simpl.
    eexists. split; [done|].
    replace (Z.to_nat (r + 1 - first)) with (S (Z.to_nat (r - first))) by lia.
    by rewrite (count_take_S _ _ _ _ Hq).
  - rewrite E. do 3 f_equal. lia.
Qed.

Lemma kron_index_spec (pde : PDE) (first : Z) (chunk : list (Z * limits))
    (p : nat) (i : Z) (lim : limits) (j k : Z) :
  chunk_ok first chunk → chunk !! p = Some (i, lim) →
  kron_index pde chunk i lim j k
  = Some (k + (num_elements_in_chunk (take p chunk) + j - start lim)
              * num_terms pde).
Proof.
  intros Hok Hp. unfold kron_index.
  by rewrite (prev_row_elems_spec _ _ _ _ _ Hok Hp).
Qed.

Lemma kron_index_injective (pde : PDE) (first : Z)
    (chunk : list (Z * limits)) (p p' : nat) (i i' : Z) (lim lim' : limits)
    (j j' k k' n : Z) :
  1 ≤ num_terms pde → chunk_ok first chunk →
  chunk !! p = Some (i, lim) → chunk !! p' = Some (i', lim') →
  start lim ≤ j ≤ stop lim → start lim' ≤ j' ≤ stop lim' →
  0 ≤ k < num_terms pde → 0 ≤ k' < num_terms pde →
  kron_index pde chunk i lim j k = Some n →
  kron_index pde chunk i' lim' j' k' = Some n →
  i = i' ∧ j = j' ∧ k = k'.
Proof.
  intros HT Hok Hp Hp' Hj Hj' Hk Hk' E E'.
  rewrite (kron_index_spec _ _ _ _ _ _ _ _ Hok Hp) in E.
  rewrite (kron_index_spec _ _ _ _ _ _ _ _ Hok Hp') in E'.
  injection E as E. injection E' as E'.
  set (a := num_elements_in_chunk (take p chunk) + j - start lim) in *.
  set (a' := num_elements_in_chunk (take p' chunk) + j' - start lim') in *.
  assert (a = a') as Ha.
  { destruct (Z_lt_le_dec a a'); [nia|].
    destruct (Z_lt_le_dec a' a); [nia|lia]. }
  assert (k = k') as -> by nia.
  pose proof (count_take_S _ _ _ _ Hp) as HS.
  pose proof (count_take_S _ _ _ _ Hp') as HS'.
  assert (p = p') as <-.
  { destruct (lt_eq_lt_dec p p') as [[Hlt|Heq]|Hgt]; [|done|].
    - pose proof (count_take_mono first chunk (S p) p' Hok ltac:(lia)).
      subst a a'. lia.
    - pose proof (count_take_mono first chunk (S p') p Hok ltac:(lia)).
      subst a a'. lia. }
  rewrite Hp in Hp'. injection Hp' as <- <-.
  subst a a'. repeat split; lia.
Qed.

Lemma coord_Some (v : list Z) (i : Z) :
  0 ≤ i < Z.of_nat (length v) → ∃ c, coord v i = Some c.
Proof.
  intros Hi. unfold coord.
  rewrite (cassert_true (i <? _)) by lia. simpl.
  rewrite (cassert_true (0 <=? i)) by lia. simpl.
  apply lookup_lt_is_Some_2. lia.
Qed.

Lemma linearize_Some (coords : list Z) (D : Z) :
  0 ≤ D → Z.of_nat (length coords) = D * 2 →
  ∃ l, linearize coords = Some l ∧ Z.of_nat (length l) = D.
Proof.
  intros HD Hlen. unfold linearize. rewrite Hlen, Z.quot_mul by lia.
  destruct (mapM_Some_lookup
              (λ i, l ← coord coords i; c ← coord coords (i + D);
                    Some (get_1d_index l c)) (seqZ 0 D))
    as (l & E & Hl & _).
  - intros i Hi%elem_of_seqZ.
    destruct (coord_Some coords i) as [a ->]; [lia|].
    destruct (coord_Some coords (i + D)) as [b ->]; [lia|]. by eexists.
  - exists l. split; [done|]. rewrite Hl, length_seqZ. lia.
Qed.

Lemma operator_position_Some (indices : list Z) (deg D : Z) :
  0 ≤ D → Z.of_nat (length indices) = D →
  ∃ l, operator_position indices deg D = Some l ∧ Z.of_nat (length l) = D.
Proof.
  intros HD Hlen. unfold operator_position.
  destruct (mapM_Some_lookup
              (λ d, e ← coord indices d; Some (e * deg)) (seqZ 0 D))
    as (l & E & Hl & _).
  - intros i Hi%elem_of_seqZ.
    destruct (coord_Some indices i) as [a ->]; [lia|]. by eexists.
  - exists l. split; [done|]. rewrite Hl, length_seqZ. lia.
Qed.

Lemma progress_build_inv (pde : PDE) A x y work (M n : Z)
    (bs bs' : list (list batch)) :
  pde_ok pde → kron_args_ok pde A x y work → 0 ≤ n →
  build_inv pde M n bs →
  progress pde A x y work n bs (num_dims pde) 0 bs' →
  build_inv pde M (n + 1) bs'.
Proof.
  intros Hpde Hargs Hn ((Hlen & Hsh & Hsh3) & Hfree & Hfull) (L & S & Q).
  split; [split; [lia|split]|split].
  - intros d o Hd Ho. rewrite S. by apply Hsh.
  - intros d Hd. rewrite S. by apply Hsh3.
  - intros d o q Hd Ho Hq. rewrite Q by done.
    assert (1 ≤ gemms_at pde d) by (by apply gemms_at_pos).
    rewrite written_done by done.
    destruct (Z.ltb_spec q (n * gemms_at pde d + gemms_at pde d)); [lia|].
    rewrite andb_false_r. apply Hfree; [done|done|nia].
  - intros d o q Hd Ho Hq. rewrite Q by done.
    rewrite written_done by done.
    destruct (Z.leb_spec (n * gemms_at pde d) q); simpl.
    + destruct (Z.ltb_spec q (n * gemms_at pde d + gemms_at pde d)); [|lia].
      destruct (kron_operand_Some pde A x y work Hpde Hargs d o
                  (q - n * gemms_at pde d) Hd Ho) as [p ->].
      eauto.
    + apply Hfull; [done|done|lia].
Qed.

Section Build.
Context (pde : PDE) (tbl : element_table) (first : Z)
        (chunk : list (Z * limits)).
Context (Hpde : pde_ok pde).
Context (Hstride : ∀ k d, 0 ≤ k < num_terms pde → 0 ≤ d < num_dims pde →
           coefficient_stride pde k d = coefficient_stride pde 0 0).
Context (Hcoords : ∀ e, Z.of_nat (length (get_coords tbl e))
                        = num_dims pde * 2).
Context (Htable : table_size tbl ≠ 0).
Context (Hok : chunk_ok first chunk).

Let D := num_dims pde.
Let T := num_terms pde.
Let deg := degree0 pde.
Let N := num_elements_in_chunk chunk.
Let M := T * N.

Lemma build_term_step (bs : list (list batch)) (p : nat) (i : Z)
    (lim : limits) (j k : Z) (row col : list Z) :
  chunk !! p = Some (i, lim) → start lim ≤ j ≤ stop lim → 0 ≤ k < T →
  Z.of_nat (length row) = D → Z.of_nat (length col) = D →
  build_inv pde M
    (k + (num_elements_in_chunk (take p chunk) + j - start lim) * T) bs →
  ∃ bs', build_term pde tbl chunk i lim row j col bs k = Some bs'
    ∧ build_inv pde M
        (k + (num_elements_in_chunk (take p chunk) + j - start lim) * T
         + 1) bs'.
Proof.
  intros Hp Hj Hk Hrow Hcol Hinv.
  pose proof Hpde as (HD & HT & Hdeg & Hcs).
  set (prev := num_elements_in_chunk (take p chunk)) in *.
  set (n := k + (prev + j - start lim) * T) in *.
  assert (0 ≤ prev) as Hprev.
  { apply count_nonneg, Forall_take. by eapply chunk_ok_rows. }
  assert (0 ≤ n < M) as Hn.
  { pose proof (count_take_S _ _ _ _ Hp) as HS.
    pose proof (count_take_all first chunk (S p) Hok) as Hall.
    fold prev in HS. fold N in Hall. subst n M. fold T in HT. nia. }
  unfold build_term.
  rewrite (prev_row_elems_spec _ _ _ _ _ Hok Hp). fold prev.
  cbv zeta. simpl.
  destruct (mapM_Some_lookup
              (λ d, r ← coord row d; c ← coord col d;
                    Some (window (coefficients k d)
                                 (coefficient_stride pde k d)
                                 r (r + degree0 pde - 1)
                                 c (c + degree0 pde - 1)))
              (reverse (seqZ 0 (num_dims pde))))
    as (ops & Eops & Lops & Hops).
  { intros d Hd%elem_of_reverse%elem_of_seqZ.
    destruct (coord_Some row d) as [r ->]; [fold D in Hd; lia|].
    destruct (coord_Some col d) as [c ->]; [fold D in Hd; lia|].
    by eexists. }
  rewrite Eops. simpl.
  rewrite (cassert_true (negb _)).
  2:{ apply negb_true_iff, Z.eqb_neq. done. }
  simpl.
  match goal with
  | |- ∃ bs', kronmult_to_batch_sets ops ?x ?y ?w bs ?off pde = Some bs' ∧ _
    => set (xv := x); set (yv := y); set (wv := w);
       assert (kron_args_ok pde ops xv yv wv) as Hargs; [subst xv yv wv|]
  end.
  { (* the arguments pass the checks of kronmult *)
    unfold kron_args_ok. simpl.
    split; [lia|]. split; [lia|].
    assert (Z.of_nat (length (replicate (Z.to_nat (Z.min (D - 1) 2))
               (subvector batch_intermediate
                  (deg ^ D * n * Z.min (D - 1) 2)
                  (deg ^ D * n * Z.min (D - 1) 2 + deg ^ D - 1))))
            = Z.min (D - 1) 2) as Hlw
      by (rewrite length_replicate; lia).
    assert (Forall (λ v, v_size v = deg ^ D)
              (replicate (Z.to_nat (Z.min (D - 1) 2))
                 (subvector batch_intermediate
                    (deg ^ D * n * Z.min (D - 1) 2)
                    (deg ^ D * n * Z.min (D - 1) 2 + deg ^ D - 1))))
      as Hfw.
    { apply Forall_replicate. simpl. lia. }
    fold D deg T. fold n.
    split; [|split].
    + destruct (Z.min (D - 1) 2 =? 2); [|done].
      rewrite length_insert. done.
    + destruct (Z.min (D - 1) 2 =? 2); [|done].
      apply Forall_insert; [done|]. simpl. lia.
    + split; [|split].
      * rewrite Lops, length_reverse, length_seqZ. lia.
      * apply Forall_lookup. intros idx m Hm.
        destruct (Hops idx m Hm) as (d & Hd & Hf).
        destruct (coord row d) as [r|]; [|done]. simpl in Hf.
        destruct (coord col d) as [c|]; [|done]. simpl in Hf.
        injection Hf as <-. simpl. fold deg. lia.
      * intros d m Hd Hm. right.
        destruct (Hops _ m Hm) as (d' & Hd' & Hf).
        apply list_elem_of_lookup_2, elem_of_reverse, elem_of_seqZ in Hd'.
        destruct (coord row d') as [r|]; [|done]. simpl in Hf.
        destruct (coord col d') as [c|]; [|done]. simpl in Hf.
        injection Hf as <-. simpl.
        rewrite (Hstride k d') by (fold T D; lia).
        rewrite (Hstride 0 d) by (fold T D; lia). done. }
  fold T. fold n.
  destruct (kronmult_progress pde ops xv yv wv Hpde Hargs bs n M)
    as (bs' & E' & P').
  - destruct Hinv. done.
  - done.
  - intros d o q Hd Ho Hq. destruct Hinv as (_ & Hfree & _).
    assert (1 ≤ gemms_at pde d) by (by apply gemms_at_pos).
    apply Hfree; [done|done|nia].
  - exists bs'. split; [done|].
    eapply progress_build_inv; [done|exact Hargs|lia|done|done].
Qed.

Lemma build_inv_eq (n n' : Z) (bs : list (list batch)) :
  n = n' → build_inv pde M n bs → build_inv pde M n' bs.
Proof. by intros ->. Qed.

Lemma build_connected_step (bs : list (list batch)) (p : nat) (i : Z)
    (lim : limits) (j : Z) (row : list Z) :
  chunk !! p = Some (i, lim) → start lim ≤ j ≤ stop lim →
  Z.of_nat (length row) = D →
  build_inv pde M
    ((num_elements_in_chunk (take p chunk) + j - start lim) * T) bs →
  ∃ bs', build_connected pde tbl chunk i lim row bs j = Some bs'
    ∧ build_inv pde M
        ((num_elements_in_chunk (take p chunk) + (j + 1) - start lim) * T)
        bs'.
Proof.
  intros Hp Hj Hrow Hinv.
  pose proof Hpde as (HD & HT & Hdeg & Hcs).
  unfold build_connected. cbv zeta.
  rewrite (cassert_true (_ =? _)) by (apply Z.eqb_eq, Hcoords). simpl.
  destruct (linearize_Some (get_coords tbl j) D) as (idx & -> & Hidx);
    [lia|apply Hcoords|]. simpl.
  destruct (operator_position_Some idx (degree0 pde) (num_dims pde)) as (col & -> & Hcol);
    [lia|done|]. simpl.
  destruct (foldM_seqZ_inv
              (build_term pde tbl chunk i lim row j col)
              (λ k bs', build_inv pde M
                 (k + (num_elements_in_chunk (take p chunk) + j
                       - start lim) * T) bs')
              0 T bs) as (bs' & E & Hinv'); [lia|done| |].
  - intros k t Hk Ht.
    destruct (build_term_step t p i lim j k row col Hp Hj ltac:(lia)
                Hrow Hcol Ht) as (t' & Et & Ht').
    exists t'. split; [done|].
    eapply build_inv_eq; [|exact Ht']. lia.
  - exists bs'. split; [done|].
    eapply build_inv_eq; [|exact Hinv']. lia.
Qed.

Lemma build_row_step (bs : list (list batch)) (p : nat) (i : Z)
    (lim : limits) :
  chunk !! p = Some (i, lim) →
  build_inv pde M (num_elements_in_chunk (take p chunk) * T) bs →
  ∃ bs', build_row pde tbl chunk bs (i, lim) = Some bs'
    ∧ build_inv pde M (num_elements_in_chunk (take (S p) chunk) * T) bs'.
Proof.
  intros Hp Hinv.
  pose proof Hpde as (HD & HT & Hdeg & Hcs).
  pose proof (chunk_ok_lookup _ _ _ _ _ Hok Hp) as [_ Hlim].
  unfold build_row. cbv zeta.
  rewrite (cassert_true (_ =? _)) by (apply Z.eqb_eq, Hcoords). simpl.
  destruct (linearize_Some (get_coords tbl i) D) as (idx & -> & Hidx);
    [lia|apply Hcoords|]. simpl.
  destruct (operator_position_Some idx (degree0 pde) (num_dims pde)) as (row & -> & Hrow);
    [lia|done|]. simpl.
  destruct (foldM_seqZ_inv
              (build_connected pde tbl chunk i lim row)
              (λ j bs', build_inv pde M
                 ((num_elements_in_chunk (take p chunk) + j
                   - start lim) * T) bs')
              (start lim) (stop lim - start lim + 1) bs)
    as (bs' & E & Hinv'); [lia| | |].
  - eapply build_inv_eq; [|exact Hinv]. lia.
  - intros j t Hj Ht.
    apply (build_connected_step t p i lim j row Hp ltac:(lia) Hrow Ht).
  - exists bs'. split; [done|].
    eapply build_inv_eq; [|exact Hinv'].
    rewrite (count_take_S _ _ _ _ Hp). lia.
Qed.

Lemma build_rows (rest : list (Z * limits)) (p : nat)
    (bs : list (list batch)) :
  drop p chunk = rest →
  build_inv pde M (num_elements_in_chunk (take p chunk) * T) bs →
  ∃ bs', foldM (build_row pde tbl chunk) rest bs = Some bs'
    ∧ build_inv pde M (N * T) bs'.
Proof.
  revert p bs. induction rest as [|[i lim] rest IH]; intros p bs Hdrop Hinv.
  - exists bs. split; [done|].
    rewrite take_ge in Hinv; [done|].
    apply drop_nil_inv in Hdrop. done.
  - assert (chunk !! p = Some (i, lim)) as Hp.
    { rewrite <- (Nat.add_0_r p), <- lookup_drop, Hdrop. done. }
    destruct (build_row_step bs p i lim Hp Hinv) as (bs1 & E1 & Hinv1).
    destruct (IH (S p) bs1) as (bs' & E' & Hinv'); [|done|].
    { rewrite (drop_S _ _ _ Hp) in Hdrop. by injection Hdrop. }
    exists bs'. split; [|done].
    change (foldM (build_row pde tbl chunk) ((i, lim) :: rest) bs)
      with (s' ← build_row pde tbl chunk bs (i, lim);
            foldM (build_row pde tbl chunk) rest s').
    rewrite E1. done.
Qed.

Lemma build_batches_runs (ws : rank_workspace) :
  chunk ≠ [] →
  Z.of_nat (length chunk) ≤ batch_input_size ws →
  deg ^ D * N * T ≤ reduction_space_size ws →
  batch_intermediate_size ws
    = reduction_space_size ws * Z.min (D - 1) 2 →
  T * max_connected_in_chunk chunk ≤ unit_vector_size ws →
  ∃ bs, build_batches pde tbl ws chunk = Some bs
        ∧ build_inv pde M (N * T) bs.
Proof.
  intros Hne H1 H2 H3 H4.
  pose proof Hpde as (HD & HT & Hdeg & Hcs).
  assert (1 ≤ N) as HN.
  { destruct chunk as [|[i lim] rest] eqn:Hc; [done|].
    subst N. rewrite count_cons. simpl.
    destruct Hok as (_ & Hlim & Hrest).
    pose proof (count_nonneg rest (chunk_ok_rows _ _ Hrest)). lia. }
  unfold build_batches. cbv zeta. fold D T deg N.
  rewrite (cassert_true (_ <=? _)) by lia. simpl.
  rewrite (cassert_true (_ <=? _)) by lia. simpl.
  rewrite (cassert_true (_ =? _)) by lia. simpl.
  rewrite (cassert_true (_ <=? _)) by lia. simpl.
  destruct (allocate_batches_spec pde N Hpde HN) as (bs0 & -> & Hal & Hfr).
  simpl. apply (build_rows chunk 0 bs0); [done|].
  split; [done|]. split.
  2:{ intros d o q Hd Ho Hq.
      change (num_elements_in_chunk (take 0 chunk)) with 0 in Hq. lia. }
  intros d o q Hd Ho Hq.
  pose proof Hal as (_ & Hsh & _).
  specialize (Hsh d o Hd Ho).
  destruct (operand_shape_entries pde (num_terms pde * N) d o)
    as (nr & nc & st & tr & E).
  rewrite E in Hsh. unfold shape_at in Hsh.
  destruct (Z.ltb_spec d 0); [lia|].
  destruct (bs0 !! Z.to_nat d) as [set|] eqn:Hset; [|done]. simpl in Hsh.
  destruct (set !! o) as [b|] eqn:Hb; [|done]. simpl in Hsh.
  injection Hsh as _ _ _ _ _ Hl.
  assert (1 ≤ gemms_at pde d) by (by apply gemms_at_pos).
  change (num_elements_in_chunk (take 0 chunk)) with 0 in Hq.
  destruct (lookup_lt_is_Some_2 (batch_ b) (Z.to_nat q)) as [x Hx].
  { rewrite Hl. subst M. fold T. nia. }
  assert (slot bs0 d o q = Some x) as Hs.
  { unfold slot. destruct (Z.ltb_spec d 0); [lia|].
    destruct (Z.ltb_spec q 0); [nia|]. simpl.
    rewrite Hset. simpl. rewrite Hb. done. }
  rewrite Hs. f_equal. by eapply Hfr.
Qed.

End Build.

Lemma build_inv_filled (pde : PDE) (M : Z) (bs : list (list batch)) :
  pde_ok pde →
  build_inv pde M M bs →
  Forall (Forall (λ b, is_filled b = true)) bs.
Proof.
  intros Hpde ((Hlen & Hsh & Hsh3) & _ & Hfull).
  apply Forall_lookup. intros d set Hset.
  assert (0 ≤ Z.of_nat d < num_dims pde) as Hd.
  { apply lookup_lt_Some in Hset. lia. }
  apply Forall_lookup. intros o b Hb.
  assert (o < 3)%nat as Ho.
  { destruct (decide (o < 3)%nat); [done|].
    specialize (Hsh3 _ Hd). unfold shape_at in Hsh3.
    destruct (Z.ltb_spec (Z.of_nat d) 0); [lia|].
    rewrite Nat2Z.id, Hset in Hsh3. simpl in Hsh3.
    destruct (lookup_lt_is_Some_2 set 3) as [b3 Hb3].
    { apply lookup_lt_Some in Hb. lia. }
    rewrite Hb3 in Hsh3. done. }
  pose proof (Hsh _ o Hd Ho) as Hshape.
  destruct (operand_shape_entries pde M (Z.of_nat d) o)
    as (nr & nc & st & tr & E).
  rewrite E in Hshape. unfold shape_at in Hshape.
  destruct (Z.ltb_spec (Z.of_nat d) 0); [lia|].
  rewrite Nat2Z.id, Hset in Hshape. simpl in Hshape.
  rewrite Hb in Hshape. simpl in Hshape.
  injection Hshape as _ _ _ _ _ Hl.
  unfold is_filled. apply forallb_forall. intros x Hx.
  apply list_elem_of_In, list_elem_of_lookup in Hx as [q Hq].
  apply bool_decide_eq_true.
  assert (1 ≤ gemms_at pde (Z.of_nat d)) by (by apply gemms_at_pos).
  destruct (Hfull (Z.of_nat d) o (Z.of_nat q) Hd Ho) as [p Hp].
  { apply lookup_lt_Some in Hq. nia. }
  unfold slot in Hp.
  destruct (Z.ltb_spec (Z.of_nat d) 0); [lia|].
  destruct (Z.ltb_spec (Z.of_nat q) 0); [lia|]. simpl in Hp.
  rewrite !Nat2Z.id, Hset in Hp. simpl in Hp. rewrite Hb in Hp.
  simpl in Hp. congruence.
Qed.

(** C1. For a chunk whose rows are consecutive from [first], the slot
    [kron_index] of a (row element, connected element, term) triple is
    defined, lies below [num_terms * num_elements_in_chunk], and is the same
    for two triples of the chunk only when the triples are the same.
    [build_batches] then runs to its end without a failed assertion, the
    write-once assertion of [assign_entry] included, and leaves every slot of
    every batch assigned. *)
Theorem build_batches_slots_unique (pde : PDE) (tbl : element_table)
    (ws : rank_workspace) (first : Z) (chunk : list (Z * limits)) :
  pde_ok pde →
  (∀ k d, 0 ≤ k < num_terms pde → 0 ≤ d < num_dims pde →
     coefficient_stride pde k d = coefficient_stride pde 0 0) →
  (∀ e, Z.of_nat (length (get_coords tbl e)) = num_dims pde * 2) →
  table_size tbl ≠ 0 →
  chunk ≠ [] → chunk_ok first chunk →
  Z.of_nat (length chunk) ≤ batch_input_size ws →
  degree0 pde ^ num_dims pde * num_elements_in_chunk chunk * num_terms pde
    ≤ reduction_space_size ws →
  batch_intermediate_size ws
    = reduction_space_size ws * Z.min (num_dims pde - 1) 2 →
  num_terms pde * max_connected_in_chunk chunk ≤ unit_vector_size ws →
  (∀ p p' i i' lim lim' j j' k k' n,
     chunk !! p = Some (i, lim) → chunk !! p' = Some (i', lim') →
     start lim ≤ j ≤ stop lim → start lim' ≤ j' ≤ stop lim' →
     0 ≤ k < num_terms pde → 0 ≤ k' < num_terms pde →
     kron_index pde chunk i lim j k = Some n →
     kron_index pde chunk i' lim' j' k' = Some n →
     i = i' ∧ j = j' ∧ k = k')
  ∧ (∀ p i lim j k,
       chunk !! p = Some (i, lim) → start lim ≤ j ≤ stop lim →
       0 ≤ k < num_terms pde →
       ∃ n, kron_index pde chunk i lim j k = Some n
            ∧ 0 ≤ n < num_terms pde * num_elements_in_chunk chunk)
  ∧ ∃ batches, build_batches pde tbl ws chunk = Some batches
               ∧ Forall (Forall (λ b, is_filled b = true)) batches.
Proof.
  intros Hpde Hstride Hcoords Htable Hne Hok H1 H2 H3 H4.
  pose proof Hpde as (HD & HT & Hdeg & Hcs).
  split; [|split].
  - intros p p' i i' lim lim' j j' k k' n Hp Hp' Hj Hj' Hk Hk' E E'.
    by eapply (kron_index_injective pde first chunk p p').
  - intros p i lim j k Hp Hj Hk.
    rewrite (kron_index_spec _ _ _ _ _ _ _ _ Hok Hp).
    eexists. split; [done|].
    assert (0 ≤ num_elements_in_chunk (take p chunk)) as Hprev.
    { apply count_nonneg, Forall_take. by eapply chunk_ok_rows. }
    pose proof (count_take_S _ _ _ _ Hp) as HS.
    pose proof (count_take_all first chunk (S p) Hok) as Hall.
    nia.
  - destruct (build_batches_runs pde tbl first chunk Hpde Hstride Hcoords
                Htable Hok ws Hne H1 H2 H3 H4) as (bs & E & Hinv).
    exists bs. split; [done|].
    apply (build_inv_filled pde
             (num_terms pde * num_elements_in_chunk chunk)); [done|].
    replace (num_terms pde * num_elements_in_chunk chunk)
      with (num_elements_in_chunk chunk * num_terms pde) at 2 by lia.
    done.
Qed.

Lemma build_batches_slots_unique_witness :
  (∀ p p' i i' lim lim' j j' k k' n,
     chunk_2 !! p = Some (i, lim) → chunk_2 !! p' = Some (i', lim') →
     start lim ≤ j ≤ stop lim → start lim' ≤ j' ≤ stop lim' →
     0 ≤ k < num_terms pde_3d_2 → 0 ≤ k' < num_terms pde_3d_2 →
     kron_index pde_3d_2 chunk_2 i lim j k = Some n →
     kron_index pde_3d_2 chunk_2 i' lim' j' k' = Some n →
     i = i' ∧ j = j' ∧ k = k')
  ∧ (∀ p i lim j k,
       chunk_2 !! p = Some (i, lim) → start lim ≤ j ≤ stop lim →
       0 ≤ k < num_terms pde_3d_2 →
       ∃ n, kron_index pde_3d_2 chunk_2 i lim j k = Some n
            ∧ 0 ≤ n < num_terms pde_3d_2 * num_elements_in_chunk chunk_2)
  ∧ ∃ batches, build_batches pde_3d_2 table_4 workspace_2 chunk_2
               = Some batches
               ∧ Forall (Forall (λ b, is_filled b = true)) batches.
Proof.
  apply (build_batches_slots_unique pde_3d_2 table_4 workspace_2 0 chunk_2).
  - repeat split; simpl; intros; lia.
  - reflexivity.
  - reflexivity.
  - simpl. lia.
  - discriminate.
  - simpl. repeat split; lia.
  - simpl. lia.
  - vm_compute. discriminate.
  - reflexivity.
  - vm_compute. discriminate.
Defined.

Lemma pde_3d_ok : pde_ok pde_3d.
Proof. repeat split; simpl; intros; lia. Qed.

Lemma args_3d_ok : kron_args_ok pde_3d A_3d x_3d y_3d work_3d.
Proof.
  repeat split; simpl; try lia; try done.
  - repeat constructor.
  - repeat constructor.
  - intros d m Hd Hm. right.
    assert (d = 0 ∨ d = 1 ∨ d = 2) as [-> | [-> | ->]] by lia;
      simpl in Hm; injection Hm as <-; done.
Qed.

(** C2, as the code has it. On freshly allocated batches, for an intermediate
    dimension [d] in [1..D-2], [kronmult_to_batch_sets] assigns
    [degree ^ (D-1-d)] slots in each of the three operand batches of
    dimension [d]; the left operand and the output are
    [degree ^ d] x [degree], the right operand is the transposed
    [degree] x [degree] operator. *)
Theorem intermediate_dimension_gemms (pde : PDE) (A : list matrix_view)
    (x y : vector_view) (work : list vector_view) (N off d : Z) :
  pde_ok pde → kron_args_ok pde A x y work →
  1 ≤ N → 0 ≤ off < num_terms pde * N →
  1 ≤ d ≤ num_dims pde - 2 →
  ∃ bs0 bs' a b c,
    allocate_batches pde N = Some bs0
    ∧ kronmult_to_batch_sets A x y work bs0 off pde = Some bs'
    ∧ bs' !! Z.to_nat d = Some [a; b; c]
    ∧ assigned a = Z.to_nat (degree0 pde ^ (num_dims pde - 1 - d))
    ∧ assigned b = Z.to_nat (degree0 pde ^ (num_dims pde - 1 - d))
    ∧ assigned c = Z.to_nat (degree0 pde ^ (num_dims pde - 1 - d))
    ∧ (nrows a, ncols a, get_trans a) = (degree0 pde ^ d, degree0 pde, false)
    ∧ (nrows b, ncols b, get_trans b) = (degree0 pde, degree0 pde, true)
    ∧ (nrows c, ncols c, get_trans c) = (degree0 pde ^ d, degree0 pde, false).
Proof.
  intros Hpde Hargs HN Hoff Hd.
  destruct (kronmult_fresh pde A x y work Hpde Hargs N off HN Hoff)
    as (bs0 & bs' & E0 & E' & Hal & Hfr & P).
  destruct (dimension_after pde A x y work Hpde Hargs N off bs0 bs' d
              Hal Hfr Hoff P) as (a & b & c & Hset & Hops); [lia|].
  exists bs0, bs', a, b, c. split; [done|]. split; [done|]. split; [done|].
  assert (gemms_at pde d = degree0 pde ^ (num_dims pde - 1 - d)) as Hg.
  { unfold gemms_at.
    destruct (Z.eqb_spec d 0), (Z.eqb_spec d (num_dims pde - 1));
      try lia. simpl. f_equal. lia. }
  destruct (Hops 0%nat) as (S0 & C0 & _); [lia|].
  destruct (Hops 1%nat) as (S1 & C1 & _); [lia|].
  destruct (Hops 2%nat) as (S2 & C2 & _); [lia|].
  simpl in *. rewrite Hg in C0, C1, C2.
  unfold operand_shape, shape in S0, S1, S2.
  destruct (Z.eqb_spec d 0); [lia|].
  injection S0 as _ -> -> _ -> _. injection S1 as _ -> -> _ -> _.
  injection S2 as _ -> -> _ -> _. done.
Qed.

Lemma intermediate_dimension_gemms_witness :
  ∃ bs0 bs' a b c,
    allocate_batches pde_3d 1 = Some bs0
    ∧ kronmult_to_batch_sets A_3d x_3d y_3d work_3d bs0 0 pde_3d = Some bs'
    ∧ bs' !! Z.to_nat 1 = Some [a; b; c]
    ∧ assigned a = Z.to_nat (degree0 pde_3d ^ (num_dims pde_3d - 1 - 1))
    ∧ assigned b = Z.to_nat (degree0 pde_3d ^ (num_dims pde_3d - 1 - 1))
    ∧ assigned c = Z.to_nat (degree0 pde_3d ^ (num_dims pde_3d - 1 - 1))
    ∧ (nrows a, ncols a, get_trans a)
      = (degree0 pde_3d ^ 1, degree0 pde_3d, false)
    ∧ (nrows b, ncols b, get_trans b) = (degree0 pde_3d, degree0 pde_3d, true)
    ∧ (nrows c, ncols c, get_trans c)
      = (degree0 pde_3d ^ 1, degree0 pde_3d, false).
Proof.
  apply (intermediate_dimension_gemms pde_3d A_3d x_3d y_3d work_3d 1 0 1).
  - exact pde_3d_ok.
  - exact args_3d_ok.
  - lia.
  - simpl. lia.
  - simpl. lia.
Defined.

(** C2 as stated fails: for three dimensions of degree 2 the batches of
    dimension 1 have 2 rows, not [degree ^ (d+1) = 4]. *)
Lemma intermediate_shape_counterexample :
  ¬ (∀ pde A x y work N off d bs0 bs' a b c,
       pde_ok pde → kron_args_ok pde A x y work →
       1 ≤ N → 0 ≤ off < num_terms pde * N →
       1 ≤ d ≤ num_dims pde - 2 →
       allocate_batches pde N = Some bs0 →
       kronmult_to_batch_sets A x y work bs0 off pde = Some bs' →
       bs' !! Z.to_nat d = Some [a; b; c] →
       (nrows a, ncols a) = (degree0 pde ^ (d + 1), degree0 pde)
       ∧ (nrows c, ncols c) = (degree0 pde ^ (d + 1), degree0 pde)).
Proof.
  intros H.
  destruct (H pde_3d A_3d x_3d y_3d work_3d 1 0 1 _ _ _ _ _
              pde_3d_ok args_3d_ok ltac:(lia) ltac:(simpl; lia)
              ltac:(simpl; lia) eq_refl eq_refl eq_refl) as [E _].
  vm_compute in E. discriminate E.
Qed.

(** C3, as the code has it. For [D >= 2], the one gemm of the highest
    dimension [D-1] reads [work[D mod 2]] and writes to [y]. *)
Theorem highest_dimension_gemm (pde : PDE) (A : list matrix_view)
    (x y : vector_view) (work : list vector_view) (N off : Z) :
  pde_ok pde → kron_args_ok pde A x y work →
  2 ≤ num_dims pde → 1 ≤ N → 0 ≤ off < num_terms pde * N →
  ∃ bs0 bs' a b c w,
    allocate_batches pde N = Some bs0
    ∧ kronmult_to_batch_sets A x y work bs0 off pde = Some bs'
    ∧ bs' !! Z.to_nat (num_dims pde - 1) = Some [a; b; c]
    ∧ assigned a = 1%nat ∧ assigned b = 1%nat ∧ assigned c = 1%nat
    ∧ work !! Z.to_nat (num_dims pde `mod` 2) = Some w
    ∧ batch_ a !! Z.to_nat off = Some (Some (v_data w))
    ∧ batch_ c !! Z.to_nat off = Some (Some (v_data y)).
Proof.
  intros Hpde Hargs HD HN Hoff.
  destruct (kronmult_fresh pde A x y work Hpde Hargs N off HN Hoff)
    as (bs0 & bs' & E0 & E' & Hal & Hfr & P).
  destruct (dimension_after pde A x y work Hpde Hargs N off bs0 bs'
              (num_dims pde - 1) Hal Hfr Hoff P)
    as (a & b & c & Hset & Hops); [lia|].
  assert (gemms_at pde (num_dims pde - 1) = 1) as Hg.
  { unfold gemms_at. by rewrite Z.eqb_refl, orb_true_r. }
  destruct (Hops 0%nat) as (_ & C0 & Q0); [lia|].
  destruct (Hops 1%nat) as (_ & C1 & _); [lia|].
  destruct (Hops 2%nat) as (_ & C2 & Q2); [lia|].
  specialize (Q0 0). specialize (Q2 0).
  rewrite Hg in *. simpl in *.
  replace (off * 1 + 0) with off in Q0, Q2 by lia.
  unfold kron_operand in Q0, Q2.
  destruct (Z.eqb_spec (num_dims pde - 1) 0); [lia|].
  rewrite Z.eqb_refl in Q0, Q2.
  rewrite Z.rem_mod_nonneg in Q0 by lia.
  destruct (work !! Z.to_nat (num_dims pde `mod` 2)) as [w|] eqn:Hw.
  - exists bs0, bs', a, b, c, w. simpl in Q0.
    repeat split; auto; try apply Q0; try apply Q2; lia.
  - destruct (kron_operand_Some pde A x y work Hpde Hargs
                (num_dims pde - 1) 0 0) as [p Hp]; [lia|lia|].
    unfold kron_operand in Hp.
    destruct (Z.eqb_spec (num_dims pde - 1) 0); [lia|].
    rewrite Z.eqb_refl, Z.rem_mod_nonneg, Hw in Hp by lia. done.
Qed.

Lemma highest_dimension_gemm_witness :
  ∃ bs0 bs' a b c w,
    allocate_batches pde_3d 1 = Some bs0
    ∧ kronmult_to_batch_sets A_3d x_3d y_3d work_3d bs0 0 pde_3d = Some bs'
    ∧ bs' !! Z.to_nat (num_dims pde_3d - 1) = Some [a; b; c]
    ∧ assigned a = 1%nat ∧ assigned b = 1%nat ∧ assigned c = 1%nat
    ∧ work_3d !! Z.to_nat (num_dims pde_3d `mod` 2) = Some w
    ∧ batch_ a !! Z.to_nat 0 = Some (Some (v_data w))
    ∧ batch_ c !! Z.to_nat 0 = Some (Some (v_data y_3d)).
Proof.
  apply (highest_dimension_gemm pde_3d A_3d x_3d y_3d work_3d 1 0).
  - exact pde_3d_ok.
  - exact args_3d_ok.
  - simpl. lia.
  - lia.
  - simpl. lia.
Defined.

(** C3 as stated fails: for three dimensions the input of the gemm of
    dimension 2 is [work[1]], not [work[(D-1) mod 2] = work[0]]. *)
Lemma highest_dimension_input_counterexample :
  ¬ (∀ pde A x y work N off bs0 bs' a b c,
       pde_ok pde → kron_args_ok pde A x y work →
       2 ≤ num_dims pde → 1 ≤ N → 0 ≤ off < num_terms pde * N →
       allocate_batches pde N = Some bs0 →
       kronmult_to_batch_sets A x y work bs0 off pde = Some bs' →
       bs' !! Z.to_nat (num_dims pde - 1) = Some [a; b; c] →
       ∃ w, work !! Z.to_nat ((num_dims pde - 1) `mod` 2) = Some w
            ∧ batch_ a !! Z.to_nat off = Some (Some (v_data w))).
Proof.
  intros H.
  destruct (H pde_3d A_3d x_3d y_3d work_3d 1 0 _ _ _ _ _
              pde_3d_ok args_3d_ok ltac:(simpl; lia) ltac:(lia)
              ltac:(simpl; lia) eq_refl eq_refl eq_refl) as (w & Hw & E).
  vm_compute in Hw. injection Hw as <-.
  vm_compute in E. discriminate E.
Qed.

Lemma pde_1d_ok : pde_ok pde_1d.
Proof. repeat split; simpl; intros; lia. Qed.

Lemma args_1d_ok : kron_args_ok pde_1d A_1d x_1d y_1d [].
Proof.
  repeat split; simpl; try lia; try done.
  - repeat constructor.
  - intros d m Hd Hm. right. assert (d = 0) as -> by lia.
    simpl in Hm. injection Hm as <-. done.
Qed.

(** C5. For [D = 1], [kronmult_to_batch_sets] assigns one slot in each of
    the three operand batches of the only batch set: the operator, [x] and,
    as output, [y] itself; the list of work vectors is empty. *)
Theorem single_dimension_gemm (pde : PDE) (A : list matrix_view)
    (x y : vector_view) (work : list vector_view) (N off : Z) :
  pde_ok pde → kron_args_ok pde A x y work →
  num_dims pde = 1 → 1 ≤ N → 0 ≤ off < num_terms pde * N →
  ∃ bs0 bs' a b c A_0,
    allocate_batches pde N = Some bs0
    ∧ kronmult_to_batch_sets A x y work bs0 off pde = Some bs'
    ∧ bs' = [[a; b; c]]
    ∧ assigned a = 1%nat ∧ assigned b = 1%nat ∧ assigned c = 1%nat
    ∧ A !! 0%nat = Some A_0
    ∧ batch_ a !! Z.to_nat off = Some (Some (m_data A_0))
    ∧ batch_ b !! Z.to_nat off = Some (Some (v_data x))
    ∧ batch_ c !! Z.to_nat off = Some (Some (v_data y))
    ∧ work = [].
Proof.
  intros Hpde Hargs HD HN Hoff.
  destruct (kronmult_fresh pde A x y work Hpde Hargs N off HN Hoff)
    as (bs0 & bs' & E0 & E' & Hal & Hfr & P).
  destruct (dimension_after pde A x y work Hpde Hargs N off bs0 bs'
              0 Hal Hfr Hoff P)
    as (a & b & c & Hset & Hops); [lia|].
  assert (gemms_at pde 0 = 1) as Hg by done.
  destruct (Hops 0%nat) as (_ & C0 & Q0); [lia|].
  destruct (Hops 1%nat) as (_ & C1 & Q1); [lia|].
  destruct (Hops 2%nat) as (_ & C2 & Q2); [lia|].
  specialize (Q0 0). specialize (Q1 0). specialize (Q2 0).
  rewrite Hg in *. simpl in *.
  replace (off * 1 + 0) with off in Q0, Q1, Q2 by lia.
  unfold kron_operand in Q0, Q1, Q2. simpl in Q0, Q1, Q2.
  rewrite HD in Q2. simpl in Q2.
  destruct (A_lookup pde A x y work Hargs 0) as (A0 & HA0 & _); [lia|].
  change (Z.to_nat 0) with 0%nat in HA0. rewrite HA0 in Q0. simpl in Q0.
  exists bs0, bs', a, b, c, A0.
  assert (length bs' = 1%nat) as Hlen.
  { destruct P as (L & _). destruct Hal as (Hl & _). lia. }
  assert (work = []) as Hwork.
  { destruct Hargs as (_ & _ & Hw & _). rewrite HD in Hw.
    destruct work; [done|simpl in Hw; lia]. }
  destruct bs' as [|set [|set' bs']]; simpl in Hlen; try lia.
  simpl in Hset. injection Hset as ->.
  repeat split; auto; first [apply Q0 | apply Q1 | apply Q2]; lia.
Qed.

Lemma single_dimension_gemm_witness :
  ∃ bs0 bs' a b c A_0,
    allocate_batches pde_1d 3 = Some bs0
    ∧ kronmult_to_batch_sets A_1d x_1d y_1d [] bs0 4 pde_1d = Some bs'
    ∧ bs' = [[a; b; c]]
    ∧ assigned a = 1%nat ∧ assigned b = 1%nat ∧ assigned c = 1%nat
    ∧ A_1d !! 0%nat = Some A_0
    ∧ batch_ a !! Z.to_nat 4 = Some (Some (m_data A_0))
    ∧ batch_ b !! Z.to_nat 4 = Some (Some (v_data x_1d))
    ∧ batch_ c !! Z.to_nat 4 = Some (Some (v_data y_1d))
    ∧ [] = @nil vector_view.
Proof.
  apply (single_dimension_gemm pde_1d A_1d x_1d y_1d [] 3 4).
  - exact pde_1d_ok.
  - exact args_1d_ok.
  - reflexivity.
  - lia.
  - simpl. lia.
Defined.

Lemma assigned_slots_fresh (pde : PDE) (A : list matrix_view)
    (x y : vector_view) (work : list vector_view) (N off : Z)
    (bs0 bs' : list (list batch)) :
  pde_ok pde → kron_args_ok pde A x y work →
  allocated pde (num_terms pde * N) bs0 → all_free bs0 →
  0 ≤ off < num_terms pde * N →
  progress pde A x y work off bs0 (num_dims pde) 0 bs' →
  assigned_slots bs'
  = (λ d, replicate 3 (Z.to_nat (gemms_at pde d))) <$> seqZ 0 (num_dims pde).
Proof.
  intros Hpde Hargs Hal Hfr Hoff P.
  assert (Z.of_nat (length bs') = num_dims pde) as Hlen.
  { destruct P as (L & _). destruct Hal as (Hl & _). lia. }
  apply list_eq. intros i. unfold assigned_slots.
  rewrite !list_lookup_fmap.
  destruct (decide (i < length bs')%nat) as [Hi|Hi].
  - destruct (dimension_after pde A x y work Hpde Hargs N off bs0 bs'
                (Z.of_nat i) Hal Hfr Hoff P)
      as (a & b & c & Hset & Hops); [lia|].
    rewrite Nat2Z.id in Hset. rewrite Hset. simpl.
    rewrite lookup_seqZ_lt by lia. simpl.
    destruct (Hops 0%nat) as (_ & C0 & _); [lia|].
    destruct (Hops 1%nat) as (_ & C1 & _); [lia|].
    destruct (Hops 2%nat) as (_ & C2 & _); [lia|].
    simpl in C0, C1, C2. rewrite C0, C1, C2. done.
  - rewrite lookup_ge_None_2 by lia.
    rewrite lookup_seqZ_ge by lia. done.
Qed.

(** C4. For six dimensions of degree 4 and one term, one call of
    [kronmult_to_batch_sets] on fresh batches assigns 1, 4^4, 4^3, 4^2, 4 and
    1 slots for the dimensions 0 to 5, 342 gemms in all, and
    [compute_batch_size] gives these counts. *)
Theorem kronmult_6d_degree4_gemm_count (pde : PDE) (A : list matrix_view)
    (x y : vector_view) (work : list vector_view) :
  pde_ok pde → kron_args_ok pde A x y work →
  num_dims pde = 6 → degree0 pde = 4 → num_terms pde = 1 →
  ∃ bs0 bs',
    allocate_batches pde 1 = Some bs0
    ∧ kronmult_to_batch_sets A x y work bs0 0 pde = Some bs'
    ∧ assigned_slots bs'
      = [[1; 1; 1]; [256; 256; 256]; [64; 64; 64]; [16; 16; 16]; [4; 4; 4];
         [1; 1; 1]]%nat
    ∧ gemms_enqueued bs' = 342%nat
    ∧ compute_batch_size 4 6 <$> [0; 1; 2; 3; 4; 5]
      = [Some 1; Some (4 ^ 4); Some (4 ^ 3); Some (4 ^ 2); Some 4; Some 1].
Proof.
  intros Hpde Hargs HD Hdeg HT.
  destruct (kronmult_fresh pde A x y work Hpde Hargs 1 0)
    as (bs0 & bs' & E0 & E' & Hal & Hfr & P); [lia|lia|].
  exists bs0, bs'. split; [done|]. split; [done|].
  pose proof (assigned_slots_fresh pde A x y work 1 0 bs0 bs' Hpde Hargs
                Hal Hfr ltac:(lia) P) as Hs.
  assert ((λ d, replicate 3 (Z.to_nat (gemms_at pde d)))
            <$> seqZ 0 (num_dims pde)
          = [[1; 1; 1]; [256; 256; 256]; [64; 64; 64]; [16; 16; 16];
             [4; 4; 4]; [1; 1; 1]]%nat) as Hv.
  { destruct pde as [D T deg cs]. simpl in *. subst. done. }
  rewrite Hv in Hs. split; [done|]. split; [|done].
  unfold assigned_slots in Hs.
  destruct bs' as [|s0 [|s1 [|s2 [|s3 [|s4 [|s5 [|s6 bs']]]]]]];
    try done.
  simpl in Hs. unfold gemms_enqueued. simpl.
  injection Hs as H0 H1 H2 H3 H4 H5.
  destruct s0 as [|? ?], s1 as [|? ?], s2 as [|? ?], s3 as [|? ?],
    s4 as [|? ?], s5 as [|? ?]; try done.
  simpl in *.
  injection H0 as -> _. injection H1 as -> _. injection H2 as -> _.
  injection H3 as -> _. injection H4 as -> _. injection H5 as -> _.
  done.
Qed.

Lemma pde_6d_ok : pde_ok pde_6d.
Proof. repeat split; simpl; intros; lia. Qed.

Lemma args_6d_ok : kron_args_ok pde_6d A_6d x_6d y_6d work_6d.
Proof.
  repeat split; simpl; try lia; try done.
  - repeat constructor.
  - repeat constructor.
  - intros d m Hd Hm. right.
    assert (d = 0 ∨ d = 1 ∨ d = 2 ∨ d = 3 ∨ d = 4 ∨ d = 5)
      as [-> | [-> | [-> | [-> | [-> | ->]]]]] by lia;
      simpl in Hm; injection Hm as <-; done.
Qed.

Lemma kronmult_6d_degree4_gemm_count_witness :
  ∃ bs0 bs',
    allocate_batches pde_6d 1 = Some bs0
    ∧ kronmult_to_batch_sets A_6d x_6d y_6d work_6d bs0 0 pde_6d = Some bs'
    ∧ assigned_slots bs'
      = [[1; 1; 1]; [256; 256; 256]; [64; 64; 64]; [16; 16; 16]; [4; 4; 4];
         [1; 1; 1]]%nat
    ∧ gemms_enqueued bs' = 342%nat
    ∧ compute_batch_size 4 6 <$> [0; 1; 2; 3; 4; 5]
      = [Some 1; Some (4 ^ 4); Some (4 ^ 3); Some (4 ^ 2); Some 4; Some 1].
Proof.
  apply (kronmult_6d_degree4_gemm_count pde_6d A_6d x_6d y_6d work_6d).
  - exact pde_6d_ok.
  - exact args_6d_ok.
  - reflexivity.
  - reflexivity.
  - reflexivity.
Defined.

Lemma get_entry_lookup (b : batch) (i : Z) :
  0 ≤ i < num_entries b → get_entry b i = batch_ b !! Z.to_nat i.
Proof.
  intros Hi. unfold get_entry.
  rewrite (cassert_true (0 <=? i)) by lia. simpl.
  rewrite (cassert_true (i <? num_entries b)) by lia. done.
Qed.

(** C6. [batched_gemm] runs exactly when its asserted preconditions hold
    (equal [num_entries], [c] not transposed, compatible shapes after
    transposition); it then issues, in slot order, one gemm for each slot
    whose three pointers are all non-null and none for the other slots. *)
Theorem batched_gemm_one_gemm_per_full_slot {P : Type} (a b c : batch)
    (alpha beta : P) :
  batch_wf a → batch_wf b → batch_wf c →
  (gemm_precondition a b c →
     batched_gemm a b c alpha beta
     = Some (omap (gemm_of_slot a b c alpha beta)
                  (seqZ 0 (num_entries a))))
  ∧ (¬ gemm_precondition a b c → batched_gemm a b c alpha beta = None)
  ∧ ∀ i, 0 ≤ i < num_entries a →
      (is_Some (gemm_of_slot a b c alpha beta i)
       ↔ (∃ pa pb pc, batch_ a !! Z.to_nat i = Some (Some pa)
                      ∧ batch_ b !! Z.to_nat i = Some (Some pb)
                      ∧ batch_ c !! Z.to_nat i = Some (Some pc))).
Proof.
  intros [Ha La] [Hb Lb] [Hc Lc]. split; [|split].
  - intros (Eab & Ebc & Htc & H1 & H2 & H3). unfold batched_gemm.
    rewrite (cassert_true (num_entries a =? num_entries b)) by lia. simpl.
    rewrite (cassert_true (num_entries b =? num_entries c)) by lia. simpl.
    rewrite Htc. simpl.
    rewrite (cassert_true (cols_op a =? rows_op b)) by lia. simpl.
    rewrite (cassert_true (nrows c =? rows_op a)) by lia. simpl.
    rewrite (cassert_true (ncols c =? cols_op b)) by lia. simpl.
    destruct (foldM_seqZ_inv (gemm_pass a b c alpha beta)
                (λ m calls, calls = omap (gemm_of_slot a b c alpha beta)
                                         (seqZ 0 m))
                0 (num_entries a) []) as (calls & E & ->); [lia|done| |done].
    intros m calls Hm ->. unfold gemm_pass.
    rewrite !get_entry_lookup by lia.
    rewrite seqZ_app, omap_app by lia.
    change (seqZ (0 + m) 1) with [m]. simpl.
    destruct (lookup_lt_is_Some_2 (batch_ a) (Z.to_nat m)) as [pa Ea]; [lia|].
    destruct (lookup_lt_is_Some_2 (batch_ b) (Z.to_nat m)) as [pb Eb]; [lia|].
    destruct (lookup_lt_is_Some_2 (batch_ c) (Z.to_nat m)) as [pc Ec]; [lia|].
    rewrite Ea, Eb, Ec.
    assert (gemm_of_slot a b c alpha beta m
            = (pa' ← pa; pb' ← pb; pc' ← pc;
               Some (GemmCall (get_trans a) (get_trans b)
                              (rows_op a) (cols_op b) (cols_op a)
                              alpha pa' (get_stride a) pb' (get_stride b)
                              beta pc' (get_stride c)))) as ->.
    { unfold gemm_of_slot. rewrite Ea, Eb, Ec. done. }
    destruct pa as [pa|], pb as [pb|], pc as [pc|]; simpl;
      rewrite ?app_nil_r; eauto.
  - intros Hn. unfold batched_gemm.
    destruct (Z.eqb_spec (num_entries a) (num_entries b)); [|done]. simpl.
    destruct (Z.eqb_spec (num_entries b) (num_entries c)); [|done]. simpl.
    destruct (get_trans c) eqn:Htc; [done|]. simpl.
    destruct (Z.eqb_spec (cols_op a) (rows_op b)); [|done]. simpl.
    destruct (Z.eqb_spec (nrows c) (rows_op a)); [|done]. simpl.
    destruct (Z.eqb_spec (ncols c) (cols_op b)); [|done]. simpl.
    destruct Hn. unfold gemm_precondition. repeat split; done.
  - intros i Hi. unfold gemm_of_slot.
    destruct (batch_ a !! Z.to_nat i) as [[pa|]|]; simpl;
      [|split; [intros [? ?]; done|intros (?&?&?&?&?); done]..].
    destruct (batch_ b !! Z.to_nat i) as [[pb|]|]; simpl;
      [|split; [intros [? ?]; done|intros (?&?&?&?&?&?); done]..].
    destruct (batch_ c !! Z.to_nat i) as [[pc|]|]; simpl;
      [|split; [intros [? ?]; done|intros (?&?&?&?&?&?); done]..].
    split; [eauto 10|by eexists].
Qed.

Lemma batched_gemm_one_gemm_per_full_slot_witness :
  batched_gemm batch_a batch_b batch_c 1 0
  = Some [GemmCall true false 4 3 2 1 (Ptr (heap 0) 0) 2
                   (Ptr (heap 1) 0) 2 0 (Ptr (heap 2) 0) 4].
Proof.
  destruct (batched_gemm_one_gemm_per_full_slot batch_a batch_b batch_c 1 0)
    as (Hrun & _ & _).
  - split; [simpl; lia|reflexivity].
  - split; [simpl; lia|reflexivity].
  - split; [simpl; lia|reflexivity].
  - rewrite Hrun; [reflexivity|]. repeat split.
Defined.

End KronmultProofs.

(** * Vectors and matrices *)

Module TensorsProofs.

Import Tensors.

Lemma SFcompare_antisym (x y : spec_float) :
  SFcompare y x = option_map CompOpp (SFcompare x y).
Proof.
  destruct x as [sx|sx| |sx mx ex], y as [sy|sy| |sy my ey]; simpl;
    try destruct sx; try destruct sy; simpl; try reflexivity.
  - rewrite (Z.compare_antisym ex ey).
    destruct (ex ?= ey) eqn:E; simpl; try reflexivity.
    pose proof (Pos.compare_cont_antisym mx my Eq) as Hc. simpl in Hc.
    rewrite <- Hc. reflexivity.
  - rewrite (Z.compare_antisym ex ey).
    destruct (ex ?= ey) eqn:E; simpl; try reflexivity.
    pose proof (Pos.compare_cont_antisym mx my Eq) as Hc. simpl in Hc.
    rewrite <- Hc. reflexivity.
Qed.

Lemma double_leb_not_gt (x y : float) :
  PrimFloat.leb x y = true → PrimFloat.ltb y x = false.
Proof.
  rewrite leb_spec, ltb_spec. unfold SFleb, SFltb.
  rewrite (SFcompare_antisym (Prim2SF x) (Prim2SF y)).
  destruct (SFcompare (Prim2SF x) (Prim2SF y)) as [[| |]|]; simpl;
    congruence.
Qed.

Lemma double_sub_self_small (x : float) :
  PrimFloat.ltb (PrimFloat.mul 0x1p-52%float 2%float)
                (PrimFloat.abs (PrimFloat.sub x x)) = false.
Proof.
  rewrite ltb_spec, abs_spec, sub_spec.
  destruct (Prim2SF x) as [s|s| |s m e]; try reflexivity.
  - destruct s; reflexivity.
  - destruct s; reflexivity.
  - unfold SF64sub, SFsub. rewrite Z.sub_diag. reflexivity.
Qed.

#[global] Instance double_laws : ScalarLaws float.
Proof.
  split.
  - apply double_sub_self_small.
  - intros x y. apply double_leb_not_gt.
  - reflexivity.
Qed.

#[global] Instance int_laws : ScalarLaws Z.
Proof.
  split.
  - intros x. simpl. by rewrite Z.eqb_refl.
  - intros x y. simpl. rewrite Z.leb_le, Z.gtb_ltb, Z.ltb_ge. lia.
  - reflexivity.
Qed.

Section TensorFacts.
Context {P : Type} `{ScalarLaws P}.

Lemma entry_differs_refl (x : P) : entry_differs x x = false.
Proof.
  unfold entry_differs. pose proof (self_equal x) as Hx.
  destruct is_floating_point; [|done].
  by destruct (sgt (sabs x) TOL && sgt (sabs x) TOL).
Qed.

Lemma entry_differs_large (x y : P) :
  is_floating_point = true → entry_differs x y = true →
  sgt (sabs x) TOL = true ∧ sgt (sabs y) TOL = true.
Proof.
  unfold entry_differs. intros ->.
  destruct (sgt (sabs x) TOL), (sgt (sabs y) TOL); simpl; done.
Qed.

Lemma entry_differs_small (x y : P) :
  is_floating_point = true →
  sle (sabs x) TOL = true ∨ sle (sabs y) TOL = true →
  entry_differs x y = false.
Proof.
  intros Hfp Hs. destruct (entry_differs x y) eqn:E; [|done].
  destruct (entry_differs_large x y Hfp E) as [Hx Hy].
  destruct Hs as [Hs|Hs]; apply sle_not_gt in Hs; congruence.
Qed.

Lemma vector_at_lookup (v : list P) (i : Z) :
  0 ≤ i < size v → vector_at v i = v !! Z.to_nat i.
Proof.
  intros Hi. unfold vector_at.
  rewrite (cassert_true (i <? size v)) by lia. simpl.
  rewrite (cassert_true (0 <=? i)) by lia. done.
Qed.

Lemma vector_eq_loop_true (a b : list P) (indices : list Z) :
  size a = size b →
  (∀ i, i ∈ indices → 0 ≤ i < size a) →
  (∀ i x y, a !! i = Some x → b !! i = Some y →
     entry_differs x y = false) →
  vector_eq_loop a b indices = Some true.
Proof.
  intros Hsz Hin Hsame.
  induction indices as [|i rest IH]; [done|]. simpl.
  assert (0 ≤ i < size a) as Hi by (apply Hin; left).
  rewrite !vector_at_lookup by lia.
  destruct (lookup_lt_is_Some_2 a (Z.to_nat i)) as [x Hx];
    [unfold size in Hi; lia|].
  destruct (lookup_lt_is_Some_2 b (Z.to_nat i)) as [y Hy];
    [unfold size in Hi, Hsz; lia|].
  rewrite Hx, Hy. simpl. rewrite (Hsame _ _ _ Hx Hy).
  apply IH. intros i' Hi'. apply Hin. by right.
Qed.

Lemma vector_eq_true (a b : list P) :
  size a = size b →
  (∀ i x y, a !! i = Some x → b !! i = Some y →
     entry_differs x y = false) →
  vector_eq false a b = Some true.
Proof.
  intros Hsz Hsame. unfold vector_eq. simpl.
  rewrite Hsz, Z.eqb_refl. simpl. rewrite <- Hsz.
  apply vector_eq_loop_true; [done| |done].
  intros i Hi%elem_of_seqZ. lia.
Qed.

Lemma matrix_at_lookup (m : matrix P) (i j : Z) :
  0 ≤ i < nrows_ m → 0 ≤ j < ncols_ m →
  matrix_at m i j = data_ m !! Z.to_nat (j * nrows_ m + i).
Proof.
  intros Hi Hj. unfold matrix_at.
  rewrite (cassert_true (_ && _)).
  2:{ apply andb_true_iff. split; apply Z.ltb_lt; lia. }
  simpl. rewrite (cassert_true (0 <=? _)) by nia. done.
Qed.

Lemma column_major_range (R C i j : Z) :
  (i, j) ∈ column_major R C → 0 ≤ i < R ∧ 0 ≤ j < C.
Proof.
  unfold column_major. intros (j' & Hi & Hj%elem_of_seqZ)%list_elem_of_bind.
  apply list_elem_of_bind in Hi as (i' & Hp & Hi'%elem_of_seqZ).
  apply list_elem_of_singleton in Hp. injection Hp as -> ->. lia.
Qed.

Lemma matrix_eq_loop_true (a b : matrix P) (indices : list (Z * Z)) :
  matrix_wf a → matrix_wf b →
  nrows_ a = nrows_ b → ncols_ a = ncols_ b →
  (∀ i j, (i, j) ∈ indices → 0 ≤ i < nrows_ a ∧ 0 ≤ j < ncols_ a) →
  (∀ k x y, data_ a !! k = Some x → data_ b !! k = Some y →
     entry_differs x y = false) →
  matrix_eq_loop a b indices = Some true.
Proof.
  intros (Ra & Ca & La) (Rb & Cb & Lb) Hr Hc Hin Hsame.
  induction indices as [|[i j] rest IH]; [done|]. simpl.
  destruct (Hin i j) as [Hi Hj]; [left|].
  rewrite !matrix_at_lookup by lia. rewrite <- Hr.
  destruct (lookup_lt_is_Some_2 (data_ a) (Z.to_nat (j * nrows_ a + i)))
    as [x Hx]; [nia|].
  destruct (lookup_lt_is_Some_2 (data_ b) (Z.to_nat (j * nrows_ a + i)))
    as [y Hy]; [nia|].
  rewrite Hx, Hy. simpl. rewrite (Hsame _ _ _ Hx Hy).
  apply IH. intros i' j' Hi'. apply Hin. by right.
Qed.

Lemma matrix_eq_true (a b : matrix P) :
  matrix_wf a → matrix_wf b →
  nrows_ a = nrows_ b → ncols_ a = ncols_ b →
  (∀ k x y, data_ a !! k = Some x → data_ b !! k = Some y →
     entry_differs x y = false) →
  matrix_eq false a b = Some true.
Proof.
  intros Ha Hb Hr Hc Hsame. unfold matrix_eq. simpl.
  rewrite Hr, Hc, !Z.eqb_refl. simpl. rewrite <- Hr, <- Hc.
  apply matrix_eq_loop_true; try done.
  intros i j Hij. by apply column_major_range.
Qed.

End TensorFacts.

Section Transpose.
Context {P : Type} `{ScalarLaws P}.

Lemma index_pair (R C i j i' j' : Z) :
  0 ≤ j < C → 0 ≤ j' < C → 0 ≤ i → 0 ≤ i' →
  i * C + j = i' * C + j' → i = i' ∧ j = j'.
Proof.
  intros Hj Hj' Hi Hi' E.
  assert (i = i') as ->.
  { destruct (Z_lt_le_dec i i'); [nia|].
    destruct (Z_lt_le_dec i' i); [nia|lia]. }
  split; [done|lia].
Qed.

Lemma transpose_spec (m : matrix P) :
  matrix_wf m → ∃ t, transpose m = Some t ∧ is_transpose m t.
Proof.
  intros (HR & HC & HL). unfold transpose. cbv zeta.
  set (R := nrows_ m) in *. set (C := ncols_ m) in *.
  set (I := λ (j0 i0 : Z) (t : matrix P),
         nrows_ t = C ∧ ncols_ t = R
         ∧ Z.of_nat (length (data_ t)) = R * C
         ∧ ∀ i j, 0 ≤ i < R → 0 ≤ j < C →
             j < j0 ∨ (j = j0 ∧ i < i0) →
             data_ t !! Z.to_nat (i * C + j)
             = data_ m !! Z.to_nat (j * R + i)).
  destruct (foldM_seqZ_inv
              (λ temp j,
                 foldM (λ temp i, v ← matrix_at m i j;
                                  matrix_set temp j i v)
                       (seqZ 0 R) temp)
              (λ j0 t, I j0 0 t) 0 C (new_matrix C R))
    as (t & E & Ht); [lia| | |].
  - unfold I, new_matrix. simpl. rewrite length_replicate.
    repeat split; lia.
  - intros j t Hj Ht.
    destruct (foldM_seqZ_inv
                (λ temp i, v ← matrix_at m i j; matrix_set temp j i v)
                (λ i0 t', I j i0 t') 0 R t) as (t' & E' & Ht');
      [lia|done| |].
    + intros i u Hi (Hr & Hc & Hl & Hu).
      rewrite matrix_at_lookup by (fold R C; lia). fold R.
      destruct (lookup_lt_is_Some_2 (data_ m) (Z.to_nat (j * R + i)))
        as [v Hv]; [nia|].
      rewrite Hv. simpl. unfold matrix_set. rewrite Hr, Hc.
      rewrite (cassert_true (_ && _)).
      2:{ apply andb_true_iff. split; apply Z.ltb_lt; lia. }
      simpl. rewrite (cassert_true (0 <=? _)) by nia. simpl.
      rewrite (cassert_true (_ <? _)) by nia. simpl.
      eexists. split; [done|]. unfold I. simpl.
      rewrite length_insert. repeat split; try done.
      intros i' j' Hi' Hj' Hdone.
      destruct (decide (i' = i ∧ j' = j)) as [[-> ->]|Hne].
      * rewrite list_lookup_insert_eq by nia. done.
      * rewrite list_lookup_insert_ne.
        2:{ intros E2. apply Hne.
            apply (index_pair R C i' j' i j); try lia. }
        apply Hu; try done. lia.
    + exists t'. split; [done|].
      destruct Ht' as (Hr & Hc & Hl & Hu).
      repeat split; try done.
      intros i' j' Hi' Hj' Hdone. apply Hu; try done. lia.
  - rewrite E. simpl. eexists. split; [done|].
    destruct Ht as (Hr & Hc & Hl & Hu).
    unfold is_transpose. simpl. fold R C.
    repeat split; try done.
    intros i j Hi Hj. apply Hu; try done. lia.
Qed.

Lemma is_transpose_wf (m t : matrix P) :
  matrix_wf m → is_transpose m t → matrix_wf t.
Proof.
  intros (HR & HC & HL) (Hr & Hc & Hl & _). unfold matrix_wf. lia.
Qed.

Lemma transpose_involutive (m t u : matrix P) :
  matrix_wf m → is_transpose m t → is_transpose t u → u = m.
Proof.
  intros (HR & HC & HL) (Hr & Hc & Hl & Ht) (Hr' & Hc' & Hl' & Hu).
  destruct m as [R C d], u as [R' C' d']. simpl in *.
  assert (R' = R) as -> by lia. assert (C' = C) as -> by lia.
  f_equal. apply list_eq. intros k.
  destruct (decide (k < length d)%nat) as [Hk|Hk].
  - assert (0 < R) as HRpos by nia.
    set (i' := Z.of_nat k `div` R). set (j' := Z.of_nat k `mod` R).
    assert (Z.of_nat k = i' * R + j') as Ek.
    { subst i' j'. rewrite Z.mul_comm. apply Z.div_mod. lia. }
    assert (0 ≤ j' < R) as Hj' by (apply Z.mod_pos_bound; lia).
    assert (0 ≤ i' < C) as Hi'.
    { split; [apply Z.div_pos; lia|].
      apply Z.div_lt_upper_bound; [lia|]. nia. }
    rewrite Hr, Hc in Hu.
    specialize (Hu i' j' ltac:(lia) ltac:(lia)).
    specialize (Ht j' i' ltac:(lia) ltac:(lia)).
    replace k with (Z.to_nat (i' * R + j')) by lia.
    rewrite Hu, Ht. done.
  - rewrite !lookup_ge_None_2 by lia. done.
Qed.

End Transpose.

(** C9. Transposing a matrix twice gives back the matrix: same dimensions,
    same elements, and [operator==] answers true for it. *)
Theorem transpose_twice_is_equal {P : Type} `{ScalarLaws P}
    (m : matrix P) (same_object : bool) :
  matrix_wf m →
  ∃ t u, transpose m = Some t ∧ transpose t = Some u
         ∧ u = m ∧ matrix_eq same_object u m = Some true.
Proof.
  intros Hm.
  destruct (transpose_spec m Hm) as (t & Et & Ht).
  pose proof (is_transpose_wf m t Hm Ht) as Htwf.
  destruct (transpose_spec t Htwf) as (u & Eu & Hu).
  pose proof (transpose_involutive m t u Hm Ht Hu) as ->.
  exists t, m. repeat split; try done.
  destruct same_object; [done|].
  apply matrix_eq_true; try done.
  intros k x y Hx Hy. rewrite Hx in Hy. injection Hy as <-.
  apply entry_differs_refl.
Qed.

Lemma transpose_twice_is_equal_witness :
  ∃ t u, transpose matrix_2x3 = Some t ∧ transpose t = Some u
         ∧ u = matrix_2x3 ∧ matrix_eq false u matrix_2x3 = Some true.
Proof.
  apply (transpose_twice_is_equal matrix_2x3 false).
  unfold matrix_wf. simpl. lia.
Defined.

(** C10. For a floating-point element type, [operator==] reports a pair of
    entries as different only when both exceed [TOL] in absolute value; two
    vectors or matrices of the same size compare equal when at each position
    one of the two entries is at most [TOL] in absolute value; the zero
    vector compares equal to every vector of its size, on either side. *)
Theorem tolerance_ignores_small_entries {P : Type} `{ScalarLaws P} :
  is_floating_point = true →
  (∀ x y : P, entry_differs x y = true →
     sgt (sabs x) TOL = true ∧ sgt (sabs y) TOL = true)
  ∧ (∀ a b : list P, size a = size b →
       (∀ i x y, a !! i = Some x → b !! i = Some y →
          sle (sabs x) TOL = true ∨ sle (sabs y) TOL = true) →
       vector_eq false a b = Some true)
  ∧ (∀ a b : matrix P, matrix_wf a → matrix_wf b →
       nrows_ a = nrows_ b → ncols_ a = ncols_ b →
       (∀ k x y, data_ a !! k = Some x → data_ b !! k = Some y →
          sle (sabs x) TOL = true ∨ sle (sabs y) TOL = true) →
       matrix_eq false a b = Some true)
  ∧ (∀ v : list P,
       vector_eq false (new_vector (size v)) v = Some true
       ∧ vector_eq false v (new_vector (size v)) = Some true).
Proof.
  intros Hfp. split; [|split; [|split]].
  - intros x y. by apply entry_differs_large.
  - intros a b Hsz Hsmall. apply vector_eq_true; [done|].
    intros i x y Hx Hy. apply entry_differs_small; [done|]. eauto.
  - intros a b Ha Hb Hr Hc Hsmall. apply matrix_eq_true; try done.
    intros k x y Hx Hy. apply entry_differs_small; [done|]. eauto.
  - intros v.
    assert (size (new_vector (size v)) = size v) as Hsz.
    { unfold new_vector, size. rewrite length_replicate. lia. }
    assert (∀ y : P, entry_differs zero y = false) as Hz.
    { intros y. unfold entry_differs. rewrite Hfp, zero_small. done. }
    assert (∀ y : P, entry_differs y zero = false) as Hz'.
    { intros y. unfold entry_differs. rewrite Hfp, zero_small.
      by rewrite andb_false_r. }
    split; apply vector_eq_true; try done.
    + intros i x y [-> _]%lookup_replicate _. apply Hz.
    + intros i x y _ [-> _]%lookup_replicate. apply Hz'.
Qed.

Lemma tolerance_ignores_small_entries_witness :
  vector_eq false (new_vector (size [1%float; nan; (-7.25)%float]))
            [1%float; nan; (-7.25)%float] = Some true.
Proof.
  exact (proj1 (proj2 (proj2 (proj2
           (tolerance_ignores_small_entries (P := float) eq_refl)))
           [1%float; nan; (-7.25)%float])).
Defined.

End TensorsProofs.

(** * Legendre polynomials *)

Module QuadratureProofs.

Import Tensors Quadrature TensorsProofs.

Lemma dcopy_spec (x : list double) (base incy : Z) (data : list double) :
  0 < incy →
  (∀ i, 0 ≤ i < size x → 0 ≤ base + i * incy < Z.of_nat (length data)) →
  ∃ data', dcopy x base incy data = Some data'
    ∧ length data' = length data
    ∧ (∀ i, 0 ≤ i < size x →
         data' !! Z.to_nat (base + i * incy) = x !! Z.to_nat i)
    ∧ ∀ k, (∀ i, 0 ≤ i < size x → k ≠ Z.to_nat (base + i * incy)) →
           data' !! k = data !! k.
Proof.
  intros Hinc Hrange. unfold dcopy.
  destruct (foldM_seqZ_inv
              (λ data i,
                 v ← x !! Z.to_nat i;
                 let k := base + i * incy in
                 cassert (0 <=? k);;
                 cassert (k <? Z.of_nat (length data));;
                 Some (<[Z.to_nat k := v]> data))
              (λ i0 d,
                 length d = length data
                 ∧ (∀ i, 0 ≤ i < i0 →
                      d !! Z.to_nat (base + i * incy) = x !! Z.to_nat i)
                 ∧ ∀ k, (∀ i, 0 ≤ i < i0 → k ≠ Z.to_nat (base + i * incy)) →
                        d !! k = data !! k)
              0 (size x) data) as (d & E & Hl & Ha & Hb).
  - unfold size. lia.
  - split; [done|]. split; [intros; lia|done].
  - intros i d Hi (Hl & Ha & Hb).
    destruct (lookup_lt_is_Some_2 x (Z.to_nat i)) as [v Hv];
      [unfold size in Hi; lia|].
    rewrite Hv. simpl.
    pose proof (Hrange i ltac:(lia)) as Hr.
    rewrite (cassert_true (0 <=? _)) by lia. simpl.
    rewrite (cassert_true (_ <? _)) by lia. simpl.
    eexists. split; [done|]. split; [by rewrite length_insert|]. split.
    + intros i' Hi'. destruct (decide (i' = i)) as [->|Hne].
      * rewrite list_lookup_insert_eq by lia. done.
      * pose proof (Hrange i' ltac:(lia)) as Hr'.
        assert (i * incy ≠ i' * incy) as Hd by nia.
        rewrite list_lookup_insert_ne by lia. apply Ha. lia.
    + intros k Hk. rewrite list_lookup_insert_ne.
      * apply Hb. intros i' Hi'. apply Hk. lia.
      * intros Ek. apply (Hk i); [lia|done].
  - exists d. split; [done|]. split; [done|]. split.
    + intros i Hi. apply Ha. lia.
    + intros k Hk. apply Hb. intros i Hi. apply Hk. lia.
Qed.

Lemma update_col_dims (m : matrix double) (R C c : Z) (v : list double) :
  has_dims m R C → size v = R → 0 ≤ c < C →
  ∃ m', update_col m c v = Some m' ∧ has_dims m' R C.
Proof.
  intros (Hr & Hc & Hl) Hv Hcol. unfold update_col.
  rewrite (cassert_true (_ =? _)) by lia. simpl.
  rewrite (cassert_true (_ <? _)) by lia. simpl.
  destruct (dcopy_spec v (c * nrows_ m + 0) 1 (data_ m))
    as (d & -> & Hd & _); [lia|nia|].
  simpl. eexists. split; [done|]. unfold has_dims. simpl. lia.
Qed.

Lemma update_row_spec (m : matrix double) (R C r : Z) (v : list double) :
  has_dims m R C → size v = C → 0 ≤ r < R →
  ∃ m', update_row m r v = Some m' ∧ has_dims m' R C
    ∧ (∀ j, 0 ≤ j < C → entry m' r j = v !! Z.to_nat j)
    ∧ ∀ i j, 0 ≤ i < R → 0 ≤ j < C → i ≠ r → entry m' i j = entry m i j.
Proof.
  intros (Hr & Hc & Hl) Hv Hrow. unfold update_row.
  rewrite (cassert_true (_ =? _)) by lia. simpl.
  rewrite (cassert_true (_ <? _)) by lia. simpl.
  destruct (dcopy_spec v (0 * nrows_ m + r) (nrows_ m) (data_ m))
    as (d & -> & Hd & Ha & Hb); [lia|nia|].
  simpl. eexists. split; [done|].
  split; [unfold has_dims; simpl; lia|]. split.
  - intros j Hj. unfold entry. simpl.
    rewrite <- Ha by lia. f_equal. lia.
  - intros i j Hi Hj Hne. unfold entry. simpl. apply Hb.
    intros j' Hj' E. apply Hne.
    assert (j * nrows_ m + i = 0 * nrows_ m + r + j' * nrows_ m) as E'
      by nia.
    assert (j = j') by (destruct (Z_lt_le_dec j j');
                        destruct (Z_lt_le_dec j' j); nia).
    nia.
Qed.

Lemma extract_dims (m : matrix double) (R C c : Z) :
  has_dims m R C → 0 ≤ R → 0 ≤ c < C →
  ∃ s, extract_submatrix m 0 c R 1 = Some s ∧ has_dims s R 1.
Proof.
  intros (Hr & Hc & Hl) HR Hcol. unfold extract_submatrix.
  rewrite !(cassert_true (0 <=? _)) by lia. simpl.
  rewrite (cassert_true (_ <=? _)) by lia. simpl.
  rewrite (cassert_true (_ <=? _)) by lia. simpl.
  apply (foldM_seqZ_inv _ (λ _ s, has_dims s R 1) 0 R); [lia| |].
  - unfold has_dims, new_matrix. simpl. rewrite length_replicate. lia.
  - intros i s Hi (Hsr & Hsc & Hsl). simpl.
    rewrite matrix_at_lookup by lia.
    match goal with
    | |- context [data_ m !! ?k] =>
        destruct (lookup_lt_is_Some_2 (data_ m) k) as [v ->]; [nia|]
    end.
    simpl. unfold matrix_set.
    rewrite (cassert_true (_ && _)).
    2:{ apply andb_true_iff. split; apply Z.ltb_lt; lia. }
    simpl. change (Z.of_nat 0 + 0) with 0. rewrite !Z.mul_0_l, !Z.add_0_l.
    rewrite (cassert_true (0 <=? _)) by lia. simpl.
    rewrite (cassert_true (_ <? _)) by lia. simpl.
    eexists. split; [done|]. unfold has_dims. simpl.
    rewrite length_insert. lia.
Qed.

Lemma extract_column_length (m : matrix double) (R C c : Z) :
  has_dims m R C → 0 ≤ R → 0 ≤ c < C →
  ∃ v, extract_column m c R = Some v ∧ size v = R.
Proof.
  intros Hm HR Hc. unfold extract_column.
  destruct (extract_dims m R C c Hm HR Hc) as (s & -> & _ & _ & Hl).
  simpl. eexists. split; [done|]. unfold column_vector, size. lia.
Qed.

Lemma size_vector_scale (a : list double) (s : double) :
  size (vector_scale a s) = size a.
Proof. unfold size, vector_scale. by rewrite length_fmap. Qed.

Lemma size_zip_with (f : double → double → double) (a b : list double) :
  size a = size b → size (zip_with f a b) = size a.
Proof. unfold size. intros E. rewrite length_zip_with. lia. Qed.

Ltac bind_step :=
  match goal with
  | |- context [Some ?x ≫= ?f] => change (Some x ≫= f) with (f x); cbv beta
  end.

Lemma multiplies_Some (a b : list double) :
  size a ≤ size b → multiplies a b = Some (zip_with PrimFloat.mul a b).
Proof.
  intros Hs. unfold multiplies. by rewrite (cassert_true (_ <=? _)) by lia.
Qed.

Lemma vector_sub_Some (a b : list double) :
  size a = size b → vector_sub a b = Some (zip_with PrimFloat.sub a b).
Proof.
  intros Hs. unfold vector_sub. by rewrite (cassert_true (_ =? _)) by lia.
Qed.

Lemma vector_add_Some (a b : list double) :
  size a = size b → vector_add a b = Some (zip_with PrimFloat.add a b).
Proof.
  intros Hs. unfold vector_add. by rewrite (cassert_true (_ =? _)) by lia.
Qed.

Section Legendre.
Context (domain : list double) (degree : Z).
Context (Hdegree : 0 ≤ degree) (Hdomain : 0 < size domain).

Let n := size domain.
Let C := Z.max 1 degree.

Lemma recurrence_pass_ok (st : recurrence) (i : Z) :
  0 ≤ i < degree - 2 → recurrence_ok n C st →
  ∃ st', recurrence_pass domain st i = Some st' ∧ recurrence_ok n C st'.
Proof.
  intros Hi (HL & HL' & Ho & Hpo & Hn1 & Hpn1).
  unfold recurrence_pass. cbv zeta.
  rewrite (multiplies_Some domain (legendre_order st)) by (fold n; lia).
  bind_step.
  rewrite vector_sub_Some.
  2:{ rewrite !size_vector_scale, size_zip_with; fold n; lia. }
  bind_step.
  match goal with
  | |- context [update_col (r_legendre st) ?c ?v] =>
      destruct (update_col_dims (r_legendre st) n C c v HL)
        as (L1 & -> & HL1)
  end.
  { rewrite size_vector_scale, size_zip_with;
      rewrite !size_vector_scale, ?size_zip_with; fold n; lia. }
  { subst C. lia. }
  bind_step.
  rewrite (multiplies_Some domain (legendre_prime_order st))
    by (fold n; lia).
  bind_step.
  rewrite vector_add_Some by (rewrite size_zip_with; fold n; lia).
  bind_step.
  rewrite vector_sub_Some.
  2:{ rewrite !size_vector_scale, !size_zip_with;
        rewrite ?size_zip_with; fold n; lia. }
  bind_step.
  match goal with
  | |- context [update_col (r_legendre_prime st) ?c ?v] =>
      destruct (update_col_dims (r_legendre_prime st) n C c v HL')
        as (L2 & -> & HL2)
  end.
  { rewrite size_vector_scale, size_zip_with;
      rewrite !size_vector_scale, ?size_zip_with;
      rewrite ?size_zip_with; fold n; lia. }
  { subst C. lia. }
  bind_step. eexists. split; [done|].
  unfold recurrence_ok.
  cbn [r_legendre r_legendre_prime legendre_order legendre_prime_order
       legendre_n_1 legendre_prime_n_1].
  repeat split; try apply HL1; try apply HL2; try done.
  - rewrite size_vector_scale, size_zip_with;
      rewrite !size_vector_scale, ?size_zip_with; fold n; lia.
  - rewrite size_vector_scale, size_zip_with;
      rewrite !size_vector_scale, ?size_zip_with;
      rewrite ?size_zip_with; fold n; lia.
Qed.

Lemma normalize_pass_ok (st : matrix double * matrix double) (i : Z) :
  0 ≤ i < degree →
  has_dims (fst st) n C ∧ has_dims (snd st) n C →
  ∃ st', normalize_pass n st i = Some st'
         ∧ has_dims (fst st') n C ∧ has_dims (snd st') n C.
Proof.
  intros Hi (HL & HL'). unfold normalize_pass. cbv zeta.
  destruct (extract_column_length (fst st) n C i HL) as (v & -> & Hv);
    [lia|subst C; lia|]. simpl.
  match goal with
  | |- context [update_col (fst st) i ?w] =>
      destruct (update_col_dims (fst st) n C i w HL) as (L1 & -> & HL1)
  end; [by rewrite size_vector_scale|subst C; lia|]. simpl.
  destruct (extract_column_length (snd st) n C i HL') as (v' & -> & Hv');
    [lia|subst C; lia|]. simpl.
  match goal with
  | |- context [update_col (snd st) i ?w] =>
      destruct (update_col_dims (snd st) n C i w HL') as (L2 & -> & HL2)
  end; [by rewrite size_vector_scale|subst C; lia|]. simpl.
  eauto.
Qed.

Lemma legendre_normalized_dims :
  ∃ st, legendre_normalized domain degree = Some st
        ∧ has_dims (fst st) n C ∧ has_dims (snd st) n C.
Proof.
  unfold legendre_normalized. cbv zeta. fold n C.
  rewrite (cassert_true (0 <=? degree)) by lia. simpl.
  rewrite (cassert_true (0 <? n)) by lia. simpl.
  assert (has_dims (new_matrix n C) n C) as H0.
  { unfold has_dims, new_matrix. simpl. rewrite length_replicate.
    subst C. nia. }
  assert (size (replicate (Z.to_nat n) 1%float) = n) as Hones.
  { unfold size. rewrite length_replicate. lia. }
  destruct (update_col_dims (new_matrix n C) n C 0 _ H0 Hones)
    as (L0 & -> & HL0); [subst C; lia|]. simpl.
  (* the columns of degree 1 *)
  assert (∃ st1,
            (if 2 <=? degree
             then legendre ← update_col L0 1 domain;
                  legendre_prime ← update_col (new_matrix n C) 1
                                     (replicate (Z.to_nat n) 1%float);
                  Some (legendre, legendre_prime)
             else Some (L0, new_matrix n C)) = Some st1
            ∧ has_dims (fst st1) n C ∧ has_dims (snd st1) n C)
    as (st1 & -> & H1 & H1').
  { destruct (Z.leb_spec 2 degree); [|eauto].
    destruct (update_col_dims L0 n C 1 domain HL0) as (L1 & -> & HL1);
      [done|subst C; lia|]. simpl.
    destruct (update_col_dims (new_matrix n C) n C 1 _ H0 Hones)
      as (L1' & -> & HL1'); [subst C; lia|]. simpl. eauto. }
  simpl.
  (* the recurrence *)
  assert (∃ st2,
            (if 3 <=? degree
             then order ← extract_column (fst st1) 1 n;
                  prime_order ← extract_column (snd st1) 1 n;
                  n_1 ← extract_column (fst st1) 0 n;
                  prime_n_1 ← extract_column (snd st1) 0 n;
                  r ← foldM (recurrence_pass domain) (seqZ 0 (degree - 2))
                            (Recurrence (fst st1) (snd st1) order
                                        prime_order n_1 prime_n_1);
                  Some (r_legendre r, r_legendre_prime r)
             else Some st1) = Some st2
            ∧ has_dims (fst st2) n C ∧ has_dims (snd st2) n C)
    as (st2 & -> & H2 & H2').
  { destruct (Z.leb_spec 3 degree); [|eauto].
    destruct (extract_column_length (fst st1) n C 1 H1) as (o & -> & Ho);
      [lia|subst C; lia|]. simpl.
    destruct (extract_column_length (snd st1) n C 1 H1') as (po & -> & Hpo);
      [lia|subst C; lia|]. simpl.
    destruct (extract_column_length (fst st1) n C 0 H1) as (n1 & -> & Hn1);
      [lia|subst C; lia|]. simpl.
    destruct (extract_column_length (snd st1) n C 0 H1')
      as (pn1 & -> & Hpn1); [lia|subst C; lia|]. simpl.
    destruct (foldM_seqZ_inv (recurrence_pass domain)
                (λ _ st, recurrence_ok n C st) 0 (degree - 2)
                (Recurrence (fst st1) (snd st1) o po n1 pn1))
      as (r & -> & Hr); [lia| | |].
    - split; [exact H1|]. split; [exact H1'|]. done.
    - intros i st Hi Hst. by apply recurrence_pass_ok.
    - simpl. destruct Hr as (? & ? & _). eauto. }
  simpl.
  apply (foldM_seqZ_inv (normalize_pass n)
           (λ _ st, has_dims (fst st) n C ∧ has_dims (snd st) n C)
           0 degree st2); [lia|done|].
  intros i st Hi Hst. apply normalize_pass_ok; [lia|done].
Qed.

End Legendre.

Lemma find_spec (v : list double) (pred : double → bool) (i : Z) :
  i ∈ find v pred
  ↔ 0 ≤ i ∧ ∃ x, v !! Z.to_nat i = Some x ∧ pred x = true.
Proof.
  unfold find. rewrite list_elem_of_omap. split.
  - intros ([k x] & Hin & Hf). simpl in Hf.
    destruct (pred x) eqn:Hp; [|done]. injection Hf as ->.
    apply list_elem_of_lookup in Hin as [idx Hidx].
    apply lookup_zip_with_Some in Hidx as (k' & x' & E & Hk & Hx).
    injection E as Ek Ex. subst k' x'.
    apply lookup_seqZ in Hk as [-> Hlt].
    split; [lia|]. exists x.
    replace (Z.to_nat (0 + Z.of_nat idx)) with idx by lia. done.
  - intros (Hi & x & Hx & Hp). exists (i, x). simpl. rewrite Hp.
    split; [|done].
    apply list_elem_of_lookup. exists (Z.to_nat i).
    apply lookup_zip_with_Some. exists i, x. split; [done|].
    split; [|done]. apply lookup_seqZ. apply lookup_lt_Some in Hx.
    unfold size. lia.
Qed.

Lemma zero_loop (degree n : Z) (l : list Z)
    (st : matrix double * matrix double) :
  (∀ i, i ∈ l → 0 ≤ i < n) →
  has_dims (fst st) n (Z.max 1 degree) →
  has_dims (snd st) n (Z.max 1 degree) →
  ∃ st', foldM (zero_pass degree) l st = Some st'
    ∧ has_dims (fst st') n (Z.max 1 degree)
    ∧ has_dims (snd st') n (Z.max 1 degree)
    ∧ ∀ i j, 0 ≤ i < n → 0 ≤ j < Z.max 1 degree →
        entry (fst st') i j
        = (if decide (i ∈ l) then Some 0%float else entry (fst st) i j)
        ∧ entry (snd st') i j
          = (if decide (i ∈ l) then Some 0%float else entry (snd st) i j).
Proof.
  revert st. induction l as [|r l IH]; intros st Hin H1 H2.
  - exists st. split; [done|]. split; [done|]. split; [done|].
    intros i j _ _. rewrite decide_False by apply not_elem_of_nil. done.
  - assert (0 ≤ r < n) as Hr by (apply Hin; left).
    assert (size (replicate (Z.to_nat (Z.max degree 1)) 0%float)
            = Z.max 1 degree) as Hz.
    { unfold size. rewrite length_replicate. lia. }
    destruct (update_row_spec (fst st) n (Z.max 1 degree) r _ H1 Hz Hr)
      as (L1 & E1 & HL1 & Hrow1 & Hoth1).
    destruct (update_row_spec (snd st) n (Z.max 1 degree) r _ H2 Hz Hr)
      as (L2 & E2 & HL2 & Hrow2 & Hoth2).
    destruct (IH (L1, L2)) as (st' & E' & H1' & H2' & Hent); try done.
    { intros i Hi. apply Hin. by right. }
    exists st'. split.
    { change (foldM (zero_pass degree) (r :: l) st)
        with (s' ← zero_pass degree st r; foldM (zero_pass degree) l s').
      assert (zero_pass degree st r = Some (L1, L2)) as ->; [|done].
      unfold zero_pass. cbv zeta. rewrite E1. bind_step.
      rewrite E2. done. }
    split; [done|]. split; [done|].
    intros i j Hi Hj. destruct (Hent i j Hi Hj) as [Ea Eb].
    rewrite Ea, Eb. simpl.
    destruct (decide (i ∈ l)) as [Hl|Hl].
    + rewrite !decide_True by (by apply list_elem_of_further). done.
    + destruct (decide (i = r)) as [->|Hne].
      * rewrite !decide_True by apply list_elem_of_here.
        rewrite Hrow1, Hrow2 by done.
        rewrite lookup_replicate_2 by lia. done.
      * rewrite !decide_False by (by intros [?|?]%elem_of_cons).
        rewrite Hoth1, Hoth2 by done. done.
Qed.

Lemma entry_matrix_scale (m : matrix double) (s : double) (i j : Z) :
  entry (matrix_scale m s) i j = (λ v, PrimFloat.mul v s) <$> entry m i j.
Proof. unfold entry, matrix_scale. simpl. by rewrite list_lookup_fmap. Qed.

Lemma in_range_not_out (x : double) :
  PrimFloat.leb (-1)%float x = true → PrimFloat.leb x 1%float = true →
  out_of_range x = false.
Proof.
  intros H1 H2. unfold out_of_range.
  by rewrite (double_leb_not_gt _ _ H1), (double_leb_not_gt _ _ H2).
Qed.

(** C7, as the code has it. [legendre] returns two matrices with one row
    per domain point and [max 1 degree] columns. The row of a point strictly
    outside [-1, 1] is zero in both. The row of a point inside is the
    normalized row times [sqrt 2] when [degree > 0], and the normalized row
    itself when [degree = 0]. *)
Theorem legendre_zero_rows_and_scaling (domain : list double) (degree : Z) :
  0 ≤ degree → 0 < size domain →
  ∃ L L' N N',
    legendre domain degree = Some (L, L')
    ∧ legendre_normalized domain degree = Some (N, N')
    ∧ has_dims L (size domain) (Z.max 1 degree)
    ∧ has_dims L' (size domain) (Z.max 1 degree)
    ∧ ∀ i x j, 0 ≤ i → domain !! Z.to_nat i = Some x →
        0 ≤ j < Z.max 1 degree →
        (out_of_range x = true →
           entry L i j = Some 0%float ∧ entry L' i j = Some 0%float)
        ∧ (PrimFloat.leb (-1)%float x = true →
           PrimFloat.leb x 1%float = true →
           if 0 <? degree
           then entry L i j = (λ v, PrimFloat.mul v sqrt_2) <$> entry N i j
                ∧ entry L' i j
                  = (λ v, PrimFloat.mul v sqrt_2) <$> entry N' i j
           else entry L i j = entry N i j ∧ entry L' i j = entry N' i j).
Proof.
  intros Hdeg Hdom.
  destruct (legendre_normalized_dims domain degree Hdeg Hdom)
    as ([N N'] & EN & HN & HN'). simpl in HN, HN'.
  destruct (zero_loop degree (size domain) (find domain out_of_range)
              (N, N')) as ([Z1 Z2] & EZ & HZ1 & HZ2 & Hent); try done.
  { intros i (Hi & x & Hx & _)%find_spec.
    apply lookup_lt_Some in Hx. unfold size. lia. }
  simpl in HZ1, HZ2, Hent.
  assert (∀ i x, 0 ≤ i → domain !! Z.to_nat i = Some x →
            (i ∈ find domain out_of_range ↔ out_of_range x = true))
    as Hfind.
  { intros i x Hi Hx. rewrite find_spec. split.
    - intros (_ & x' & Hx' & Hp). congruence.
    - intros Hp. eauto. }
  unfold legendre. rewrite EN. bind_step. rewrite EZ. bind_step.
  destruct (Z.ltb_spec 0 degree) as [Hpos|Hzero].
  - exists (matrix_scale Z1 sqrt_2), (matrix_scale Z2 sqrt_2), N, N'.
    split; [done|]. split; [done|].
    split.
    { destruct HZ1 as (? & ? & ?). unfold has_dims, matrix_scale. simpl.
      rewrite length_fmap. done. }
    split.
    { destruct HZ2 as (? & ? & ?). unfold has_dims, matrix_scale. simpl.
      rewrite length_fmap. done. }
    intros i x j Hi Hx Hj.
    assert (0 ≤ i < size domain) as Hi'.
    { apply lookup_lt_Some in Hx. unfold size. lia. }
    destruct (Hent i j Hi' Hj) as [Ea Eb].
    rewrite !entry_matrix_scale, Ea, Eb. split.
    + intros Hout. rewrite !decide_True by (by apply (Hfind i x)).
      split; reflexivity.
    + intros H1 H2.
      rewrite !decide_False
        by (rewrite (Hfind i x) by done; by rewrite in_range_not_out).
      done.
  - exists Z1, Z2, N, N'.
    split; [done|]. split; [done|]. split; [done|]. split; [done|].
    intros i x j Hi Hx Hj.
    assert (0 ≤ i < size domain) as Hi'.
    { apply lookup_lt_Some in Hx. unfold size. lia. }
    destruct (Hent i j Hi' Hj) as [Ea Eb].
    rewrite Ea, Eb. split.
    + intros Hout. rewrite !decide_True by (by apply (Hfind i x)).
      split; reflexivity.
    + intros H1 H2.
      rewrite !decide_False
        by (rewrite (Hfind i x) by done; by rewrite in_range_not_out).
      done.
Qed.

Lemma legendre_zero_rows_and_scaling_witness :
  ∃ L L' N N',
    legendre [0.5%float; 2%float; (-1.5)%float] 3 = Some (L, L')
    ∧ legendre_normalized [0.5%float; 2%float; (-1.5)%float] 3
      = Some (N, N')
    ∧ has_dims L (size [0.5%float; 2%float; (-1.5)%float]) (Z.max 1 3)
    ∧ has_dims L' (size [0.5%float; 2%float; (-1.5)%float]) (Z.max 1 3)
    ∧ ∀ i x j, 0 ≤ i →
        [0.5%float; 2%float; (-1.5)%float] !! Z.to_nat i = Some x →
        0 ≤ j < Z.max 1 3 →
        (out_of_range x = true →
           entry L i j = Some 0%float ∧ entry L' i j = Some 0%float)
        ∧ (PrimFloat.leb (-1)%float x = true →
           PrimFloat.leb x 1%float = true →
           if 0 <? 3
           then entry L i j = (λ v, PrimFloat.mul v sqrt_2) <$> entry N i j
                ∧ entry L' i j
                  = (λ v, PrimFloat.mul v sqrt_2) <$> entry N' i j
           else entry L i j = entry N i j ∧ entry L' i j = entry N' i j).
Proof.
  apply (legendre_zero_rows_and_scaling [0.5%float; 2%float; (-1.5)%float] 3).
  - lia.
  - reflexivity.
Defined.

(** C7 as stated fails for degree 0: the row of an in-range point is not
    scaled by [sqrt 2]. *)
Lemma legendre_degree_zero_counterexample :
  ¬ (∀ domain degree L L' N N' i x j,
       0 ≤ degree → 0 < size domain →
       legendre domain degree = Some (L, L') →
       legendre_normalized domain degree = Some (N, N') →
       0 ≤ i → domain !! Z.to_nat i = Some x → 0 ≤ j < Z.max 1 degree →
       PrimFloat.leb (-1)%float x = true →
       PrimFloat.leb x 1%float = true →
       entry L i j = (λ v, PrimFloat.mul v sqrt_2) <$> entry N i j).
Proof.
  intros Hall.
  specialize (Hall [0.5%float] 0 _ _ _ _ 0 0.5%float 0
                ltac:(lia) eq_refl eq_refl eq_refl ltac:(lia) eq_refl
                ltac:(lia) eq_refl eq_refl).
  apply (f_equal (λ o, match o with
                       | Some v => PrimFloat.ltb v 1.25%float
                       | None => false
                       end)) in Hall.
  vm_compute in Hall. discriminate Hall.
Qed.

End QuadratureProofs.

(** * The PDE factory *)

Module FactoryProofs.

Import Factory.

(** C8, as the code has it. For each of the vlasov choices [make_PDE]
    returns a [PDE_continuity_1d] and raises no error. *)
Theorem vlasov_choices_make_continuity_1d (choice : PDE_opts)
    (level degree : Z) :
  is_vlasov choice = true →
  make_PDE choice level degree = made PDE_continuity_1d level degree
  ∧ is_configuration_error (make_PDE choice level degree) = false.
Proof. destruct choice; simpl; intros Hv; try discriminate Hv; done. Qed.

Lemma vlasov_choices_make_continuity_1d_witness :
  make_PDE vlasov4 (-1) (-1) = made PDE_continuity_1d (-1) (-1)
  ∧ is_configuration_error (make_PDE vlasov4 (-1) (-1)) = false.
Proof.
  apply (vlasov_choices_make_continuity_1d vlasov4 (-1) (-1)). reflexivity.
Defined.

(** C8 as stated fails: [make_PDE vlasov4] is no configuration error. *)
Lemma vlasov_choice_is_no_error_counterexample :
  ¬ (∀ choice level degree,
       is_vlasov choice = true →
       is_configuration_error (make_PDE choice level degree) = true).
Proof.
  intros Hall. specialize (Hall vlasov4 (-1) (-1) eq_refl).
  discriminate Hall.
Qed.

Lemma make_PDE_error_only_off_enumeration (choice level degree : Z) :
  is_configuration_error (make_PDE_raw choice level degree) = true
  ↔ PDE_opts_of_int choice = None.
Proof.
  unfold make_PDE_raw. destruct (PDE_opts_of_int choice) as [c|]; [|done].
  split; [|done]. by destruct c.
Qed.

End FactoryProofs.

(** * Batches: entries, comparison, copy and gemv *)

Module BatchOpsProofs.

Import Views Batch Kronmult BatchOps KronmultProofs.

Lemma cassert_Some (b : bool) (u : unit) : cassert b = Some u → b = true.
Proof. by destruct b. Qed.

Lemma assign_entry_inv (a : matrix_view) (pos : Z) (b b' : batch) :
  assign_entry a pos b = Some b' →
  m_nrows a = nrows b ∧ m_ncols a = ncols b
  ∧ (get_stride b = 1 ∨ m_stride a = get_stride b)
  ∧ 0 ≤ pos < num_entries b
  ∧ batch_ b !! Z.to_nat pos = Some None
  ∧ b' = MkBatch (num_entries b) (nrows b) (ncols b) (get_stride b)
                 (get_trans b)
                 (<[Z.to_nat pos := Some (m_data a)]> (batch_ b)).
Proof.
  unfold assign_entry. intros E.
  destruct (Z.eqb_spec (m_nrows a) (nrows b)); [|done]. simpl in E.
  destruct (Z.eqb_spec (m_ncols a) (ncols b)); [|done]. simpl in E.
  assert (get_stride b = 1 ∨ m_stride a = get_stride b) as Hs.
  { destruct (Z.eqb_spec (get_stride b) 1); [by left|].
    destruct (Z.eqb_spec (m_stride a) (get_stride b)); [by right|done]. }
  assert ((if get_stride b =? 1 then Some ()
           else cassert (m_stride a =? get_stride b)) = Some ()) as Es.
  { destruct Hs as [-> | ->]; [done|].
    destruct (get_stride b =? 1); [done|]. by rewrite Z.eqb_refl. }
  rewrite Es in E. simpl in E.
  destruct (Z.leb_spec 0 pos); [|done]. simpl in E.
  destruct (Z.ltb_spec pos (num_entries b)); [|done]. simpl in E.
  destruct (batch_ b !! Z.to_nat pos) as [old|] eqn:Eo; [|done].
  simpl in E. destruct old as [p|]; [done|]. simpl in E.
  injection E as <-. repeat split; try done; lia.
Qed.

Lemma assigned_insert (l : list (option ptr)) (n : nat) (p : ptr) :
  l !! n = Some None →
  length (filter (λ q, q ≠ None) (<[n := Some p]> l))
  = S (length (filter (λ q, q ≠ None) l)).
Proof.
  intros Hn. pose proof (lookup_lt_Some _ _ _ Hn) as Hlt.
  rewrite insert_take_drop by done.
  rewrite <- (take_drop_middle l n None Hn) at 3.
  rewrite !filter_app, !length_app.
  rewrite filter_cons_True by done.
  rewrite filter_cons_False by (intros Hx; by apply Hx).
  simpl. lia.
Qed.

(** X1. Reading a slot back after [assign_entry]: the slot holds the view's data
    pointer, every other slot and the shape of the batch are as before, and
    one more slot is assigned. *)
Theorem assign_entry_get_entry (a : matrix_view) (pos : Z) (b b' : batch) :
  batch_wf b → assign_entry a pos b = Some b' →
  batch_wf b'
  ∧ shape b' = shape b
  ∧ get_entry b' pos = Some (Some (m_data a))
  ∧ (∀ q, q ≠ pos → get_entry b' q = get_entry b q)
  ∧ assigned b' = S (assigned b).
Proof.
  intros [Hn Hl] E.
  destruct (assign_entry_inv _ _ _ _ E) as (_ & _ & _ & Hp & Ho & ->).
  assert (Z.to_nat pos < length (batch_ b))%nat as Hlt by lia.
  repeat split.
  - done.
  - simpl. by rewrite length_insert.
  - unfold shape. simpl. by rewrite length_insert.
  - rewrite get_entry_lookup by (simpl; lia). simpl.
    by rewrite list_lookup_insert_eq.
  - intros q Hq. unfold get_entry. simpl.
    destruct (Z.leb_spec 0 q); [|done]. simpl.
    destruct (Z.ltb_spec q (num_entries b)); [|done]. simpl.
    rewrite list_lookup_insert_ne by lia. done.
  - unfold assigned. simpl. by apply assigned_insert.
Qed.

Lemma assign_entry_get_entry_witness :
  ∃ b', assign_entry (MatrixView (Ptr (heap 0) 8) 2 4 2) 1 batch_a = Some b'
        ∧ get_entry b' 1 = Some (Some (Ptr (heap 0) 8))
        ∧ assigned b' = 3%nat.
Proof.
  eexists. split; [reflexivity|].
  destruct (assign_entry_get_entry (MatrixView (Ptr (heap 0) 8) 2 4 2) 1
              batch_a _ ltac:(split; [simpl; lia|reflexivity]) eq_refl)
    as (_ & _ & Hg & _ & Ha).
  split; [exact Hg|exact Ha].
Defined.

(** X2. [assign_entry] cannot overwrite: once a position is assigned, assigning
    it again aborts, whatever the view. *)
Theorem assign_entry_write_once (a a' : matrix_view) (pos : Z)
    (b b' : batch) :
  batch_wf b → assign_entry a pos b = Some b' →
  assign_entry a' pos b' = None.
Proof.
  intros [Hn Hl] E.
  destruct (assign_entry_inv _ _ _ _ E) as (_ & _ & _ & Hp & Ho & ->).
  unfold assign_entry. simpl.
  destruct (cassert (m_nrows a' =? nrows b)); [|done]. simpl.
  destruct (cassert (m_ncols a' =? ncols b)); [|done]. simpl.
  destruct (if get_stride b =? 1 then Some ()
            else cassert (m_stride a' =? get_stride b)); [|done]. simpl.
  destruct (cassert (0 <=? pos)); [|done]. simpl.
  destruct (cassert (pos <? num_entries b)); [|done]. simpl.
  rewrite list_lookup_insert_eq by lia. done.
Qed.

Lemma assign_entry_write_once_witness :
  assign_entry (MatrixView (Ptr (heap 5) 0) 2 4 2) 1
    (MkBatch 3 2 4 2 true
       [Some (Ptr (heap 0) 0); Some (Ptr (heap 0) 8);
        Some (Ptr (heap 0) 16)])
  = None.
Proof.
  apply (assign_entry_write_once
           (MatrixView (Ptr (heap 0) 8) 2 4 2) _ 1 batch_a).
  - split; [simpl; lia|reflexivity].
  - reflexivity.
Defined.

(** X3. [clear_entry] undoes [assign_entry]: it gives back the batch as it was
    and reports that a pointer was there; on a null slot it changes nothing
    and reports that none was. *)
Theorem clear_entry_undoes_assign_entry (a : matrix_view) (pos : Z)
    (b b' : batch) :
  batch_wf b →
  (assign_entry a pos b = Some b' → clear_entry pos b' = Some (b, true))
  ∧ (get_entry b pos = Some None → clear_entry pos b = Some (b, false)).
Proof.
  intros [Hn Hl]. split.
  - intros E.
    destruct (assign_entry_inv _ _ _ _ E) as (_ & _ & _ & Hp & Ho & ->).
    unfold clear_entry. simpl.
    rewrite (cassert_true (0 <=? pos)) by lia. simpl.
    rewrite list_lookup_insert_eq by lia. simpl.
    rewrite list_insert_insert_eq, list_insert_id by done.
    by destruct b.
  - unfold get_entry, clear_entry. intros E.
    destruct (Z.leb_spec 0 pos); [|done]. simpl in *.
    destruct (Z.ltb_spec pos (num_entries b)); [|done]. simpl in *.
    rewrite E. simpl. rewrite list_insert_id by done. by destruct b.
Qed.

Lemma clear_entry_undoes_assign_entry_witness :
  clear_entry 1
    (MkBatch 3 2 4 2 true
       [Some (Ptr (heap 0) 0); Some (Ptr (heap 0) 8);
        Some (Ptr (heap 0) 16)])
  = Some (batch_a, true).
Proof.
  apply (clear_entry_undoes_assign_entry
           (MatrixView (Ptr (heap 0) 8) 2 4 2) 1 batch_a).
  - split; [simpl; lia|reflexivity].
  - reflexivity.
Defined.

Lemma filter_all_None (l : list (option ptr)) :
  filter (λ q, q ≠ None) ((λ _ : option ptr, @None ptr) <$> l) = [].
Proof.
  induction l as [|x l IH]; [done|]. simpl.
  rewrite filter_cons_False by (intros Hx; by apply Hx). done.
Qed.

(** X4. After [clear_all] no slot is assigned, so a batch with at least one
    entry is not filled, and every position can be assigned again with any
    view of the batch's shape. *)
Theorem clear_all_frees_every_slot (b : batch) :
  batch_wf b → 0 < num_entries b →
  shape (clear_all b) = shape b
  ∧ assigned (clear_all b) = 0%nat
  ∧ is_filled (clear_all b) = false
  ∧ ∀ a pos, m_nrows a = nrows b → m_ncols a = ncols b →
      get_stride b = 1 ∨ m_stride a = get_stride b →
      0 ≤ pos < num_entries b →
      ∃ b', assign_entry a pos (clear_all b) = Some b'
            ∧ get_entry b' pos = Some (Some (m_data a)).
Proof.
  intros [Hn Hl] Hpos. repeat split.
  - unfold shape. simpl. by rewrite length_fmap.
  - unfold assigned. simpl. by rewrite filter_all_None.
  - unfold is_filled. simpl.
    destruct (batch_ b) as [|p l] eqn:E; [simpl in Hl; lia|]. done.
  - intros a pos H1 H2 H3 H4.
    assert (batch_ (clear_all b) !! Z.to_nat pos = Some None) as Hnull.
    { simpl. rewrite list_lookup_fmap.
      destruct (lookup_lt_is_Some_2 (batch_ b) (Z.to_nat pos)) as [p Ep];
        [lia|]. by rewrite Ep. }
    rewrite (assign_entry_Some a pos (clear_all b)) by done.
    eexists. split; [done|].
    rewrite get_entry_lookup by (simpl; lia). simpl.
    rewrite list_lookup_insert_eq; [done|]. rewrite length_fmap. lia.
Qed.

Lemma clear_all_frees_every_slot_witness :
  shape (clear_all batch_b) = shape batch_b
  ∧ assigned (clear_all batch_b) = 0%nat
  ∧ is_filled (clear_all batch_b) = false
  ∧ ∀ a pos, m_nrows a = nrows batch_b → m_ncols a = ncols batch_b →
      get_stride batch_b = 1 ∨ m_stride a = get_stride batch_b →
      0 ≤ pos < num_entries batch_b →
      ∃ b', assign_entry a pos (clear_all batch_b) = Some b'
            ∧ get_entry b' pos = Some (Some (m_data a)).
Proof.
  apply (clear_all_frees_every_slot batch_b).
  - split; [simpl; lia|reflexivity].
  - simpl. lia.
Defined.

Lemma batch_eq_loop_spec (a b : batch) (l : list Z) :
  (∀ i, i ∈ l → 0 ≤ i < Z.of_nat (length (batch_ a))
                ∧ i < Z.of_nat (length (batch_ b))) →
  ∃ r, batch_eq_loop a b l = Some r
       ∧ (r = true ↔ ∀ i, i ∈ l →
                     batch_ a !! Z.to_nat i = batch_ b !! Z.to_nat i).
Proof.
  induction l as [|i l IH]; intros Hl.
  - exists true. split; [done|]. split; [|done]. intros _ i Hi.
    by apply elem_of_nil in Hi.
  - destruct (Hl i) as [Hi Hi']; [apply list_elem_of_here|].
    destruct (lookup_lt_is_Some_2 (batch_ a) (Z.to_nat i)) as [p Ep]; [lia|].
    destruct (lookup_lt_is_Some_2 (batch_ b) (Z.to_nat i)) as [q Eq]; [lia|].
    simpl. unfold raw_at.
    destruct (Z.ltb_spec i 0); [lia|]. rewrite Ep, Eq. simpl.
    destruct (decide (p ≠ q)) as [Hne|He].
    + rewrite bool_decide_eq_true_2 by done. exists false.
      split; [done|]. split; [done|]. intros Hall.
      specialize (Hall i (list_elem_of_here _ _)). congruence.
    + rewrite bool_decide_eq_false_2 by done.
      destruct IH as (r & Er & Hr).
      { intros k Hk. apply Hl. by apply list_elem_of_further. }
      exists r. split; [done|]. rewrite Hr. split.
      * intros Hall k Hk. apply elem_of_cons in Hk as [-> | Hk]; [|eauto].
        rewrite Ep, Eq. f_equal. by destruct (decide (p = q)).
      * intros Hall k Hk. apply Hall. by apply list_elem_of_further.
Qed.

Lemma batch_eq_spec (a b : batch) :
  batch_wf a → batch_wf b →
  ∃ r, batch_eq a b = Some r ∧ (r = true ↔ a = b).
Proof.
  intros [Ha La] [Hb Lb]. unfold batch_eq.
  destruct (Z.eqb_spec (nrows a) (nrows b)) as [E1|N1]; simpl;
    [|exists false; split; [done|]; split; [done|]; intros ->; done].
  destruct (Z.eqb_spec (ncols a) (ncols b)) as [E2|N2]; simpl;
    [|exists false; split; [done|]; split; [done|]; intros ->; done].
  destruct (Z.eqb_spec (get_stride a) (get_stride b)) as [E3|N3]; simpl;
    [|exists false; split; [done|]; split; [done|]; intros ->; done].
  destruct (Z.eqb_spec (num_entries a) (num_entries b)) as [E4|N4]; simpl;
    [|exists false; split; [done|]; split; [done|]; intros ->; done].
  destruct (Bool.eqb_spec (get_trans a) (get_trans b)) as [E5|N5]; simpl;
    [|exists false; split; [done|]; split; [done|]; intros ->; done].
  destruct (batch_eq_loop_spec a b (seqZ 0 (num_entries a)))
    as (r & Er & Hr).
  { intros i Hi. apply elem_of_seqZ in Hi. lia. }
  exists r. split; [done|]. rewrite Hr. split.
  - intros Hall. destruct a, b. simpl in *. subst. f_equal.
    apply list_eq. intros k.
    destruct (decide (k < length batch_0)%nat) as [Hk|Hk].
    + specialize (Hall (Z.of_nat k)). rewrite Nat2Z.id in Hall.
      apply Hall. apply elem_of_seqZ. lia.
    + rewrite !lookup_ge_None_2 by lia. done.
  - by intros ->.
Qed.

(** X5. [operator==] on batches decides equality: it answers true exactly when
    the two batches have the same shape and the same pointer in every
    slot. *)
Theorem batch_eq_decides_equality (a b : batch) :
  batch_wf a → batch_wf b →
  ∃ r, batch_eq a b = Some r ∧ (r = true ↔ a = b).
Proof. apply batch_eq_spec. Qed.

Lemma batch_eq_decides_equality_witness :
  ∃ r, batch_eq batch_a batch_b = Some r ∧ (r = true ↔ batch_a = batch_b).
Proof.
  apply (batch_eq_decides_equality batch_a batch_b);
    (split; [simpl; lia|reflexivity]).
Defined.

(** X6. Copy assignment between two batches aborts unless they have the same
    number of entries, dimensions, stride and transposition; when they do,
    the target becomes the source and compares equal to it. *)
Theorem batch_copy_assign_gives_equal_batch (this other : batch) :
  batch_wf this → batch_wf other →
  (num_entries this = num_entries other ∧ nrows this = nrows other
   ∧ ncols this = ncols other ∧ get_stride this = get_stride other
   ∧ get_trans this = get_trans other →
   batch_copy_assign false this other = Some other
   ∧ batch_eq other other = Some true)
  ∧ (¬ (num_entries this = num_entries other ∧ nrows this = nrows other
        ∧ ncols this = ncols other ∧ get_stride this = get_stride other
        ∧ get_trans this = get_trans other) →
     batch_copy_assign false this other = None).
Proof.
  intros [Ht Lt] [Ho Lo]. split.
  - intros (E1 & E2 & E3 & E4 & E5). split.
    + unfold batch_copy_assign. rewrite E1, E2, E3, E4, E5.
      rewrite !Z.eqb_refl, Bool.eqb_reflx. simpl.
      unfold memcpy.
      rewrite (cassert_true (0 <=? num_entries other)) by lia. simpl.
      rewrite (cassert_true (num_entries other <=? _)) by lia. simpl.
      rewrite (cassert_true (num_entries other <=? _)) by lia. simpl.
      rewrite <- Lo, firstn_all. rewrite drop_ge by lia.
      rewrite app_nil_r. by destruct other.
    + destruct (batch_eq_spec other other) as (r & Er & Hr); [done..|].
      rewrite Er. f_equal. by apply Hr.
  - intros Hn. unfold batch_copy_assign.
    destruct (Z.eqb_spec (num_entries this) (num_entries other)); [|done].
    destruct (Z.eqb_spec (nrows this) (nrows other)); [|done].
    destruct (Z.eqb_spec (ncols this) (ncols other)); [|done].
    destruct (Z.eqb_spec (get_stride this) (get_stride other)); [|done].
    destruct (Bool.eqb_spec (get_trans this) (get_trans other)); [|done].
    destruct Hn. done.
Qed.

Lemma batch_copy_assign_gives_equal_batch_witness :
  batch_copy_assign false (clear_all batch_a) batch_a = Some batch_a
  ∧ batch_eq batch_a batch_a = Some true.
Proof.
  apply (batch_copy_assign_gives_equal_batch (clear_all batch_a) batch_a).
  - split; [simpl; lia|reflexivity].
  - split; [simpl; lia|reflexivity].
  - repeat split.
Defined.

(** X7. [batched_gemv] runs exactly when its assertions hold (equal
    [num_entries], neither [b] nor [c] transposed, as many columns of
    [op(a)] as rows of [b], one column in [b] and in [c]); it then issues,
    in slot order, one gemv for each slot whose three pointers are all
    non-null. The row count of [c] is not looked at. *)
Theorem batched_gemv_one_gemv_per_full_slot {P : Type} (a b c : batch)
    (alpha beta : P) :
  batch_wf a → batch_wf b → batch_wf c →
  (gemv_precondition a b c →
     batched_gemv a b c alpha beta
     = Some (omap (gemv_of_slot a b c alpha beta)
                  (seqZ 0 (num_entries a))))
  ∧ (¬ gemv_precondition a b c → batched_gemv a b c alpha beta = None)
  ∧ (∀ i, 0 ≤ i < num_entries a →
      (is_Some (gemv_of_slot a b c alpha beta i)
       ↔ (∃ pa pb pc, batch_ a !! Z.to_nat i = Some (Some pa)
                      ∧ batch_ b !! Z.to_nat i = Some (Some pb)
                      ∧ batch_ c !! Z.to_nat i = Some (Some pc))))
  ∧ ∀ r, batched_gemv a b (with_nrows c r) alpha beta
         = batched_gemv a b c alpha beta.
Proof.
  intros [Ha La] [Hb Lb] [Hc Lc]. split; [|split; [|split]].
  - intros (Eab & Ebc & Htb & Htc & H1 & H2 & H3). unfold batched_gemv.
    rewrite (cassert_true (num_entries a =? num_entries b)) by lia. simpl.
    rewrite (cassert_true (num_entries b =? num_entries c)) by lia. simpl.
    rewrite Htb, Htc. simpl.
    rewrite (cassert_true (cols_op a =? nrows b)) by lia. simpl.
    rewrite (cassert_true (ncols b =? 1)) by lia. simpl.
    rewrite (cassert_true (ncols c =? 1)) by lia. simpl.
    destruct (foldM_seqZ_inv (gemv_pass a b c alpha beta)
                (λ m calls, calls = omap (gemv_of_slot a b c alpha beta)
                                         (seqZ 0 m))
                0 (num_entries a) []) as (calls & E & ->); [lia|done| |done].
    intros m calls Hm ->. unfold gemv_pass.
    rewrite !get_entry_lookup by lia.
    rewrite seqZ_app, omap_app by lia.
    change (seqZ (0 + m) 1) with [m]. simpl.
    destruct (lookup_lt_is_Some_2 (batch_ a) (Z.to_nat m)) as [pa Ea]; [lia|].
    destruct (lookup_lt_is_Some_2 (batch_ b) (Z.to_nat m)) as [pb Eb]; [lia|].
    destruct (lookup_lt_is_Some_2 (batch_ c) (Z.to_nat m)) as [pc Ec]; [lia|].
    rewrite Ea, Eb, Ec.
    assert (gemv_of_slot a b c alpha beta m
            = (pa' ← pa; pb' ← pb; pc' ← pc;
               Some (GemvCall (get_trans a) (rows_op a) (cols_op a)
                              alpha pa' (get_stride a) pb' (get_stride b)
                              beta pc' (get_stride c)))) as ->.
    { unfold gemv_of_slot. rewrite Ea, Eb, Ec. done. }
    destruct pa as [pa|], pb as [pb|], pc as [pc|]; simpl;
      rewrite ?app_nil_r; eauto.
  - intros Hn. unfold batched_gemv.
    destruct (Z.eqb_spec (num_entries a) (num_entries b)); [|done]. simpl.
    destruct (Z.eqb_spec (num_entries b) (num_entries c)); [|done]. simpl.
    destruct (get_trans b) eqn:Htb; [done|]. simpl.
    destruct (get_trans c) eqn:Htc; [done|]. simpl.
    destruct (Z.eqb_spec (cols_op a) (nrows b)); [|done]. simpl.
    destruct (Z.eqb_spec (ncols b) 1); [|done]. simpl.
    destruct (Z.eqb_spec (ncols c) 1); [|done]. simpl.
    destruct Hn. unfold gemv_precondition. repeat split; done.
  - intros i Hi. unfold gemv_of_slot.
    destruct (batch_ a !! Z.to_nat i) as [[pa|]|]; simpl;
      [|split; [intros [? ?]; done|intros (?&?&?&?&?); done]..].
    destruct (batch_ b !! Z.to_nat i) as [[pb|]|]; simpl;
      [|split; [intros [? ?]; done|intros (?&?&?&?&?&?); done]..].
    destruct (batch_ c !! Z.to_nat i) as [[pc|]|]; simpl;
      [|split; [intros [? ?]; done|intros (?&?&?&?&?&?); done]..].
    split; [eauto 10|by eexists].
  - intros r. reflexivity.
Qed.

Lemma batched_gemv_one_gemv_per_full_slot_witness :
  batched_gemv batch_a batch_gv batch_gv 1 0
  = Some [GemvCall true 4 2 1 (Ptr (heap 0) 0) 2 (Ptr (heap 3) 0) 2
                   0 (Ptr (heap 3) 0) 2].
Proof.
  destruct (batched_gemv_one_gemv_per_full_slot batch_a batch_gv batch_gv
              1 0) as (Hrun & _).
  - split; [simpl; lia|reflexivity].
  - split; [simpl; lia|reflexivity].
  - split; [simpl; lia|reflexivity].
  - rewrite Hrun; [reflexivity|]. repeat split.
Defined.

End BatchOpsProofs.

(** * Allocation of the batches and the gemms of a chunk *)

Module ScheduleProofs.

Import Views Batch Kronmult KronmultProofs.



Lemma allocated_set (pde : PDE) (M : Z) (bs : list (list batch)) (d : Z) :
  allocated pde M bs → 0 ≤ d < num_dims pde →
  ∃ a b c, bs !! Z.to_nat d = Some [a; b; c]
    ∧ (∀ o, (o < 3)%nat →
         shape (pick a b c o) = operand_shape pde M d o)
    ∧ ∀ o q, (o < 3)%nat → 0 ≤ q →
        batch_ (pick a b c o) !! Z.to_nat q = slot bs d o q.
Proof.
  intros (Hlen & Hsh & Hsh3) Hd.
  pose proof (Hsh d 0%nat Hd ltac:(lia)) as H0.
  pose proof (Hsh d 1%nat Hd ltac:(lia)) as H1.
  pose proof (Hsh d 2%nat Hd ltac:(lia)) as H2.
  pose proof (Hsh3 d Hd) as H3.
  unfold shape_at in H0, H1, H2, H3.
  destruct (Z.ltb_spec d 0); [lia|].
  destruct (bs !! Z.to_nat d) as [set|] eqn:Hset; [|done].
  simpl in *.
  destruct set as [|a [|b [|c [|e set]]]]; simpl in *; try done.
  exists a, b, c. split; [done|]. split.
  - intros o Ho. destruct o as [|[|[|o]]]; [| | |lia]; simpl; congruence.
  - intros o q Ho Hq. unfold slot.
    destruct (Z.ltb_spec d 0); [lia|].
    destruct (Z.ltb_spec q 0); [lia|]. simpl. rewrite Hset. simpl.
    destruct o as [|[|[|o]]]; [| | |lia]; done.
Qed.

Lemma operand_shapes_fit (pde : PDE) (M d : Z) (a b c : batch) :
  pde_ok pde → 1 ≤ M → 0 ≤ d < num_dims pde →
  (∀ o, (o < 3)%nat → shape (pick a b c o) = operand_shape pde M d o) →
  batch_wf a ∧ batch_wf b ∧ batch_wf c
  ∧ num_entries a = gemms_at pde d * M
  ∧ gemm_precondition a b c.
Proof.
  intros Hpde HM Hd Hsh.
  pose proof (gemms_at_pos pde d Hpde Hd) as Hg.
  pose proof (Hsh 0%nat ltac:(lia)) as H0.
  pose proof (Hsh 1%nat ltac:(lia)) as H1.
  pose proof (Hsh 2%nat ltac:(lia)) as H2.
  destruct a, b, c.
  unfold shape, operand_shape in H0, H1, H2. simpl in H0, H1, H2.
  unfold batch_wf, gemm_precondition, rows_op, cols_op. simpl.
  destruct (Z.eqb_spec d 0) as [->|Hd0];
    injection H0 as ? ? ? ? ? ?;
    injection H1 as ? ? ? ? ? ?;
    injection H2 as ? ? ? ? ? ?; subst;
    repeat split; try done; nia.
Qed.

Lemma batched_gemm_runs {P : Type} (a b c : batch) (alpha beta : P) :
  batch_wf a → batch_wf b → batch_wf c → gemm_precondition a b c →
  batched_gemm a b c alpha beta
  = Some (omap (gemm_of_slot a b c alpha beta) (seqZ 0 (num_entries a))).
Proof.
  intros [Ha La] [Hb Lb] [Hc Lc] (Eab & Ebc & Htc & H1 & H2 & H3).
  unfold batched_gemm.
  rewrite (cassert_true (num_entries a =? num_entries b)) by lia. simpl.
  rewrite (cassert_true (num_entries b =? num_entries c)) by lia. simpl.
  rewrite Htc. simpl.
  rewrite (cassert_true (cols_op a =? rows_op b)) by lia. simpl.
  rewrite (cassert_true (nrows c =? rows_op a)) by lia. simpl.
  rewrite (cassert_true (ncols c =? cols_op b)) by lia. simpl.
  destruct (foldM_seqZ_inv (gemm_pass a b c alpha beta)
              (λ m calls, calls = omap (gemm_of_slot a b c alpha beta)
                                       (seqZ 0 m))
              0 (num_entries a) []) as (calls & E & ->); [lia|done| |done].
  intros m calls Hm ->. unfold gemm_pass.
  rewrite !get_entry_lookup by lia.
  rewrite seqZ_app, omap_app by lia.
  change (seqZ (0 + m) 1) with [m]. simpl.
  destruct (lookup_lt_is_Some_2 (batch_ a) (Z.to_nat m)) as [pa Ea]; [lia|].
  destruct (lookup_lt_is_Some_2 (batch_ b) (Z.to_nat m)) as [pb Eb]; [lia|].
  destruct (lookup_lt_is_Some_2 (batch_ c) (Z.to_nat m)) as [pc Ec]; [lia|].
  rewrite Ea, Eb, Ec.
  assert (gemm_of_slot a b c alpha beta m
          = (pa' ← pa; pb' ← pb; pc' ← pc;
             Some (GemmCall (get_trans a) (get_trans b)
                            (rows_op a) (cols_op b) (cols_op a)
                            alpha pa' (get_stride a) pb' (get_stride b)
                            beta pc' (get_stride c)))) as ->.
  { unfold gemm_of_slot. rewrite Ea, Eb, Ec. done. }
  destruct pa as [pa|], pb as [pb|], pc as [pc|]; simpl;
    rewrite ?app_nil_r; eauto.
Qed.

Lemma omap_all_None {A B : Type} (f : A → option B) (l : list A) :
  (∀ x, x ∈ l → f x = None) → omap f l = [].
Proof.
  induction l as [|x l IH]; intros Hl; [done|]. simpl.
  rewrite (Hl x) by apply list_elem_of_here.
  apply IH. intros y Hy. apply Hl. by apply list_elem_of_further.
Qed.

Lemma omap_all_Some {A B : Type} (f : A → option B) (l : list A) :
  (∀ x, x ∈ l → is_Some (f x)) → length (omap f l) = length l.
Proof.
  induction l as [|x l IH]; intros Hl; [done|]. simpl.
  destruct (Hl x) as [y ->]; [apply list_elem_of_here|]. simpl. f_equal.
  apply IH. intros z Hz. apply Hl. by apply list_elem_of_further.
Qed.

(** X9. [allocate_batches] returns one operand set per dimension; the three
    batches of a set have [compute_batch_size * num_terms * num_elems]
    entries, all null, and shapes that pass the assertions of
    [batched_gemm], which on such a fresh set issues no gemm. *)
Theorem allocate_batches_fits_batched_gemm {P : Type} (pde : PDE) (N : Z)
    (alpha beta : P) :
  pde_ok pde → 1 ≤ N →
  ∃ bs, allocate_batches pde N = Some bs
    ∧ Z.of_nat (length bs) = num_dims pde
    ∧ ∀ d, 0 ≤ d < num_dims pde →
        ∃ a b c n, bs !! Z.to_nat d = Some [a; b; c]
          ∧ compute_batch_size (degree0 pde) (num_dims pde) d = Some n
          ∧ num_entries a = n * num_terms pde * N
          ∧ gemm_precondition a b c
          ∧ assigned a = 0%nat ∧ assigned b = 0%nat ∧ assigned c = 0%nat
          ∧ batched_gemm a b c alpha beta = Some [].
Proof.
  intros Hpde HN.
  destruct (allocate_batches_spec pde N Hpde HN) as (bs & E & Hal & Hfree).
  exists bs. split; [done|]. split; [apply Hal|].
  intros d Hd.
  destruct (allocated_set pde _ bs d Hal Hd) as (a & b & c & Hset & Hsh & Hsl).
  assert (1 ≤ num_terms pde * N) as HM by (destruct Hpde as (_ & ? & _); nia).
  destruct (operand_shapes_fit pde _ d a b c Hpde HM Hd Hsh)
    as (Wa & Wb & Wc & Hne & Hpre).
  exists a, b, c, (gemms_at pde d). split; [done|].
  split; [by apply compute_batch_size_Some|].
  split; [lia|]. split; [done|].
  assert (∀ o, (o < 3)%nat → ∀ q x,
            batch_ (pick a b c o) !! q = Some x → x = None) as Hnull.
  { intros o Ho q x Hq. apply (Hfree d o (Z.of_nat q)).
    rewrite <- Hsl by lia. by rewrite Nat2Z.id. }
  assert (∀ o, (o < 3)%nat → assigned (pick a b c o) = 0%nat) as Has.
  { intros o Ho. unfold assigned.
    destruct (filter (λ p, p ≠ None) (batch_ (pick a b c o)))
      as [|p l] eqn:Ef; [done|].
    assert (p ∈ filter (λ p, p ≠ None) (batch_ (pick a b c o))) as Hp.
    { rewrite Ef. apply list_elem_of_here. }
    apply list_elem_of_filter in Hp as [Hp1 Hp2].
    apply list_elem_of_lookup in Hp2 as [q Hq].
    by rewrite (Hnull o Ho q p Hq) in Hp1. }
  split; [apply (Has 0%nat); lia|].
  split; [apply (Has 1%nat); lia|].
  split; [apply (Has 2%nat); lia|].
  rewrite batched_gemm_runs by done. f_equal.
  apply omap_all_None. intros i Hi. unfold gemm_of_slot.
  destruct (batch_ a !! Z.to_nat i) as [x|] eqn:Ex; [|done].
  rewrite (Hnull 0%nat ltac:(lia) _ _ Ex). done.
Qed.

Lemma allocate_batches_fits_batched_gemm_witness :
  ∃ bs, allocate_batches pde_3d 1 = Some bs
    ∧ Z.of_nat (length bs) = num_dims pde_3d
    ∧ ∀ d, 0 ≤ d < num_dims pde_3d →
        ∃ a b c n, bs !! Z.to_nat d = Some [a; b; c]
          ∧ compute_batch_size (degree0 pde_3d) (num_dims pde_3d) d = Some n
          ∧ num_entries a = n * num_terms pde_3d * 1
          ∧ gemm_precondition a b c
          ∧ assigned a = 0%nat ∧ assigned b = 0%nat ∧ assigned c = 0%nat
          ∧ batched_gemm a b c 1 0 = Some [].
Proof.
  apply (allocate_batches_fits_batched_gemm pde_3d 1 1 0).
  - exact pde_3d_ok.
  - lia.
Defined.

Lemma chunk_count_pos (first : Z) (chunk : list (Z * limits)) :
  chunk ≠ [] → chunk_ok first chunk → 1 ≤ num_elements_in_chunk chunk.
Proof.
  intros Hne Hok. destruct chunk as [|[i lim] rest]; [done|].
  rewrite count_cons. simpl.
  destruct Hok as (_ & Hlim & Hrest).
  pose proof (count_nonneg rest (chunk_ok_rows _ _ Hrest)). lia.
Qed.

(** X10. After [build_batches] the operand set of every dimension passes the
    assertions of [batched_gemm], and since every slot is assigned the call
    issues as many gemms as the set has entries:
    [compute_batch_size * num_terms * num_elements_in_chunk]. *)
Theorem build_batches_then_batched_gemm {P : Type} (pde : PDE)
    (tbl : element_table) (ws : rank_workspace) (first : Z)
    (chunk : list (Z * limits)) (alpha beta : P) :
  pde_ok pde →
  (∀ k d, 0 ≤ k < num_terms pde → 0 ≤ d < num_dims pde →
     coefficient_stride pde k d = coefficient_stride pde 0 0) →
  (∀ e, Z.of_nat (length (get_coords tbl e)) = num_dims pde * 2) →
  table_size tbl ≠ 0 →
  chunk ≠ [] → chunk_ok first chunk →
  Z.of_nat (length chunk) ≤ batch_input_size ws →
  degree0 pde ^ num_dims pde * num_elements_in_chunk chunk * num_terms pde
    ≤ reduction_space_size ws →
  batch_intermediate_size ws
    = reduction_space_size ws * Z.min (num_dims pde - 1) 2 →
  num_terms pde * max_connected_in_chunk chunk ≤ unit_vector_size ws →
  ∃ batches, build_batches pde tbl ws chunk = Some batches
    ∧ Z.of_nat (length batches) = num_dims pde
    ∧ ∀ d, 0 ≤ d < num_dims pde →
        ∃ a b c n calls,
          batches !! Z.to_nat d = Some [a; b; c]
          ∧ compute_batch_size (degree0 pde) (num_dims pde) d = Some n
          ∧ batched_gemm a b c alpha beta = Some calls
          ∧ Z.of_nat (length calls)
            = n * num_terms pde * num_elements_in_chunk chunk.
Proof.
  intros Hpde Hstride Hcoords Htable Hne Hok H1 H2 H3 H4.
  destruct (build_batches_runs pde tbl first chunk Hpde Hstride Hcoords
              Htable Hok ws Hne H1 H2 H3 H4) as (bs & E & Hinv).
  destruct Hinv as (Hal & _ & Hfull).
  pose proof (chunk_count_pos first chunk Hne Hok) as HN.
  assert (1 ≤ num_terms pde * num_elements_in_chunk chunk) as HM.
  { destruct Hpde as (_ & ? & _). nia. }
  exists bs. split; [done|]. split; [apply Hal|].
  intros d Hd.
  destruct (allocated_set pde _ bs d Hal Hd) as (a & b & c & Hset & Hsh & Hsl).
  destruct (operand_shapes_fit pde _ d a b c Hpde HM Hd Hsh)
    as (Wa & Wb & Wc & Hna & Hpre).
  pose proof Hpre as (Eab & Ebc & _).
  exists a, b, c, (gemms_at pde d),
    (omap (gemm_of_slot a b c alpha beta) (seqZ 0 (num_entries a))).
  split; [done|].
  split; [by apply compute_batch_size_Some|].
  split; [by apply batched_gemm_runs|].
  rewrite omap_all_Some.
  - rewrite length_seqZ, Z2Nat.id by (destruct Wa; lia). rewrite Hna. ring.
  - intros i Hi. apply elem_of_seqZ in Hi.
    assert (∀ o, (o < 3)%nat →
              ∃ p, batch_ (pick a b c o) !! Z.to_nat i = Some (Some p)) as Hp.
    { intros o Ho. rewrite Hsl by lia. apply Hfull; [done..|]. nia. }
    destruct (Hp 0%nat ltac:(lia)) as [pa Ea].
    destruct (Hp 1%nat ltac:(lia)) as [pb Eb].
    destruct (Hp 2%nat ltac:(lia)) as [pc Ec].
    simpl in Ea, Eb, Ec. unfold gemm_of_slot. rewrite Ea, Eb, Ec. by eexists.
Qed.

Lemma build_batches_then_batched_gemm_witness :
  ∃ batches, build_batches pde_3d_2 table_4 workspace_2 chunk_2 = Some batches
    ∧ Z.of_nat (length batches) = num_dims pde_3d_2
    ∧ ∀ d, 0 ≤ d < num_dims pde_3d_2 →
        ∃ a b c n calls,
          batches !! Z.to_nat d = Some [a; b; c]
          ∧ compute_batch_size (degree0 pde_3d_2) (num_dims pde_3d_2) d
            = Some n
          ∧ batched_gemm a b c 1 0 = Some calls
          ∧ Z.of_nat (length calls)
            = n * num_terms pde_3d_2 * num_elements_in_chunk chunk_2.
Proof.
  apply (build_batches_then_batched_gemm pde_3d_2 table_4 workspace_2 0
           chunk_2 1 0).
  - repeat split; simpl; intros; lia.
  - reflexivity.
  - reflexivity.
  - simpl. lia.
  - discriminate.
  - simpl. lia.
  - simpl. lia.
  - vm_compute. discriminate.
  - reflexivity.
  - vm_compute. discriminate.
Defined.

Lemma fresh_window_free (pde : PDE) (M : Z) (bs : list (list batch))
    (off : Z) :
  pde_ok pde → allocated pde M bs → all_free bs → 0 ≤ off < M →
  ∀ d o q, 0 ≤ d < num_dims pde → (o < 3)%nat →
    off * gemms_at pde d ≤ q < off * gemms_at pde d + gemms_at pde d →
    slot bs d o q = Some None.
Proof.
  intros Hpde Hal Hfree Hoff d o q Hd Ho Hq.
  pose proof (gemms_at_pos pde d Hpde Hd) as Hg.
  destruct (allocated_set pde _ bs d Hal Hd)
    as (a & b & c & Hset & Hsh & Hsl).
  rewrite <- Hsl by nia.
  pose proof (Hsh o Ho) as Hshape.
  destruct (operand_shape_entries pde M d o) as (nr & nc & st & tr & Eo).
  rewrite Eo in Hshape. unfold shape in Hshape.
  injection Hshape as _ _ _ _ _ Hl.
  destruct (lookup_lt_is_Some_2 (batch_ (pick a b c o)) (Z.to_nat q))
    as [p Hp]; [nia|].
  rewrite Hp. f_equal. apply (Hfree d o q).
  by rewrite <- Hsl by nia.
Qed.

Section Window.
Context (pde : PDE) (A : list matrix_view) (x y : vector_view)
        (work : list vector_view).
Context (Hpde : pde_ok pde) (Hargs : kron_args_ok pde A x y work).

Lemma written_window (off d q : Z) :
  0 ≤ off →
  written pde off (num_dims pde) 0 d q
  = bool_decide (0 ≤ d < num_dims pde
                 ∧ off * gemms_at pde d ≤ q
                   < off * gemms_at pde d + gemms_at pde d).
Proof.
  intros Hoff. unfold written.
  destruct (decide (0 ≤ d < num_dims pde
                    ∧ off * gemms_at pde d ≤ q
                      < off * gemms_at pde d + gemms_at pde d)) as [H|H].
  - rewrite bool_decide_eq_true_2 by done. bool_lia.
  - rewrite bool_decide_eq_false_2 by done. bool_lia.
Qed.
End Window.

(** X11. One kronmult writes only the slots of its own batch offset: it assigns
    every slot of its window in every dimension and leaves the shapes and all
    other slots of the batches as they were. *)
Theorem kronmult_writes_only_its_window (pde : PDE) (A : list matrix_view)
    (x y : vector_view) (work : list vector_view)
    (batches : list (list batch)) (off M : Z) :
  pde_ok pde → kron_args_ok pde A x y work →
  allocated pde M batches → 0 ≤ off < M →
  (∀ d o q, 0 ≤ d < num_dims pde → (o < 3)%nat →
     off * gemms_at pde d ≤ q < off * gemms_at pde d + gemms_at pde d →
     slot batches d o q = Some None) →
  ∃ batches',
    kronmult_to_batch_sets A x y work batches off pde = Some batches'
    ∧ (∀ d o, shape_at batches' d o = shape_at batches d o)
    ∧ (∀ d o q, 0 ≤ d < num_dims pde → (o < 3)%nat →
         off * gemms_at pde d ≤ q < off * gemms_at pde d + gemms_at pde d →
         ∃ p, slot batches' d o q = Some (Some p))
    ∧ ∀ d o q, (o < 3)%nat →
        ¬ (0 ≤ d < num_dims pde
           ∧ off * gemms_at pde d ≤ q
             < off * gemms_at pde d + gemms_at pde d) →
        slot batches' d o q = slot batches d o q.
Proof.
  intros Hpde Hargs Hal Hoff Hfree.
  destruct (kronmult_progress pde A x y work Hpde Hargs batches off M
              Hal Hoff Hfree) as (bs' & E & L & S & Q).
  exists bs'. split; [done|]. split; [done|]. split.
  - intros d o q Hd Ho Hq. rewrite Q by done.
    rewrite written_window by lia.
    rewrite bool_decide_eq_true_2 by done.
    destruct (kron_operand_Some pde A x y work Hpde Hargs d o
                (q - off * gemms_at pde d) Hd Ho) as [p ->].
    by exists p.
  - intros d o q Ho Hn. rewrite Q by done.
    rewrite written_window by lia.
    by rewrite bool_decide_eq_false_2.
Qed.

Lemma kronmult_writes_only_its_window_witness :
  ∃ bs0 batches',
    allocate_batches pde_3d 1 = Some bs0
    ∧ kronmult_to_batch_sets A_3d x_3d y_3d work_3d bs0 0 pde_3d
      = Some batches'
    ∧ (∀ d o, shape_at batches' d o = shape_at bs0 d o).
Proof.
  destruct (allocate_batches_spec pde_3d 1 pde_3d_ok ltac:(lia))
    as (bs0 & E & Hal & Hfree).
  destruct (kronmult_writes_only_its_window pde_3d A_3d x_3d y_3d work_3d
              bs0 0 (num_terms pde_3d * 1) pde_3d_ok args_3d_ok Hal
              ltac:(simpl; lia))
    as (bs' & E' & S & _).
  - apply (fresh_window_free pde_3d _ bs0 0 pde_3d_ok Hal Hfree).
    simpl. lia.
  - exists bs0, bs'. done.
Defined.

Lemma assign_entry_taken (a : matrix_view) (pos : Z) (b : batch) (p : ptr) :
  batch_ b !! Z.to_nat pos = Some (Some p) → assign_entry a pos b = None.
Proof.
  intros Hp. unfold assign_entry.
  destruct (cassert (m_nrows a =? nrows b)); [|done]. simpl.
  destruct (cassert (m_ncols a =? ncols b)); [|done]. simpl.
  destruct (if get_stride b =? 1 then Some ()
            else cassert (m_stride a =? get_stride b)); [|done]. simpl.
  destruct (cassert (0 <=? pos)); [|done]. simpl.
  destruct (cassert (pos <? num_entries b)); [|done]. simpl.
  rewrite Hp. done.
Qed.

Lemma kron_base_at0_taken (A : matrix_view) (x y : vector_view)
    (bs : list (list batch)) (off deg D : Z) (p : ptr) :
  slot bs 0 0 off = Some (Some p) →
  kron_base_at0 A x y bs off deg D = None.
Proof.
  unfold slot, kron_base_at0, kron_base, assign_operand. intros Hs.
  destruct (Z.ltb_spec off 0); [done|]. simpl in Hs.
  change (Z.to_nat 0) with 0%nat in Hs.
  destruct (bs !! 0%nat) as [set|]; [|done]. simpl in *.
  destruct (set !! 0%nat) as [b|]; [|done]. simpl in *.
  by rewrite (assign_entry_taken A off b p Hs).
Qed.

(** X12. A batch offset can be used once: after a kronmult at an offset, a second
    kronmult at the same offset aborts in its first [assign_entry], whatever
    its operands. *)
Theorem kronmult_twice_at_one_offset_aborts (pde : PDE)
    (A A' : list matrix_view) (x y x' y' : vector_view)
    (work work' : list vector_view) (batches : list (list batch))
    (off M : Z) :
  pde_ok pde → kron_args_ok pde A x y work →
  allocated pde M batches → 0 ≤ off < M →
  (∀ d o q, 0 ≤ d < num_dims pde → (o < 3)%nat →
     off * gemms_at pde d ≤ q < off * gemms_at pde d + gemms_at pde d →
     slot batches d o q = Some None) →
  ∃ batches',
    kronmult_to_batch_sets A x y work batches off pde = Some batches'
    ∧ kronmult_to_batch_sets A' x' y' work' batches' off pde = None.
Proof.
  intros Hpde Hargs Hal Hoff Hfree.
  destruct (kronmult_progress pde A x y work Hpde Hargs batches off M
              Hal Hoff Hfree) as (bs' & E & L & S & Q).
  exists bs'. split; [done|].
  pose proof Hpde as (HD & _).
  assert (∃ p, slot bs' 0 0 off = Some (Some p)) as [p Hp].
  { rewrite Q by lia. rewrite written_window by lia.
    assert (gemms_at pde 0 = 1) as Hg by done.
    rewrite bool_decide_eq_true_2 by (rewrite Hg; lia).
    destruct (kron_operand_Some pde A x y work Hpde Hargs 0 0%nat
                (off - off * gemms_at pde 0) ltac:(lia) ltac:(lia))
      as [p' ->].
    by exists p'. }
  unfold kronmult_to_batch_sets.
  repeat (match goal with
          | |- (cassert ?b ≫= _) = None => destruct (cassert b); [simpl|done]
          end).
  destruct (A' !! 0%nat) as [A_0|]; [simpl|done].
  destruct (num_dims pde =? 1).
  - by eapply kron_base_at0_taken.
  - destruct (work' !! 0%nat) as [w|]; [simpl|done].
    by rewrite (kron_base_at0_taken _ _ _ _ _ _ _ _ Hp).
Qed.

Lemma kronmult_twice_at_one_offset_aborts_witness :
  ∃ bs0 batches',
    allocate_batches pde_3d 1 = Some bs0
    ∧ kronmult_to_batch_sets A_3d x_3d y_3d work_3d bs0 0 pde_3d
      = Some batches'
    ∧ kronmult_to_batch_sets A_3d x_3d y_3d work_3d batches' 0 pde_3d = None.
Proof.
  destruct (allocate_batches_spec pde_3d 1 pde_3d_ok ltac:(lia))
    as (bs0 & E & Hal & Hfree).
  destruct (kronmult_twice_at_one_offset_aborts pde_3d A_3d A_3d x_3d y_3d
              x_3d y_3d work_3d work_3d
              bs0 0 (num_terms pde_3d * 1) pde_3d_ok args_3d_ok Hal
              ltac:(simpl; lia))
    as (bs' & E1 & E2).
  - apply (fresh_window_free pde_3d _ bs0 0 pde_3d_ok Hal Hfree).
    simpl. lia.
  - exists bs0, bs'. done.
Defined.

Lemma foldM_None_at {S A : Type} (f : S → A → option S) (l : list A) (x : A)
    (s : S) :
  x ∈ l → (∀ t, f t x = None) → foldM f l s = None.
Proof.
  intros Hx Hf. revert s.
  induction l as [|y l IH]; intros s; [by apply elem_of_nil in Hx|].
  apply elem_of_cons in Hx as [<- | Hx]; simpl.
  - by rewrite Hf.
  - destruct (f s y); [simpl; by apply IH|done].
Qed.

Lemma foldM_None_head {S : Type} (f : S → Z → option S) (lo n : Z) (s : S) :
  0 < n → (∀ t, f t lo = None) → foldM f (seqZ lo n) s = None.
Proof.
  intros Hn Hf. apply (foldM_None_at f _ lo); [|done].
  apply elem_of_seqZ. lia.
Qed.

(** X13. The rows of a chunk must be consecutive: when some row index between the
    first row and a later row is missing from the chunk, the count of the
    rows before that later row looks the missing index up with [chunk.at],
    which throws, and [build_batches] does not return. *)
Theorem build_batches_aborts_on_row_gap (pde : PDE) (tbl : element_table)
    (ws : rank_workspace) (chunk : list (Z * limits))
    (first : Z * limits) (i r : Z) (connected : limits) :
  1 ≤ num_terms pde →
  head chunk = Some first → (i, connected) ∈ chunk →
  start connected ≤ stop connected →
  fst first ≤ r < i → (∀ e, e ∈ chunk → fst e ≠ r) →
  prev_row_elems chunk i = None
  ∧ build_batches pde tbl ws chunk = None.
Proof.
  intros HT Hhead Hin Hlim Hr Hmiss.
  assert (prev_row_elems chunk i = None) as Hprev.
  { unfold prev_row_elems. rewrite Hhead. simpl.
    destruct (Z.eqb_spec i (fst first)); [lia|].
    apply (foldM_None_at _ _ r); [apply elem_of_seqZ; lia|].
    intros t. unfold chunk_at.
    assert (list_find (λ e : Z * limits, fst e = r) chunk = None) as ->.
    { apply list_find_None, Forall_forall. intros e He. by apply Hmiss. }
    done. }
  split; [done|].
  unfold build_batches.
  repeat (match goal with
          | |- (cassert ?b ≫= _) = None => destruct (cassert b); [simpl|done]
          end).
  destruct (allocate_batches pde _) as [bs0|]; [simpl|done].
  apply (foldM_None_at _ _ (i, connected)); [done|].
  intros bs. unfold build_row.
  destruct (cassert _); [simpl|done].
  destruct (linearize _); [simpl|done].
  destruct (operator_position _ _ _) as [row|]; [simpl|done].
  apply foldM_None_head; [lia|].
  intros bs1. unfold build_connected.
  destruct (cassert _); [simpl|done].
  destruct (linearize _); [simpl|done].
  destruct (operator_position _ _ _) as [col|]; [simpl|done].
  apply foldM_None_head; [lia|].
  intros bs2. unfold build_term. by rewrite Hprev.
Qed.

Lemma build_batches_aborts_on_row_gap_witness :
  prev_row_elems [(0, Limits 0 1); (2, Limits 0 2)] 2 = None
  ∧ build_batches pde_3d_2 table_4 workspace_2
      [(0, Limits 0 1); (2, Limits 0 2)] = None.
Proof.
  apply (build_batches_aborts_on_row_gap pde_3d_2 table_4 workspace_2
           [(0, Limits 0 1); (2, Limits 0 2)] (0, Limits 0 1) 2 1
           (Limits 0 2)).
  - simpl. lia.
  - reflexivity.
  - apply list_elem_of_further, list_elem_of_here.
  - simpl. lia.
  - simpl. lia.
  - intros e He. apply elem_of_cons in He as [-> | He]; [simpl; lia|].
    apply list_elem_of_singleton in He as ->. simpl. lia.
Defined.

End ScheduleProofs.

(** * Vectors and matrices: operators and submatrices *)

Module TensorOpsProofs.

Import Tensors TensorOps TensorsProofs.

Lemma foldM_ext {S A : Type} (f g : S → A → option S) (l : list A) (s : S) :
  (∀ t x, x ∈ l → f t x = g t x) → foldM f l s = foldM g l s.
Proof.
  revert s. induction l as [|x l IH]; intros s Hfg; [done|]. simpl.
  rewrite (Hfg s x) by apply list_elem_of_here.
  destruct (g s x) as [s'|]; [simpl|done].
  apply IH. intros t y Hy. apply Hfg. by apply list_elem_of_further.
Qed.

Lemma foldM_nested {S A B : Type} (f : S → A → B → option S)
    (la : list A) (lb : list B) (s : S) :
  foldM (λ s a, foldM (λ s b, f s a b) lb s) la s
  = foldM (λ s p, f s (fst p) (snd p)) (a ← la; b ← lb; [(a, b)]) s.
Proof.
  revert s. induction la as [|a la IH]; intros s; [done|].
  simpl. rewrite foldM_app.
  assert (∀ t, foldM (λ s p, f s (fst p) (snd p)) (b ← lb; [(a, b)]) t
               = foldM (λ s b, f s a b) lb t) as ->.
  { clear IH. induction lb as [|b lb IHb]; intros t; [done|]. simpl.
    destruct (f t a b); [simpl; apply IHb|done]. }
  destruct (foldM (λ s b, f s a b) lb s); [simpl; apply IH|done].
Qed.

Lemma elem_of_pairs (la lb : list Z) (a b : Z) :
  (a, b) ∈ (x ← la; y ← lb; [(x, y)]) ↔ a ∈ la ∧ b ∈ lb.
Proof.
  rewrite list_elem_of_bind. split.
  - intros (x & Hin & Hx). apply list_elem_of_bind in Hin as (y & Hin & Hy).
    apply list_elem_of_singleton in Hin. injection Hin as -> ->. done.
  - intros [Ha Hb]. exists a. split; [|done].
    apply list_elem_of_bind. exists b. split; [|done].
    by apply list_elem_of_singleton.
Qed.

Lemma NoDup_pairs (la lb : list Z) :
  NoDup la → NoDup lb → NoDup (x ← la; y ← lb; [(x, y)]).
Proof.
  intros Ha Hb. apply NoDup_bind; [| |done].
  - intros x1 x2 p _ _ H1 H2.
    apply list_elem_of_bind in H1 as (y1 & H1 & _).
    apply list_elem_of_bind in H2 as (y2 & H2 & _).
    apply list_elem_of_singleton in H1, H2. congruence.
  - intros x _. apply NoDup_bind; [| |done].
    + intros y1 y2 p _ _ H1 H2.
      apply list_elem_of_singleton in H1, H2. congruence.
    + intros y _. apply NoDup_singleton.
Qed.

Section Fill.
Context {P : Type} `{Scalar P}.

Lemma matrix_set_Some (t : matrix P) (i j : Z) (v : P) :
  matrix_wf t → 0 ≤ i < nrows_ t → 0 ≤ j < ncols_ t →
  matrix_set t i j v
  = Some (Matrix (nrows_ t) (ncols_ t)
                 (<[Z.to_nat (j * nrows_ t + i) := v]> (data_ t))).
Proof.
  intros (HR & HC & HL) Hi Hj. unfold matrix_set.
  rewrite (cassert_true (_ && _)).
  2:{ apply andb_true_iff. split; apply Z.ltb_lt; lia. }
  simpl. rewrite (cassert_true (0 <=? _)) by nia. simpl.
  rewrite (cassert_true (_ <? _)) by nia. done.
Qed.

Lemma cell_index (R C i j i' j' : Z) :
  0 ≤ i < R → 0 ≤ i' < R → 0 ≤ j → 0 ≤ j' →
  Z.to_nat (j * R + i) = Z.to_nat (j' * R + i') → i = i' ∧ j = j'.
Proof.
  intros Hi Hi' Hj Hj' E.
  assert (j * R + i = j' * R + i') as E' by nia.
  destruct (index_pair C R j i j' i' Hi Hi' Hj Hj' E'). done.
Qed.

(** A loop that writes, for each pair of a list, a value that depends on
    the cell written only. *)
Lemma fill_pairs (ps : list (Z * Z)) (tgt : Z * Z → Z * Z)
    (g : Z * Z → option P) (h : Z * Z → P) (R C : Z) (t0 : matrix P) :
  matrix_wf t0 → nrows_ t0 = R → ncols_ t0 = C →
  (∀ p, p ∈ ps → 0 ≤ fst (tgt p) < R ∧ 0 ≤ snd (tgt p) < C
                 ∧ g p = Some (h (tgt p))) →
  ∃ t, foldM (λ t p, v ← g p; matrix_set t (fst (tgt p)) (snd (tgt p)) v)
             ps t0 = Some t
    ∧ matrix_wf t ∧ nrows_ t = R ∧ ncols_ t = C
    ∧ ∀ i j, 0 ≤ i < R → 0 ≤ j < C →
        data_ t !! Z.to_nat (j * R + i)
        = if decide ((i, j) ∈ tgt <$> ps) then Some (h (i, j))
          else data_ t0 !! Z.to_nat (j * R + i).
Proof.
  revert t0. induction ps as [|p ps IH]; intros t0 Hwf HR HC Hps.
  - exists t0. split; [done|]. split; [done|]. split; [done|].
    split; [done|].
    intros i j Hi Hj. rewrite decide_False; [done|].
    intros Hin. by apply elem_of_nil in Hin.
  - destruct (Hps p) as (Hi0 & Hj0 & Hg); [apply list_elem_of_here|].
    simpl. rewrite Hg. simpl.
    rewrite matrix_set_Some by (rewrite ?HR, ?HC; done).
    set (t1 := Matrix _ _ _).
    assert (matrix_wf t1) as Hwf1.
    { destruct Hwf as (? & ? & ?). repeat split; simpl; try done.
      by rewrite length_insert. }
    destruct (IH t1 Hwf1 HR HC) as (t & E & Hwt & HRt & HCt & Hent).
    { intros q Hq. apply Hps. by apply list_elem_of_further. }
    exists t. split; [done|]. split; [done|]. split; [done|].
    split; [done|].
    intros i j Hi Hj. rewrite (Hent i j Hi Hj).
    destruct (decide ((i, j) ∈ tgt <$> ps)) as [Hin|Hnin].
    + rewrite decide_True; [done|]. by apply list_elem_of_further.
    + subst t1. simpl. rewrite HR.
      destruct (decide ((i, j) = tgt p)) as [Heq|Hne].
      * rewrite decide_True by (rewrite Heq; apply list_elem_of_here).
        rewrite <- Heq. simpl. rewrite list_lookup_insert_eq; [done|].
        destruct Hwf as (? & ? & ?). nia.
      * rewrite decide_False.
        2:{ intros Hin. apply elem_of_cons in Hin as [?|?]; done. }
        rewrite list_lookup_insert_ne; [done|].
        intros E'. apply Hne.
        destruct (cell_index R C (fst (tgt p)) (snd (tgt p)) i j)
          as [E1 E2]; [lia..|done|].
        rewrite <- E1, <- E2. by destruct (tgt p).
Qed.

Lemma new_matrix_wf (R C : Z) :
  0 ≤ R → 0 ≤ C → matrix_wf (new_matrix R C : matrix P).
Proof.
  intros HR HC. repeat split; simpl; try done.
  rewrite length_replicate. nia.
Qed.

Lemma matrix_at_Some (m : matrix P) (i j : Z) :
  matrix_wf m → 0 ≤ i < nrows_ m → 0 ≤ j < ncols_ m →
  ∃ x, matrix_at m i j = Some x
       ∧ data_ m !! Z.to_nat (j * nrows_ m + i) = Some x.
Proof.
  intros (HR & HC & HL) Hi Hj. rewrite matrix_at_lookup by done.
  destruct (lookup_lt_is_Some_2 (data_ m) (Z.to_nat (j * nrows_ m + i)))
    as [x Hx]; [nia|].
  by exists x.
Qed.

Lemma matrix_at_default (m : matrix P) (i j : Z) :
  matrix_wf m → 0 ≤ i < nrows_ m → 0 ≤ j < ncols_ m →
  matrix_at m i j
  = Some (default zero (data_ m !! Z.to_nat (j * nrows_ m + i))).
Proof.
  intros Hwf Hi Hj. destruct (matrix_at_Some m i j) as (x & E & L); try done.
  by rewrite L.
Qed.

(** A loop over the columns and, inside, over the rows that sets every
    cell of a matrix to a value computed from the cell's indices. *)
Lemma fill_columns (R C : Z) (g : Z → Z → option P) (h : Z → Z → P)
    (t0 : matrix P) :
  matrix_wf t0 → nrows_ t0 = R → ncols_ t0 = C →
  (∀ i j, 0 ≤ i < R → 0 ≤ j < C → g i j = Some (h i j)) →
  ∃ t, foldM (λ t j,
                foldM (λ t i, v ← g i j; matrix_set t i j v)
                      (seqZ 0 R) t)
             (seqZ 0 C) t0 = Some t
    ∧ matrix_wf t ∧ nrows_ t = R ∧ ncols_ t = C
    ∧ ∀ i j, 0 ≤ i < R → 0 ≤ j < C → matrix_at t i j = Some (h i j).
Proof.
  intros Hwf HR HC Hg.
  rewrite (foldM_nested (λ t j i, v ← g i j; matrix_set t i j v)).
  destruct (fill_pairs (j ← seqZ 0 C; i ← seqZ 0 R; [(j, i)])
              (λ p, (snd p, fst p)) (λ p, g (snd p) (fst p))
              (λ p, h (fst p) (snd p)) R C t0 Hwf HR HC)
    as (t & E & Hwt & HRt & HCt & Hent).
  { intros [j i] Hp. apply elem_of_pairs in Hp as [Hj Hi].
    apply elem_of_seqZ in Hj, Hi. simpl.
    split; [lia|]. split; [lia|]. apply Hg; lia. }
  exists t. split; [exact E|]. split; [done|]. split; [done|].
  split; [done|].
  intros i j Hi Hj. rewrite matrix_at_lookup by lia.
  rewrite HRt, (Hent i j Hi Hj). rewrite decide_True; [done|].
  apply list_elem_of_fmap. exists (j, i). split; [done|].
  apply elem_of_pairs. split; apply elem_of_seqZ; lia.
Qed.

(** The same for a loop over the rows and, inside, over the columns, which
    writes the cell [(i + r, j + c)]. *)
Lemma fill_rows (R C nr nc r c : Z) (g : Z → Z → option P)
    (h : Z → Z → P) (t0 : matrix P) :
  matrix_wf t0 → nrows_ t0 = R → ncols_ t0 = C →
  0 ≤ r → 0 ≤ c → r + nr ≤ R → c + nc ≤ C →
  (∀ i j, 0 ≤ i < nr → 0 ≤ j < nc → g i j = Some (h i j)) →
  ∃ t, foldM (λ t i,
                foldM (λ t j, v ← g i j; matrix_set t (i + r) (j + c) v)
                      (seqZ 0 nc) t)
             (seqZ 0 nr) t0 = Some t
    ∧ matrix_wf t ∧ nrows_ t = R ∧ ncols_ t = C
    ∧ ∀ i j, 0 ≤ i < R → 0 ≤ j < C →
        matrix_at t i j
        = if decide (r ≤ i < r + nr ∧ c ≤ j < c + nc)
          then Some (h (i - r) (j - c)) else matrix_at t0 i j.
Proof.
  intros Hwf HR HC Hr Hc HrR HcC Hg.
  rewrite (foldM_nested
             (λ t i j, v ← g i j; matrix_set t (i + r) (j + c) v)).
  destruct (fill_pairs (i ← seqZ 0 nr; j ← seqZ 0 nc; [(i, j)])
              (λ p, (fst p + r, snd p + c)) (λ p, g (fst p) (snd p))
              (λ p, h (fst p - r) (snd p - c)) R C t0 Hwf HR HC)
    as (t & E & Hwt & HRt & HCt & Hent).
  { intros [i j] Hp. apply elem_of_pairs in Hp as [Hi Hj].
    apply elem_of_seqZ in Hj, Hi. simpl.
    split; [lia|]. split; [lia|].
    replace (i + r - r) with i by lia. replace (j + c - c) with j by lia.
    apply Hg; lia. }
  exists t. split; [exact E|]. split; [done|]. split; [done|].
  split; [done|].
  intros i j Hi Hj. rewrite !matrix_at_lookup by lia.
  rewrite HRt, HR, (Hent i j Hi Hj).
  destruct (decide (r ≤ i < r + nr ∧ c ≤ j < c + nc)) as [Hin|Hout].
  - rewrite decide_True; [done|].
    apply list_elem_of_fmap. exists (i - r, j - c). split.
    + simpl. f_equal; lia.
    + apply elem_of_pairs. split; apply elem_of_seqZ; lia.
  - rewrite decide_False; [done|].
    intros Hx. apply list_elem_of_fmap in Hx as ([i' j'] & Heq & Hp).
    apply elem_of_pairs in Hp as [Hi' Hj'].
    apply elem_of_seqZ in Hi', Hj'. simpl in Heq.
    injection Heq as -> ->. lia.
Qed.

Lemma matrix_ext (a b : matrix P) :
  matrix_wf a → matrix_wf b →
  nrows_ a = nrows_ b → ncols_ a = ncols_ b →
  (∀ i j, 0 ≤ i < nrows_ a → 0 ≤ j < ncols_ a →
     matrix_at a i j = matrix_at b i j) →
  a = b.
Proof.
  intros (HR & HC & HL) (HR' & HC' & HL') ER EC Hall.
  destruct a as [R C da], b as [R' C' db]. simpl in *. subst R' C'.
  f_equal. apply list_eq. intros k.
  destruct (decide (Z.of_nat k < R * C)) as [Hk|Hk].
  - assert (0 < R) as HRpos by nia.
    specialize (Hall (Z.of_nat k `mod` R) (Z.of_nat k `div` R)).
    pose proof (Z.mod_pos_bound (Z.of_nat k) R HRpos).
    pose proof (Z.div_mod (Z.of_nat k) R ltac:(lia)).
    assert (0 ≤ Z.of_nat k `div` R < C) as Hq.
    { split; [apply Z.div_pos; lia|].
      apply Z.div_lt_upper_bound; [lia|]. nia. }
    rewrite !matrix_at_lookup in Hall by (simpl; lia). simpl in Hall.
    replace (Z.to_nat (Z.of_nat k `div` R * R + Z.of_nat k `mod` R))
      with k in Hall by lia.
    apply Hall; lia.
  - rewrite !lookup_ge_None_2 by lia. done.
Qed.
End Fill.

Lemma foldM2_ext {S A B : Type} (f g : S → A → B → option S)
    (la : list A) (lb : list B) (s : S) :
  (∀ t a b, f t a b = g t a b) →
  foldM (λ t a, foldM (λ t b, f t a b) lb t) la s
  = foldM (λ t a, foldM (λ t b, g t a b) lb t) la s.
Proof.
  intros Hfg. apply foldM_ext. intros t a _.
  apply foldM_ext. intros t' b _. apply Hfg.
Qed.

Section Elementwise.
Context {P : Type} `{Scalar P} `{Arith P}.

Lemma zip_columns (op : P → P → P) (a b : matrix P) :
  matrix_wf a → matrix_wf b →
  nrows_ a = nrows_ b → ncols_ a = ncols_ b →
  ∃ t, foldM (λ ans j,
                foldM (λ ans i,
                         x ← matrix_at a i j;
                         y ← matrix_at b i j;
                         matrix_set ans i j (op x y))
                      (seqZ 0 (nrows_ a)) ans)
             (seqZ 0 (ncols_ a)) (new_matrix (nrows_ a) (ncols_ a))
       = Some t
    ∧ matrix_wf t ∧ nrows_ t = nrows_ a ∧ ncols_ t = ncols_ a
    ∧ ∀ i j, 0 ≤ i < nrows_ a → 0 ≤ j < ncols_ a →
        matrix_at t i j
        = (x ← matrix_at a i j; y ← matrix_at b i j; Some (op x y)).
Proof.
  intros Ha Hb ER EC.
  rewrite (foldM2_ext _
             (λ t j i, v ← (x ← matrix_at a i j; y ← matrix_at b i j;
                            Some (op x y));
                       matrix_set t i j v)).
  2:{ intros t j i. destruct (matrix_at a i j); [simpl|done].
      destruct (matrix_at b i j); done. }
  pose proof Ha as (HR & HC & _).
  destruct (fill_columns (nrows_ a) (ncols_ a)
              (λ i j, x ← matrix_at a i j; y ← matrix_at b i j;
                      Some (op x y))
              (λ i j, op (default zero
                            (data_ a !! Z.to_nat (j * nrows_ a + i)))
                         (default zero
                            (data_ b !! Z.to_nat (j * nrows_ b + i))))
              (new_matrix (nrows_ a) (ncols_ a)))
    as (t & E & Hwt & HRt & HCt & Hent); [by apply new_matrix_wf|done..| |].
  { intros i j Hi Hj. simpl.
    rewrite (matrix_at_default a), (matrix_at_default b) by (done || lia).
    done. }
  exists t. split; [exact E|]. split; [done|]. split; [done|].
  split; [done|].
  intros i j Hi Hj. rewrite (Hent i j Hi Hj).
  rewrite (matrix_at_default a), (matrix_at_default b) by (done || lia).
  done.
Qed.
End Elementwise.

(** X14. The sum and the difference of two matrices are defined exactly when the
    two have the same dimensions; the result has these dimensions and holds
    the sum, or the difference, of the two entries in every cell. The product
    with an [int] holds every entry times the converted [int]. *)
Theorem matrix_elementwise_operators {P : Type} `{Scalar P} `{Arith P}
    (a b : matrix P) (n : Z) :
  matrix_wf a → matrix_wf b →
  (nrows_ a = nrows_ b ∧ ncols_ a = ncols_ b →
   ∃ s d, matrix_add a b = Some s ∧ matrix_sub a b = Some d
     ∧ (nrows_ s, ncols_ s) = (nrows_ a, ncols_ a)
     ∧ (nrows_ d, ncols_ d) = (nrows_ a, ncols_ a)
     ∧ ∀ i j, 0 ≤ i < nrows_ a → 0 ≤ j < ncols_ a →
         matrix_at s i j
         = (x ← matrix_at a i j; y ← matrix_at b i j; Some (sadd x y))
         ∧ matrix_at d i j
           = (x ← matrix_at a i j; y ← matrix_at b i j; Some (ssub x y)))
  ∧ (¬ (nrows_ a = nrows_ b ∧ ncols_ a = ncols_ b) →
     matrix_add a b = None ∧ matrix_sub a b = None)
  ∧ ∃ p, matrix_mul_int a n = Some p
     ∧ (nrows_ p, ncols_ p) = (nrows_ a, ncols_ a)
     ∧ ∀ i j, 0 ≤ i < nrows_ a → 0 ≤ j < ncols_ a →
         matrix_at p i j = (λ x, smul x (of_int n)) <$> matrix_at a i j.
Proof.
  intros Ha Hb. split; [|split].
  - intros [ER EC].
    destruct (zip_columns sadd a b Ha Hb ER EC)
      as (s & Es & _ & HRs & HCs & Hs).
    destruct (zip_columns ssub a b Ha Hb ER EC)
      as (d & Ed & _ & HRd & HCd & Hd).
    exists s, d. unfold matrix_add, matrix_sub. rewrite <- ER, <- EC.
    rewrite !Z.eqb_refl. simpl. cbv zeta.
    split; [exact Es|]. split; [exact Ed|].
    split; [by rewrite HRs, HCs|]. split; [by rewrite HRd, HCd|].
    intros i j Hi Hj. split; [by apply Hs|by apply Hd].
  - intros Hn. unfold matrix_add, matrix_sub.
    destruct (Z.eqb_spec (nrows_ a) (nrows_ b)); [|done].
    destruct (Z.eqb_spec (ncols_ a) (ncols_ b)); [|done].
    destruct Hn. done.
  - unfold matrix_mul_int. cbv zeta.
    rewrite (foldM2_ext _
               (λ t j i, v ← (λ x, smul x (of_int n)) <$> matrix_at a i j;
                         matrix_set t i j v)).
    2:{ intros t j i. by destruct (matrix_at a i j). }
    pose proof Ha as (HR & HC & _).
    destruct (fill_columns (nrows_ a) (ncols_ a)
                (λ i j, (λ x, smul x (of_int n)) <$> matrix_at a i j)
                (λ i j, smul (default zero
                                (data_ a !! Z.to_nat (j * nrows_ a + i)))
                             (of_int n))
                (new_matrix (nrows_ a) (ncols_ a)))
      as (t & E & Hwt & HRt & HCt & Hent); [by apply new_matrix_wf|done..| |].
    { intros i j Hi Hj. simpl. by rewrite matrix_at_default by done. }
    exists t. split; [exact E|]. split; [by rewrite HRt, HCt|].
    intros i j Hi Hj. rewrite (Hent i j Hi Hj).
    by rewrite matrix_at_default by done.
Qed.

Lemma matrix_elementwise_operators_witness :
  ∃ s d, matrix_add (Matrix 2 2 [1; 2; 3; 4]) (Matrix 2 2 [10; 20; 30; 40])
         = Some s
     ∧ matrix_sub (Matrix 2 2 [1; 2; 3; 4]) (Matrix 2 2 [10; 20; 30; 40])
       = Some d
     ∧ (nrows_ s, ncols_ s) = (2, 2)
     ∧ (nrows_ d, ncols_ d) = (2, 2)
     ∧ ∀ i j, 0 ≤ i < 2 → 0 ≤ j < 2 →
         matrix_at s i j
         = (x ← matrix_at (Matrix 2 2 [1; 2; 3; 4]) i j;
            y ← matrix_at (Matrix 2 2 [10; 20; 30; 40]) i j; Some (x + y))
         ∧ matrix_at d i j
           = (x ← matrix_at (Matrix 2 2 [1; 2; 3; 4]) i j;
              y ← matrix_at (Matrix 2 2 [10; 20; 30; 40]) i j;
              Some (x - y)).
Proof.
  destruct (matrix_elementwise_operators
              (Matrix 2 2 [1; 2; 3; 4]) (Matrix 2 2 [10; 20; 30; 40]) 0)
    as (Hsum & _ & _).
  - unfold matrix_wf. simpl. lia.
  - unfold matrix_wf. simpl. lia.
  - apply Hsum. split; reflexivity.
Defined.

Section Submatrix.
Context {P : Type} `{Scalar P}.

Lemma set_submatrix_spec (m s : matrix P) (r c : Z) :
  matrix_wf m → matrix_wf s → 0 ≤ r → 0 ≤ c →
  r + nrows_ s ≤ nrows_ m → c + ncols_ s ≤ ncols_ m →
  ∃ m', set_submatrix m r c s = Some m'
    ∧ matrix_wf m' ∧ nrows_ m' = nrows_ m ∧ ncols_ m' = ncols_ m
    ∧ ∀ i j, 0 ≤ i < nrows_ m → 0 ≤ j < ncols_ m →
        matrix_at m' i j
        = if decide (r ≤ i < r + nrows_ s ∧ c ≤ j < c + ncols_ s)
          then matrix_at s (i - r) (j - c) else matrix_at m i j.
Proof.
  intros Hm Hs Hr Hc HrR HcC. unfold set_submatrix.
  rewrite (cassert_true (0 <=? r)) by lia. simpl.
  rewrite (cassert_true (0 <=? c)) by lia. simpl.
  rewrite (cassert_true (_ <=? _)) by lia. simpl.
  rewrite (cassert_true (_ <=? _)) by lia. simpl.
  destruct (fill_rows (nrows_ m) (ncols_ m) (nrows_ s) (ncols_ s) r c
              (λ i j, matrix_at s i j)
              (λ i j, default zero
                        (data_ s !! Z.to_nat (j * nrows_ s + i)))
              m Hm eq_refl eq_refl Hr Hc HrR HcC)
    as (t & E & Hwt & HRt & HCt & Hent).
  { intros i j Hi Hj. by apply matrix_at_default. }
  exists t. split; [exact E|]. split; [done|]. split; [done|].
  split; [done|].
  intros i j Hi Hj. rewrite (Hent i j Hi Hj).
  destruct (decide _) as [Hin|]; [|done].
  rewrite matrix_at_default by (done || lia). done.
Qed.

Lemma extract_submatrix_spec (m : matrix P) (r c nr nc : Z) :
  matrix_wf m → 0 ≤ r → 0 ≤ c → 0 ≤ nr → 0 ≤ nc →
  r + nr ≤ nrows_ m → c + nc ≤ ncols_ m →
  ∃ s, extract_submatrix m r c nr nc = Some s
    ∧ matrix_wf s ∧ nrows_ s = nr ∧ ncols_ s = nc
    ∧ ∀ i j, 0 ≤ i < nr → 0 ≤ j < nc →
        matrix_at s i j = matrix_at m (i + r) (j + c).
Proof.
  intros Hm Hr Hc Hnr Hnc HrR HcC. unfold extract_submatrix.
  rewrite (cassert_true (0 <=? r)) by lia. simpl.
  rewrite (cassert_true (0 <=? c)) by lia. simpl.
  rewrite (cassert_true (_ <=? _)) by lia. simpl.
  rewrite (cassert_true (_ <=? _)) by lia. simpl.
  rewrite (foldM2_ext _
             (λ t i j, v ← matrix_at m (i + r) (j + c);
                       matrix_set t (i + 0) (j + 0) v)).
  2:{ intros t i j. by rewrite !Z.add_0_r. }
  destruct (fill_rows nr nc nr nc 0 0
              (λ i j, matrix_at m (i + r) (j + c))
              (λ i j, default zero
                        (data_ m !! Z.to_nat ((j + c) * nrows_ m
                                              + (i + r))))
              (new_matrix nr nc))
    as (t & E & Hwt & HRt & HCt & Hent);
    [by apply new_matrix_wf|done|done|lia..| |].
  { intros i j Hi Hj. apply matrix_at_default; [done|lia..]. }
  exists t. split; [exact E|]. split; [done|]. split; [done|].
  split; [done|].
  intros i j Hi Hj. rewrite (Hent i j Hi Hj).
  rewrite decide_True by lia. rewrite !Z.sub_0_r.
  rewrite matrix_at_default by (done || lia). done.
Qed.
End Submatrix.

(** X15. Reading back what [set_submatrix] wrote: the window extracted at the
    same place is the submatrix that was set, and every entry outside the
    window is as before. [set_submatrix] aborts when the window does not lie
    inside the matrix. *)
Theorem set_submatrix_then_extract {P : Type} `{Scalar P}
    (m s : matrix P) (r c : Z) :
  matrix_wf m → matrix_wf s →
  (0 ≤ r ∧ 0 ≤ c ∧ r + nrows_ s ≤ nrows_ m ∧ c + ncols_ s ≤ ncols_ m →
   ∃ m', set_submatrix m r c s = Some m'
     ∧ (nrows_ m', ncols_ m') = (nrows_ m, ncols_ m)
     ∧ extract_submatrix m' r c (nrows_ s) (ncols_ s) = Some s
     ∧ ∀ i j, 0 ≤ i < nrows_ m → 0 ≤ j < ncols_ m →
         ¬ (r ≤ i < r + nrows_ s ∧ c ≤ j < c + ncols_ s) →
         matrix_at m' i j = matrix_at m i j)
  ∧ (¬ (0 ≤ r ∧ 0 ≤ c ∧ r + nrows_ s ≤ nrows_ m
        ∧ c + ncols_ s ≤ ncols_ m) →
     set_submatrix m r c s = None).
Proof.
  intros Hm Hs. split.
  - intros (Hr & Hc & HrR & HcC).
    destruct (set_submatrix_spec m s r c Hm Hs Hr Hc HrR HcC)
      as (m' & E & Hwm' & HR' & HC' & Hent).
    pose proof Hs as (HRs & HCs & _).
    destruct (extract_submatrix_spec m' r c (nrows_ s) (ncols_ s))
      as (s' & E' & Hws' & HRs' & HCs' & Hent'); [done|lia..|].
    exists m'. split; [done|]. split; [by rewrite HR', HC'|]. split.
    + rewrite E'. f_equal. apply matrix_ext; [done..|].
      rewrite HRs', HCs'. intros i j Hi Hj.
      rewrite Hent', Hent by lia. rewrite decide_True by lia.
      f_equal; lia.
    + intros i j Hi Hj Hout. rewrite Hent by done.
      by rewrite decide_False.
  - intros Hn. unfold set_submatrix.
    destruct (Z.leb_spec 0 r); [|done]. simpl.
    destruct (Z.leb_spec 0 c); [|done]. simpl.
    destruct (Z.leb_spec (r + nrows_ s) (nrows_ m)); [|done]. simpl.
    destruct (Z.leb_spec (c + ncols_ s) (ncols_ m)); [|done]. simpl.
    destruct Hn. done.
Qed.

Lemma set_submatrix_then_extract_witness :
  ∃ m', set_submatrix (Matrix 3 2 [1; 2; 3; 4; 5; 6]) 1 0
                      (Matrix 2 1 [7; 8]) = Some m'
     ∧ (nrows_ m', ncols_ m') = (3, 2)
     ∧ extract_submatrix m' 1 0 2 1 = Some (Matrix 2 1 [7; 8])
     ∧ ∀ i j, 0 ≤ i < 3 → 0 ≤ j < 2 →
         ¬ (1 ≤ i < 1 + 2 ∧ 0 ≤ j < 0 + 1) →
         matrix_at m' i j = matrix_at (Matrix 3 2 [1; 2; 3; 4; 5; 6]) i j.
Proof.
  destruct (set_submatrix_then_extract (Matrix 3 2 [1; 2; 3; 4; 5; 6])
              (Matrix 2 1 [7; 8]) 1 0) as (Hset & _).
  - unfold matrix_wf. simpl. lia.
  - unfold matrix_wf. simpl. lia.
  - apply Hset. simpl. lia.
Defined.

(** X16. Writing back what [extract_submatrix] read changes nothing: the
    submatrix extracted from a window, set at the same place, gives the
    matrix itself. The extracted matrix holds the entries of the window. *)
Theorem extract_submatrix_then_set {P : Type} `{Scalar P}
    (m : matrix P) (r c nr nc : Z) :
  matrix_wf m → 0 ≤ r → 0 ≤ c → 0 ≤ nr → 0 ≤ nc →
  r + nr ≤ nrows_ m → c + nc ≤ ncols_ m →
  ∃ s, extract_submatrix m r c nr nc = Some s
    ∧ (nrows_ s, ncols_ s) = (nr, nc)
    ∧ (∀ i j, 0 ≤ i < nr → 0 ≤ j < nc →
         matrix_at s i j = matrix_at m (i + r) (j + c))
    ∧ set_submatrix m r c s = Some m.
Proof.
  intros Hm Hr Hc Hnr Hnc HrR HcC.
  destruct (extract_submatrix_spec m r c nr nc)
    as (s & E & Hws & HRs & HCs & Hent); [done..|].
  exists s. split; [done|]. split; [by rewrite HRs, HCs|].
  split; [done|].
  destruct (set_submatrix_spec m s r c Hm Hws Hr Hc)
    as (m' & E' & Hwm' & HR' & HC' & Hent'); [lia..|].
  rewrite E'. f_equal. apply matrix_ext; [done..|].
  rewrite HR', HC'. intros i j Hi Hj. rewrite Hent' by done.
  destruct (decide _) as [Hin|]; [|done].
  rewrite Hent by lia. f_equal; lia.
Qed.

Lemma extract_submatrix_then_set_witness :
  ∃ s, extract_submatrix (Matrix 3 2 [1; 2; 3; 4; 5; 6]) 1 1 2 1 = Some s
    ∧ (nrows_ s, ncols_ s) = (2, 1)
    ∧ (∀ i j, 0 ≤ i < 2 → 0 ≤ j < 1 →
         matrix_at s i j
         = matrix_at (Matrix 3 2 [1; 2; 3; 4; 5; 6]) (i + 1) (j + 1))
    ∧ set_submatrix (Matrix 3 2 [1; 2; 3; 4; 5; 6]) 1 1 s
      = Some (Matrix 3 2 [1; 2; 3; 4; 5; 6]).
Proof.
  apply (extract_submatrix_then_set (Matrix 3 2 [1; 2; 3; 4; 5; 6]) 1 1 2 1);
    [unfold matrix_wf|..]; simpl; lia.
Defined.

(** X17. [transpose] exchanges the two dimensions and the two indices of every
    entry. *)
Theorem transpose_exchanges_indices {P : Type} `{ScalarLaws P}
    (m : matrix P) :
  matrix_wf m →
  ∃ t, transpose m = Some t
    ∧ (nrows_ t, ncols_ t) = (ncols_ m, nrows_ m)
    ∧ ∀ i j, 0 ≤ i < nrows_ m → 0 ≤ j < ncols_ m →
        matrix_at t j i = matrix_at m i j.
Proof.
  intros Hm. destruct (transpose_spec m Hm) as (t & E & HR & HC & HL & Hent).
  exists t. split; [done|]. split; [by rewrite HR, HC|].
  intros i j Hi Hj. rewrite !matrix_at_lookup by lia.
  rewrite HR. by apply Hent.
Qed.

Lemma transpose_exchanges_indices_witness :
  ∃ t, transpose matrix_2x3 = Some t
    ∧ (nrows_ t, ncols_ t) = (3, 2)
    ∧ ∀ i j, 0 ≤ i < 2 → 0 ≤ j < 3 →
        matrix_at t j i = matrix_at matrix_2x3 i j.
Proof.
  apply (transpose_exchanges_indices matrix_2x3).
  unfold matrix_wf. simpl. lia.
Defined.

(** X18. Assigning a [std::vector] to a matrix reads the vector row by row:
    entry [(i, j)] becomes [v[i * ncols + j]]. The assignment aborts unless
    the vector has [nrows * ncols] elements. Assigning a square matrix the
    elements it stores, which are in column-major order, therefore
    transposes it. *)
Theorem matrix_assign_reads_row_major {P : Type} `{ScalarLaws P}
    (m : matrix P) (v : list P) :
  matrix_wf m →
  (size v = nrows_ m * ncols_ m →
   ∃ m', matrix_assign m v = Some m'
     ∧ (nrows_ m', ncols_ m') = (nrows_ m, ncols_ m)
     ∧ ∀ i j, 0 ≤ i < nrows_ m → 0 ≤ j < ncols_ m →
         matrix_at m' i j = v !! Z.to_nat (i * ncols_ m + j))
  ∧ (size v ≠ nrows_ m * ncols_ m → matrix_assign m v = None)
  ∧ (nrows_ m = ncols_ m → matrix_assign m (data_ m) = transpose m).
Proof.
  intros Hm. pose proof Hm as (HR & HC & HL).
  assert (∀ w : list P, size w = nrows_ m * ncols_ m →
          ∃ m', matrix_assign m w = Some m'
            ∧ matrix_wf m' ∧ nrows_ m' = nrows_ m ∧ ncols_ m' = ncols_ m
            ∧ ∀ i j, 0 ≤ i < nrows_ m → 0 ≤ j < ncols_ m →
                matrix_at m' i j = w !! Z.to_nat (i * ncols_ m + j)) as Hrun.
  { intros w Hw. unfold matrix_assign.
    rewrite (cassert_true (_ =? _)) by lia. simpl.
    destruct (fill_columns (nrows_ m) (ncols_ m)
                (λ i j, raw_at w (j + i * ncols_ m))
                (λ i j, default zero (w !! Z.to_nat (i * ncols_ m + j)))
                m Hm eq_refl eq_refl)
      as (t & E & Hwt & HRt & HCt & Hent).
    { intros i j Hi Hj. unfold raw_at.
      destruct (Z.ltb_spec (j + i * ncols_ m) 0); [nia|].
      replace (j + i * ncols_ m) with (i * ncols_ m + j) by lia.
      destruct (lookup_lt_is_Some_2 w (Z.to_nat (i * ncols_ m + j)))
        as [x Hx]; [unfold size in Hw; nia|].
      by rewrite Hx. }
    exists t. split; [exact E|]. split; [done|]. split; [done|].
    split; [done|].
    intros i j Hi Hj. rewrite (Hent i j Hi Hj).
    destruct (lookup_lt_is_Some_2 w (Z.to_nat (i * ncols_ m + j)))
      as [x Hx]; [unfold size in Hw; nia|].
    by rewrite Hx. }
  split; [|split].
  - intros Hv. destruct (Hrun v Hv) as (m' & E & _ & HR' & HC' & Hent).
    exists m'. split; [done|]. split; [by rewrite HR', HC'|]. done.
  - intros Hv. unfold matrix_assign.
    destruct (Z.eqb_spec (nrows_ m * ncols_ m) (size v)); [lia|done].
  - intros Hsq.
    destruct (Hrun (data_ m)) as (m' & E & Hwm' & HR' & HC' & Hent);
      [unfold size; lia|].
    destruct (transpose_spec m Hm) as (t & Et & HRt & HCt & HLt & Hentt).
    rewrite E, Et. f_equal. apply matrix_ext; [done| |lia|lia|].
    { repeat split; lia. }
    rewrite HR', HC'. intros i j Hi Hj. rewrite Hent by done.
    rewrite matrix_at_lookup by lia. rewrite HRt.
    rewrite (Hentt j i) by lia. f_equal. lia.
Qed.

Lemma matrix_assign_reads_row_major_witness :
  ∃ m', matrix_assign (Matrix 2 3 [0; 0; 0; 0; 0; 0]) [1; 2; 3; 4; 5; 6]
        = Some m'
     ∧ (nrows_ m', ncols_ m') = (2, 3)
     ∧ ∀ i j, 0 ≤ i < 2 → 0 ≤ j < 3 →
         matrix_at m' i j = [1; 2; 3; 4; 5; 6] !! Z.to_nat (i * 3 + j).
Proof.
  destruct (matrix_assign_reads_row_major (Matrix 2 3 [0; 0; 0; 0; 0; 0])
              [1; 2; 3; 4; 5; 6]) as (Hrun & _).
  - unfold matrix_wf. simpl. lia.
  - apply Hrun. reflexivity.
Defined.

Lemma int_vector_eq_loop (a b : list Z) (l : list Z) :
  (∀ i, i ∈ l → 0 ≤ i < size a ∧ i < size b) →
  ∃ r, vector_eq_loop a b l = Some r
       ∧ (r = true ↔ ∀ i, i ∈ l → a !! Z.to_nat i = b !! Z.to_nat i).
Proof.
  induction l as [|i l IH]; intros Hl.
  - exists true. split; [done|]. split; [|done]. intros _ i Hi.
    by apply elem_of_nil in Hi.
  - destruct (Hl i) as [Hi Hi']; [apply list_elem_of_here|].
    simpl. rewrite !vector_at_lookup by lia.
    destruct (lookup_lt_is_Some_2 a (Z.to_nat i)) as [x Ex];
      [unfold size in Hi; lia|].
    destruct (lookup_lt_is_Some_2 b (Z.to_nat i)) as [y Ey];
      [unfold size in Hi'; lia|].
    rewrite Ex, Ey. simpl. unfold entry_differs. simpl.
    destruct (Z.eqb_spec x y) as [->|Hne]; simpl.
    + destruct IH as (r & Er & Hr).
      { intros k Hk. apply Hl. by apply list_elem_of_further. }
      exists r. split; [done|]. rewrite Hr. split.
      * intros Hall k Hk. apply elem_of_cons in Hk as [-> | Hk]; [|eauto].
        by rewrite Ex, Ey.
      * intros Hall k Hk. apply Hall. by apply list_elem_of_further.
    + exists false. split; [done|]. split; [done|]. intros Hall.
      specialize (Hall i (list_elem_of_here _ _)). congruence.
Qed.

Lemma int_vector_eq (a b : list Z) :
  ∃ r, vector_eq false a b = Some r ∧ (r = true ↔ a = b).
Proof.
  unfold vector_eq.
  destruct (Z.eqb_spec (size a) (size b)) as [Es|Hs]; simpl.
  - destruct (int_vector_eq_loop a b (seqZ 0 (size a))) as (r & Er & Hr).
    { intros i Hi. apply elem_of_seqZ in Hi. lia. }
    exists r. split; [done|]. rewrite Hr. split.
    + intros Hall. apply list_eq. intros k.
      destruct (decide (Z.of_nat k < size a)) as [Hk|Hk].
      * specialize (Hall (Z.of_nat k)). rewrite Nat2Z.id in Hall.
        apply Hall. apply elem_of_seqZ. lia.
      * unfold size in *. rewrite !lookup_ge_None_2 by lia. done.
    + by intros ->.
  - exists false. split; [done|]. split; [done|]. by intros ->.
Qed.

Lemma int_matrix_eq_loop (a b : matrix Z) (l : list (Z * Z)) :
  matrix_wf a → matrix_wf b →
  nrows_ a = nrows_ b → ncols_ a = ncols_ b →
  (∀ p, p ∈ l → 0 ≤ fst p < nrows_ a ∧ 0 ≤ snd p < ncols_ a) →
  ∃ r, matrix_eq_loop a b l = Some r
       ∧ (r = true ↔ ∀ p, p ∈ l →
                     matrix_at a (fst p) (snd p)
                     = matrix_at b (fst p) (snd p)).
Proof.
  intros Ha Hb ER EC.
  induction l as [|[i j] l IH]; intros Hl.
  - exists true. split; [done|]. split; [|done]. intros _ p Hp.
    by apply elem_of_nil in Hp.
  - destruct (Hl (i, j)) as [Hi Hj]; [apply list_elem_of_here|].
    simpl in Hi, Hj. simpl.
    destruct (matrix_at_Some a i j) as (x & Ex & _); [done..|].
    destruct (matrix_at_Some b i j) as (y & Ey & _); [done|lia..|].
    rewrite Ex, Ey. simpl. unfold entry_differs. simpl.
    destruct (Z.eqb_spec x y) as [->|Hne]; simpl.
    + destruct IH as (r & Er & Hr).
      { intros k Hk. apply Hl. by apply list_elem_of_further. }
      exists r. split; [done|]. rewrite Hr. split.
      * intros Hall k Hk. apply elem_of_cons in Hk as [-> | Hk]; [|eauto].
        simpl. by rewrite Ex, Ey.
      * intros Hall k Hk. apply Hall. by apply list_elem_of_further.
    + exists false. split; [done|]. split; [done|]. intros Hall.
      specialize (Hall (i, j) (list_elem_of_here _ _)). simpl in Hall.
      congruence.
Qed.

(** X19. For the element type [int], [operator==] is equality: it answers true
    exactly when the two vectors, or the two matrices, have the same
    dimensions and the same elements; [operator!=] answers the opposite. *)
Theorem int_comparison_is_equality (a b : list Z) (ma mb : matrix Z) :
  (∃ r, vector_eq false a b = Some r ∧ vector_ne false a b = Some (negb r)
        ∧ (r = true ↔ a = b))
  ∧ (matrix_wf ma → matrix_wf mb →
     ∃ r, matrix_eq false ma mb = Some r
          ∧ matrix_ne false ma mb = Some (negb r)
          ∧ (r = true ↔ ma = mb)).
Proof.
  split.
  - destruct (int_vector_eq a b) as (r & Er & Hr).
    exists r. unfold vector_ne. rewrite Er. done.
  - intros Ha Hb. unfold matrix_ne, matrix_eq.
    destruct (Z.eqb_spec (nrows_ ma) (nrows_ mb)) as [ER|HR]; simpl.
    2:{ exists false. split; [done|]. split; [done|]. split; [done|].
        by intros ->. }
    destruct (Z.eqb_spec (ncols_ ma) (ncols_ mb)) as [EC|HC]; simpl.
    2:{ exists false. split; [done|]. split; [done|]. split; [done|].
        by intros ->. }
    destruct (int_matrix_eq_loop ma mb
                (column_major (nrows_ ma) (ncols_ ma)) Ha Hb ER EC)
      as (r & Er & Hr).
    { intros [i j] Hp. by apply column_major_range. }
    exists r. rewrite Er. split; [done|]. split; [done|].
    rewrite Hr. split.
    + intros Hall. apply matrix_ext; [done..|].
      intros i j Hi Hj. apply (Hall (i, j)).
      unfold column_major. apply list_elem_of_bind. exists j.
      split; [|apply elem_of_seqZ; lia].
      apply list_elem_of_bind. exists i.
      split; [apply list_elem_of_singleton; done|apply elem_of_seqZ; lia].
    + by intros ->.
Qed.

Lemma int_comparison_is_equality_witness :
  ∃ r, matrix_eq false (Matrix 1 2 [3; 4]) (Matrix 2 1 [3; 4]) = Some r
       ∧ matrix_ne false (Matrix 1 2 [3; 4]) (Matrix 2 1 [3; 4])
         = Some (negb r)
       ∧ (r = true ↔ Matrix 1 2 [3; 4] = Matrix 2 1 [3; 4]).
Proof.
  apply (proj2 (int_comparison_is_equality [] []
                  (Matrix 1 2 [3; 4]) (Matrix 2 1 [3; 4])));
    unfold matrix_wf; simpl; lia.
Defined.

(** X20. A vector or a matrix compares equal to a copy of itself, for every
    element type: for floating-point elements also when it holds a NaN or an
    infinity, which compare unequal to themselves as numbers. *)
Theorem copy_compares_equal {P : Type} `{ScalarLaws P}
    (v : list P) (m : matrix P) :
  vector_eq false v v = Some true
  ∧ (matrix_wf m → matrix_eq false m m = Some true).
Proof.
  split.
  - apply vector_eq_true; [done|].
    intros i x y Hx Hy. rewrite Hx in Hy. injection Hy as <-.
    apply entry_differs_refl.
  - intros Hm. apply matrix_eq_true; try done.
    intros k x y Hx Hy. rewrite Hx in Hy. injection Hy as <-.
    apply entry_differs_refl.
Qed.

Lemma copy_compares_equal_witness :
  vector_eq false [nan; infinity; 1%float] [nan; infinity; 1%float]
  = Some true
  ∧ matrix_eq false matrix_2x3 matrix_2x3 = Some true.
Proof.
  destruct (copy_compares_equal [nan; infinity; 1%float] matrix_2x3)
    as [Hv Hm].
  split; [exact Hv|]. apply Hm. unfold matrix_wf. simpl. lia.
Defined.

Section Vectors.
Context {P : Type} `{Scalar P}.

Lemma fill_vector (n : Z) (g : Z → option P) (h : Z → P) (ans0 : list P) :
  0 ≤ n → size ans0 = n →
  (∀ i, 0 ≤ i < n → g i = Some (h i)) →
  foldM (λ ans i, v ← g i; vector_set ans i v) (seqZ 0 n) ans0
  = Some (h <$> seqZ 0 n).
Proof.
  intros Hn Hs Hg.
  destruct (foldM_seqZ_inv
              (λ ans i, v ← g i; vector_set ans i v)
              (λ m ans, size ans = n
                        ∧ ∀ i, 0 ≤ i < m →
                            ans !! Z.to_nat i = Some (h i))
              0 n ans0 Hn) as (ans & E & Hl & Hent).
  - split; [done|]. intros i Hi. lia.
  - intros m ans Hm [Hl Hent]. rewrite (Hg m) by lia. simpl.
    unfold vector_set.
    rewrite (cassert_true (m <? size ans)) by lia. simpl.
    rewrite (cassert_true (0 <=? m)) by lia. simpl.
    eexists. split; [done|]. split.
    + unfold size. rewrite length_insert. done.
    + intros i Hi. destruct (decide (i = m)) as [->|Hne].
      * rewrite list_lookup_insert_eq; [done|]. unfold size in Hl. lia.
      * rewrite list_lookup_insert_ne by lia. apply Hent. lia.
  - rewrite E. f_equal. apply list_eq. intros k.
    rewrite list_lookup_fmap.
    destruct (decide (Z.of_nat k < n)) as [Hk|Hk].
    + rewrite lookup_seqZ_lt by lia. simpl.
      rewrite <- (Nat2Z.id k) at 1. apply Hent. lia.
    + rewrite lookup_seqZ_ge by lia. simpl.
      apply lookup_ge_None_2. unfold size in Hl. lia.
Qed.

Lemma zip_loop (op : P → P → P) (a b : list P) :
  size a = size b →
  foldM (λ ans i,
           x ← vector_at a i;
           y ← vector_at b i;
           vector_set ans i (op x y))
        (seqZ 0 (size a)) (new_vector (size a))
  = Some (zip_with op a b).
Proof.
  intros Hs.
  rewrite (foldM_ext _
             (λ ans i, v ← (x ← vector_at a i; y ← vector_at b i;
                            Some (op x y));
                       vector_set ans i v)).
  2:{ intros t i _. destruct (vector_at a i); [simpl|done].
      by destruct (vector_at b i). }
  rewrite (fill_vector (size a) _
             (λ i, op (default zero (a !! Z.to_nat i))
                      (default zero (b !! Z.to_nat i)))).
  - f_equal. apply list_eq. intros k.
    rewrite list_lookup_fmap, lookup_zip_with.
    destruct (decide (Z.of_nat k < size a)) as [Hk|Hk].
    + rewrite lookup_seqZ_lt by lia. simpl.
      replace (Z.to_nat (0 + Z.of_nat k)) with k by lia.
      destruct (lookup_lt_is_Some_2 a k) as [x Hx];
        [unfold size in Hk; lia|].
      destruct (lookup_lt_is_Some_2 b k) as [y Hy];
        [unfold size in *; lia|].
      by rewrite Hx, Hy.
    + rewrite lookup_seqZ_ge by lia. simpl.
      rewrite (lookup_ge_None_2 a) by (unfold size in Hk; lia). done.
  - unfold size. lia.
  - unfold size, new_vector. rewrite length_replicate. lia.
  - intros i Hi. rewrite !vector_at_lookup by lia.
    destruct (lookup_lt_is_Some_2 a (Z.to_nat i)) as [x Hx];
      [unfold size in Hi; lia|].
    destruct (lookup_lt_is_Some_2 b (Z.to_nat i)) as [y Hy];
      [unfold size in *; lia|].
    by rewrite Hx, Hy.
Qed.
End Vectors.

(** X21. The sum and the difference of two vectors are defined exactly when the
    two have the same size, and are then the vectors of the sums and of the
    differences of their elements. *)
Theorem vector_sum_and_difference {P : Type} `{Scalar P} `{Arith P}
    (a b : list P) :
  (size a = size b →
   vector_plus a b = Some (zip_with sadd a b)
   ∧ vector_minus a b = Some (zip_with ssub a b))
  ∧ (size a ≠ size b → vector_plus a b = None ∧ vector_minus a b = None).
Proof.
  split.
  - intros Hs. unfold vector_plus, vector_minus.
    rewrite (cassert_true (_ =? _)) by lia. simpl.
    by rewrite !zip_loop.
  - intros Hs. unfold vector_plus, vector_minus.
    destruct (Z.eqb_spec (size a) (size b)); [done|]. done.
Qed.

Lemma vector_sum_and_difference_witness :
  vector_plus [1; 2; 3] [10; 20; 30] = Some [11; 22; 33]
  ∧ vector_minus [1; 2; 3] [10; 20; 30] = Some [-9; -18; -27].
Proof.
  exact (proj1 (vector_sum_and_difference [1; 2; 3] [10; 20; 30]) eq_refl).
Defined.

(** X22. [resize] keeps the first elements of the vector and fills up with
    zeros; it aborts for a negative size. Growing a vector and shrinking it
    back gives the vector again; shrinking and growing back loses the
    elements cut off. *)
Theorem resize_keeps_prefix {P : Type} `{Scalar P} (v : list P) (n : Z) :
  (0 ≤ n →
   resize v n
   = Some (take (Z.to_nat n) v
           ++ replicate (Z.to_nat n - length v) zero))
  ∧ (n < 0 → resize v n = None)
  ∧ (size v ≤ n →
     ∃ w, resize v n = Some w ∧ size w = n ∧ resize w (size v) = Some v)
  ∧ (0 ≤ n ≤ size v →
     ∃ w, resize v n = Some w ∧ size w = n
          ∧ resize w (size v)
            = Some (take (Z.to_nat n) v
                    ++ replicate (length v - Z.to_nat n) zero)).
Proof.
  assert (∀ (u : list P) k, 0 ≤ k →
            resize u k
            = Some (take (Z.to_nat k) u
                    ++ replicate (Z.to_nat k - length u) zero)) as Hrun.
  { intros u k Hk. unfold resize.
    destruct (Z.eqb_spec k (size u)) as [->|Hne].
    - unfold size. rewrite Nat2Z.id, firstn_all, Nat.sub_diag.
      simpl. by rewrite app_nil_r.
    - rewrite (cassert_true (0 <=? k)) by lia. simpl. cbv zeta.
      unfold new_vector, memcpy.
      destruct (Z.ltb_spec 0 (size u)); simpl.
      + destruct (Z.ltb_spec 0 k); simpl.
        * destruct (Z.ltb_spec (size u) k).
          -- rewrite (cassert_true (0 <=? size u)) by lia. simpl.
             rewrite (cassert_true (size u <=? Z.of_nat (length u)))
               by (apply Z.leb_le; unfold size; lia).
             simpl.
             rewrite (cassert_true (size u <=? _))
               by (apply Z.leb_le; rewrite length_replicate; lia).
             simpl. unfold size in *. rewrite Nat2Z.id, firstn_all.
             rewrite drop_replicate, take_ge by lia. done.
          -- rewrite (cassert_true (0 <=? k)) by lia. simpl.
             rewrite (cassert_true (k <=? Z.of_nat (length u)))
               by (apply Z.leb_le; unfold size in *; lia).
             simpl.
             rewrite (cassert_true (k <=? _))
               by (apply Z.leb_le; rewrite length_replicate; lia).
             simpl. rewrite drop_replicate. unfold size in *.
             replace (Z.to_nat k - Z.to_nat k)%nat with 0%nat by lia.
             replace (Z.to_nat k - length u)%nat with 0%nat by lia. done.
        * assert (k = 0) as -> by lia. simpl.
          by destruct u.
      + assert (u = []) as ->.
        { destruct u; [done|]. unfold size in *. simpl in *. lia. }
        simpl. rewrite take_nil. simpl. f_equal. f_equal. lia. }
  split; [by apply Hrun|]. split; [|split].
  - intros Hn. unfold resize.
    destruct (Z.eqb_spec n (size v)); [unfold size in *; lia|].
    destruct (Z.leb_spec 0 n); [lia|done].
  - intros Hn. rewrite Hrun by (unfold size in *; lia).
    eexists. split; [done|]. unfold size in *.
    rewrite take_ge by lia. split.
    + rewrite length_app, length_replicate. lia.
    + rewrite Hrun by lia. f_equal. rewrite Nat2Z.id.
      rewrite take_app_length, length_app, length_replicate.
      replace (length v - (length v + (Z.to_nat n - length v)))%nat
        with 0%nat by lia.
      simpl. by rewrite app_nil_r.
  - intros Hn. rewrite Hrun by lia.
    eexists. split; [done|]. unfold size in *.
    replace (Z.to_nat n - length v)%nat with 0%nat by lia.
    simpl. rewrite app_nil_r. split.
    + rewrite length_take. lia.
    + rewrite Hrun by lia. f_equal. rewrite Nat2Z.id.
      rewrite length_take.
      rewrite take_ge by (rewrite length_take; lia).
      f_equal. f_equal. lia.
Qed.

Lemma resize_keeps_prefix_witness :
  ∃ w, resize [1; 2; 3] 5 = Some w ∧ size w = 5
       ∧ resize w (size [1; 2; 3]) = Some [1; 2; 3].
Proof.
  destruct (resize_keeps_prefix [1; 2; 3] 5) as (_ & _ & Hgrow & _).
  apply Hgrow. unfold size. simpl. lia.
Defined.

Section Igemm.
Context {P : Type} `{Scalar P} `{Arith P}.

Lemma sum_loop_Some (k : Z) (ga gb : Z → option P) :
  (∀ z, 0 ≤ z < k → is_Some (ga z) ∧ is_Some (gb z)) →
  is_Some (foldM (λ result z, a ← ga z; b ← gb z;
                              Some (sadd result (smul a b)))
                 (seqZ 0 k) zero).
Proof.
  intros Hg. destruct (Z_lt_le_dec k 0) as [Hk|Hk].
  { rewrite seqZ_nil by lia. by eexists. }
  destruct (foldM_seqZ_inv
              (λ result z, a ← ga z; b ← gb z;
                           Some (sadd result (smul a b)))
              (λ _ _, True) 0 k zero Hk I) as (r & E & _).
  - intros m t Hm _. destruct (Hg m) as [[a ->] [b ->]]; [lia|].
    by eexists.
  - by eexists.
Qed.

(** A loop that adds to each cell of a list of distinct cells a value
    computed from the cell. *)
Lemma accumulate_cells (ps : list (Z * Z)) (idx : Z * Z → nat)
    (res : Z * Z → option P) (C0 : list P) :
  NoDup (idx <$> ps) →
  (∀ p, p ∈ ps → (idx p < length C0)%nat ∧ is_Some (res p)) →
  ∃ C, foldM (λ C p, r ← res p; c ← C !! idx p;
                     Some (<[idx p := sadd c r]> C)) ps C0 = Some C
    ∧ length C = length C0
    ∧ (∀ p, p ∈ ps →
         C !! idx p = (c ← C0 !! idx p; r ← res p; Some (sadd c r)))
    ∧ ∀ k, k ∉ idx <$> ps → C !! k = C0 !! k.
Proof.
  revert C0. induction ps as [|p ps IH]; intros C0 Hnd Hps.
  - exists C0. split; [done|]. split; [done|]. split; [|done].
    intros p Hp. by apply elem_of_nil in Hp.
  - rewrite fmap_cons in Hnd. apply NoDup_cons in Hnd as [Hp Hnd].
    destruct (Hps p) as [Hlt [r Hr]]; [apply list_elem_of_here|].
    destruct (lookup_lt_is_Some_2 C0 (idx p) Hlt) as [c Hc].
    simpl. rewrite Hr. simpl. rewrite Hc. simpl.
    destruct (IH (<[idx p := sadd c r]> C0) Hnd)
      as (C & E & HL & Hin & Hout).
    { intros q Hq. rewrite length_insert. apply Hps.
      by apply list_elem_of_further. }
    exists C. split; [done|]. split; [by rewrite HL, length_insert|].
    split.
    + intros q Hq. apply elem_of_cons in Hq as [-> | Hq].
      * rewrite Hout by done. rewrite list_lookup_insert_eq by done.
        by rewrite Hc, Hr.
      * rewrite (Hin q Hq). rewrite list_lookup_insert_ne; [done|].
        intros E'. apply Hp. rewrite E'.
        apply list_elem_of_fmap. by exists q.
    + intros k Hk. rewrite Hout.
      * rewrite list_lookup_insert_ne; [done|]. intros <-.
        apply Hk. simpl. apply list_elem_of_here.
      * intros Hk'. apply Hk. simpl.
        by apply list_elem_of_further.
Qed.

Lemma igemm_spec (A B C0 : list P) (lda ldb ldc m k n : Z)
    (ga gb : Z → Z → option P) :
  0 < m → 0 < k → 0 < n → 0 < lda → 0 < ldb → 0 < ldc →
  n = 1 ∨ m ≤ ldc →
  (∀ i z, 0 ≤ i < m → 0 ≤ z < k →
     raw_at A (z * lda + i) = ga i z ∧ is_Some (ga i z)) →
  (∀ z j, 0 ≤ z < k → 0 ≤ j < n →
     raw_at B (j * ldb + z) = gb z j ∧ is_Some (gb z j)) →
  (n - 1) * ldc + m ≤ Z.of_nat (length C0) →
  ∃ C, igemm_ A lda B ldb C0 ldc m k n = Some C
    ∧ length C = length C0
    ∧ ∀ i j, 0 ≤ i < m → 0 ≤ j < n →
        C !! Z.to_nat (j * ldc + i)
        = (c ← C0 !! Z.to_nat (j * ldc + i);
           r ← foldM (λ result z, a ← ga i z; b ← gb z j;
                                  Some (sadd result (smul a b)))
                     (seqZ 0 k) zero;
           Some (sadd c r)).
Proof.
  intros Hm Hk Hn Hlda Hldb Hldc0 Hldc HA HB HC. unfold igemm_.
  rewrite (cassert_true (0 <? m)) by lia. simpl.
  rewrite (cassert_true (0 <? k)) by lia. simpl.
  rewrite (cassert_true (0 <? n)) by lia. simpl.
  rewrite (cassert_true (0 <? lda)) by lia. simpl.
  rewrite (cassert_true (0 <? ldb)) by lia. simpl.
  rewrite (cassert_true (0 <? ldc)) by lia. simpl.
  rewrite (foldM_nested
             (λ C i j, result ← igemm_sum A lda B ldb k i j;
                       c ← raw_at C (j * ldc + i);
                       Some (<[Z.to_nat (j * ldc + i) := sadd c result]> C))).
  set (S := λ p : Z * Z,
         foldM (λ result z, a ← ga (fst p) z; b ← gb z (snd p);
                            Some (sadd result (smul a b)))
               (seqZ 0 k) zero).
  set (idx := λ p : Z * Z, Z.to_nat (snd p * ldc + fst p)).
  rewrite (foldM_ext _
             (λ C p, r ← S p; c ← C !! idx p;
                     Some (<[idx p := sadd c r]> C))).
  2:{ intros C [i j] Hp. apply elem_of_pairs in Hp as [Hi Hj].
      apply elem_of_seqZ in Hi, Hj. simpl.
      assert (igemm_sum A lda B ldb k i j = S (i, j)) as ->.
      { unfold igemm_sum, S. simpl. apply foldM_ext.
        intros t z Hz%elem_of_seqZ.
        destruct (HA i z) as [-> _]; [lia..|].
        destruct (HB z j) as [-> _]; [lia..|]. done. }
      unfold raw_at, idx. simpl.
      destruct (Z.ltb_spec (j * ldc + i) 0); [nia|]. done. }
  destruct (accumulate_cells (i ← seqZ 0 m; j ← seqZ 0 n; [(i, j)])
              idx S C0) as (C & E & HL & Hin & _).
  - apply NoDup_fmap_2_strong; [|apply NoDup_pairs; apply NoDup_seqZ].
    intros [i j] [i' j'] Hp Hp' E.
    apply elem_of_pairs in Hp as [Hi Hj].
    apply elem_of_pairs in Hp' as [Hi' Hj'].
    apply elem_of_seqZ in Hi, Hj, Hi', Hj'.
    unfold idx in E. simpl in E.
    assert (j * ldc + i = j' * ldc + i') as E' by nia.
    assert (j = j') as ->.
    { destruct Hldc as [-> | Hldc]; [lia|].
      destruct (Z_lt_le_dec j j'); [nia|].
      destruct (Z_lt_le_dec j' j); [nia|lia]. }
    f_equal. lia.
  - intros [i j] Hp. apply elem_of_pairs in Hp as [Hi Hj].
    apply elem_of_seqZ in Hi, Hj. split.
    + unfold idx. simpl. nia.
    + unfold S. simpl. apply sum_loop_Some. intros z Hz.
      split; [by apply HA|by apply HB].
  - exists C. split; [exact E|]. split; [done|].
    intros i j Hi Hj.
    apply (Hin (i, j)). apply elem_of_pairs.
    split; apply elem_of_seqZ; lia.
Qed.
End Igemm.

(** X23. For an element type other than [double] and [float], the product of two
    matrices is defined exactly when the first has as many columns as the
    second has rows and none of the three dimensions is zero ([igemm_]
    asserts that they are positive). The entry [(i, j)] of the product is
    zero plus the sum of the products of row [i] and column [j]. *)
Theorem matrix_product_entries {P : Type} `{Scalar P} `{Arith P}
    (A B : matrix P) :
  matrix_wf A → matrix_wf B →
  (ncols_ A = nrows_ B ∧ 0 < nrows_ A ∧ 0 < ncols_ A ∧ 0 < ncols_ B →
   ∃ C, matrix_mul A B = Some C
     ∧ (nrows_ C, ncols_ C) = (nrows_ A, ncols_ B)
     ∧ ∀ i j, 0 ≤ i < nrows_ A → 0 ≤ j < ncols_ B →
         matrix_at C i j
         = (r ← row_times_column A B i j; Some (sadd zero r)))
  ∧ (¬ (ncols_ A = nrows_ B ∧ 0 < nrows_ A ∧ 0 < ncols_ A
        ∧ 0 < ncols_ B) →
     matrix_mul A B = None).
Proof.
  intros (HRA & HCA & HLA) (HRB & HCB & HLB). split.
  - intros (Ek & Hm & Hk & Hn). unfold matrix_mul.
    rewrite (cassert_true (_ =? _)) by lia. simpl. cbv zeta.
    destruct (igemm_spec (data_ A) (data_ B)
                (replicate (Z.to_nat (nrows_ A * ncols_ B)) zero)
                (nrows_ A) (nrows_ B) (nrows_ A)
                (nrows_ A) (nrows_ B) (ncols_ B)
                (λ i z, matrix_at A i z) (λ z j, matrix_at B z j))
      as (C & E & HL & Hent); [lia..|right; lia| | | |].
    + intros i z Hi Hz. rewrite matrix_at_lookup by lia. unfold raw_at.
      destruct (Z.ltb_spec (z * nrows_ A + i) 0); [nia|].
      split; [done|]. apply lookup_lt_is_Some_2. nia.
    + intros z j Hz Hj. rewrite matrix_at_lookup by lia. unfold raw_at.
      destruct (Z.ltb_spec (j * nrows_ B + z) 0); [nia|].
      split; [done|]. apply lookup_lt_is_Some_2. nia.
    + rewrite length_replicate. nia.
    + rewrite E. simpl. eexists. split; [done|]. split; [done|].
      intros i j Hi Hj. rewrite matrix_at_lookup by (simpl; lia). simpl.
      rewrite (Hent i j Hi Hj). simpl.
      rewrite lookup_replicate_2 by nia. simpl.
      unfold row_times_column. rewrite Ek. done.
  - intros Hn. unfold matrix_mul.
    destruct (Z.eqb_spec (ncols_ A) (nrows_ B)) as [Ek|]; [simpl|done].
    cbv zeta. unfold igemm_.
    destruct (Z.ltb_spec 0 (nrows_ A)); [simpl|done].
    destruct (Z.ltb_spec 0 (nrows_ B)); [simpl|done].
    destruct (Z.ltb_spec 0 (ncols_ B)); [simpl|done].
    destruct Hn. lia.
Qed.

Lemma matrix_product_entries_witness :
  ∃ C, matrix_mul (Matrix 2 2 [1; 2; 3; 4]) (Matrix 2 1 [5; 6]) = Some C
     ∧ (nrows_ C, ncols_ C) = (2, 1)
     ∧ ∀ i j, 0 ≤ i < 2 → 0 ≤ j < 1 →
         matrix_at C i j
         = (r ← row_times_column (Matrix 2 2 [1; 2; 3; 4])
                                 (Matrix 2 1 [5; 6]) i j;
            Some (0 + r)).
Proof.
  destruct (matrix_product_entries (Matrix 2 2 [1; 2; 3; 4])
              (Matrix 2 1 [5; 6])) as (Hrun & _).
  - unfold matrix_wf. simpl. lia.
  - unfold matrix_wf. simpl. lia.
  - apply Hrun. simpl. lia.
Defined.

Lemma vector_mul_matrix_run {P : Type} `{ScalarLaws P} `{Arith P}
    (X : list P) (A : matrix P) :
  matrix_wf A → size X = nrows_ A → 0 < nrows_ A → 0 < ncols_ A →
  ∃ Y, vector_mul_matrix X A = Some Y
    ∧ size Y = ncols_ A
    ∧ ∀ j, 0 ≤ j < ncols_ A →
        vector_at Y j
        = (r ← column_times_vector A X j; Some (sadd zero r)).
Proof.
  intros Hwf Es Hm Hn. pose proof Hwf as (HRA & HCA & HLA).
  destruct (transpose_spec A Hwf) as (At & Et & HRt & HCt & HLt & Hentt).
  unfold vector_mul_matrix.
  rewrite (cassert_true (_ =? _)) by lia. simpl. cbv zeta.
  rewrite Et. simpl.
  destruct (igemm_spec (data_ At) X (new_vector (ncols_ A))
              (nrows_ At) 1 1 (nrows_ At) (ncols_ At) 1
              (λ i z, matrix_at A z i) (λ z _, vector_at X z))
    as (Y & E & HL & Hent); [lia..|by left| | | |].
  - intros i z Hi Hz. rewrite matrix_at_lookup by lia. unfold raw_at.
    destruct (Z.ltb_spec (z * nrows_ At + i) 0); [nia|].
    rewrite HRt.
    rewrite (Hentt z i) by lia.
    split; [done|]. apply lookup_lt_is_Some_2. nia.
  - intros z j Hz Hj. assert (j = 0) as -> by lia.
    rewrite vector_at_lookup by lia.
    replace (0 * 1 + z) with z by lia. unfold raw_at.
    destruct (Z.ltb_spec z 0); [lia|].
    split; [done|]. apply lookup_lt_is_Some_2. unfold size in Es. lia.
  - unfold new_vector. rewrite length_replicate. lia.
  - rewrite E. exists Y. split; [done|].
    assert (size Y = ncols_ A) as HsY.
    { unfold size. rewrite HL. unfold new_vector.
      rewrite length_replicate. lia. }
    split; [done|].
    intros j Hj. rewrite vector_at_lookup by lia.
    specialize (Hent j 0 ltac:(lia) ltac:(lia)).
    replace (0 * 1 + j) with j in Hent by lia. rewrite Hent.
    unfold new_vector. rewrite lookup_replicate_2 by lia. simpl.
    unfold column_times_vector. rewrite HCt. done.
Qed.

(** X24. For an element type other than [double] and [float], the product of a
    row vector and a matrix is defined exactly when the vector has as many
    elements as the matrix has rows and the matrix has no zero dimension.
    Element [j] of the product is zero plus the sum of the products of
    column [j] of the matrix and the vector. *)
Theorem vector_matrix_product_entries {P : Type} `{ScalarLaws P} `{Arith P}
    (X : list P) (A : matrix P) :
  matrix_wf A →
  (size X = nrows_ A ∧ 0 < nrows_ A ∧ 0 < ncols_ A →
   ∃ Y, vector_mul_matrix X A = Some Y
     ∧ size Y = ncols_ A
     ∧ ∀ j, 0 ≤ j < ncols_ A →
         vector_at Y j
         = (r ← column_times_vector A X j; Some (sadd zero r)))
  ∧ (¬ (size X = nrows_ A ∧ 0 < nrows_ A ∧ 0 < ncols_ A) →
     vector_mul_matrix X A = None).
Proof.
  intros Hwf. split.
  - intros (Es & Hm & Hn). by apply vector_mul_matrix_run.
  - intros Hn. pose proof Hwf as (HRA & HCA & HLA).
    destruct (transpose_spec A Hwf) as (At & Et & HRt & HCt & HLt & Hentt).
    unfold vector_mul_matrix.
    destruct (Z.eqb_spec (size X) (nrows_ A)) as [Es|]; [simpl|done].
    cbv zeta. rewrite Et. simpl. unfold igemm_.
    destruct (Z.ltb_spec 0 (nrows_ At)); [simpl|done].
    destruct (Z.ltb_spec 0 (ncols_ At)); [simpl|done].
    destruct Hn. lia.
Qed.

Lemma vector_matrix_product_entries_witness :
  ∃ Y, vector_mul_matrix [5; 6] (Matrix 2 3 [1; 2; 3; 4; 5; 6]) = Some Y
     ∧ size Y = 3
     ∧ ∀ j, 0 ≤ j < 3 →
         vector_at Y j
         = (r ← column_times_vector (Matrix 2 3 [1; 2; 3; 4; 5; 6])
                                    [5; 6] j;
            Some (0 + r)).
Proof.
  destruct (vector_matrix_product_entries [5; 6]
              (Matrix 2 3 [1; 2; 3; 4; 5; 6])) as (Hrun & _).
  - unfold matrix_wf. simpl. lia.
  - apply Hrun. unfold size. simpl. lia.
Defined.

Section Dot.
Context {P : Type} `{Scalar P} `{Arith P}.

(** The loop of the dot product, over two vectors of one size. *)
Lemma dot_loop (a b : list P) :
  size a = size b →
  vector_dot a b
  = Some (foldl (λ acc p, sadd acc (smul p.1 p.2)) zero (zip a b)).
Proof.
  intros Es. unfold vector_dot.
  rewrite (cassert_true (_ =? _)) by lia. simpl.
  set (f := λ (acc : P) (p : P * P), sadd acc (smul p.1 p.2)).
  destruct (foldM_seqZ_inv
              (λ ans i, x ← vector_at a i; y ← vector_at b i;
                        Some (sadd ans (smul x y)))
              (λ m ans, ans = foldl f zero (take (Z.to_nat m) (zip a b)))
              0 (size a) zero) as (r & E & Hr).
  - unfold size. lia.
  - done.
  - intros m t Hm ->. unfold size in Es, Hm.
    rewrite !vector_at_lookup by (unfold size; lia).
    destruct (lookup_lt_is_Some_2 a (Z.to_nat m)) as [x Hx]; [lia|].
    destruct (lookup_lt_is_Some_2 b (Z.to_nat m)) as [y Hy]; [lia|].
    rewrite Hx, Hy. simpl. eexists. split; [done|].
    replace (Z.to_nat (m + 1)) with (S (Z.to_nat m)) by lia.
    rewrite (take_S_r _ _ (x, y)).
    + by rewrite foldl_app.
    + rewrite lookup_zip_with, Hx. simpl. by rewrite Hy.
  - rewrite E, Hr. f_equal. f_equal. apply take_ge.
    rewrite length_zip. unfold size in Es. unfold size. lia.
Qed.
End Dot.

(** X30. For the element type [int], the dot product of two vectors is defined
    exactly when they have the same size; it is the sum of the products of
    their elements and does not depend on the order of the two vectors.
    Element [j] of the product of a row vector and a matrix is the dot
    product of the vector and column [j] of the matrix, as
    [extract_submatrix] gives it. *)
Theorem int_dot_product (a b : list Z) (A : matrix Z) (j : Z) :
  (size a = size b →
   vector_dot a b = Some (foldl (λ acc p, acc + p.1 * p.2) 0 (zip a b)))
  ∧ (size a ≠ size b → vector_dot a b = None)
  ∧ vector_dot a b = vector_dot b a
  ∧ (matrix_wf A → size a = nrows_ A → 0 < nrows_ A → 0 ≤ j < ncols_ A →
     ∃ Y col, vector_mul_matrix a A = Some Y
       ∧ extract_submatrix A 0 j (nrows_ A) 1 = Some col
       ∧ vector_at Y j = vector_dot a (data_ col)).
Proof.
  split; [|split; [|split]].
  - intros Es. by rewrite dot_loop.
  - intros Hne. unfold vector_dot.
    destruct (Z.eqb_spec (size a) (size b)); done.
  - unfold vector_dot.
    destruct (Z.eqb_spec (size a) (size b)) as [Es|Hne].
    + rewrite (cassert_true (_ =? _)) by lia. simpl. rewrite Es.
      apply foldM_ext. intros t x _.
      destruct (vector_at a x), (vector_at b x); simpl; [|done..].
      f_equal. lia.
    + destruct (Z.eqb_spec (size b) (size a)); [lia|done].
  - intros Hwf Es Hm Hj. pose proof Hwf as (HRA & HCA & HLA).
    destruct (vector_mul_matrix_run a A Hwf Es Hm) as (Y & EY & HsY & HY);
      [lia|].
    destruct (extract_submatrix_spec A 0 j (nrows_ A) 1 Hwf)
      as (col & Ec & (_ & _ & HLc) & HRc & HCc & Hcol); [lia..|].
    exists Y, col. split; [done|]. split; [done|].
    rewrite (HY j Hj). unfold column_times_vector, vector_dot.
    assert (size (data_ col) = nrows_ A) as Esc.
    { unfold size. rewrite HLc, HRc, HCc. lia. }
    rewrite (cassert_true (_ =? _)) by lia. simpl. rewrite Es.
    set (f := λ (result z : Z),
           x ← matrix_at A z j; y ← vector_at a z; Some (result + x * y)).
    set (g := λ (ans i : Z),
           x ← vector_at a i; y ← vector_at (data_ col) i;
           Some (ans + x * y)).
    assert (foldM f (seqZ 0 (nrows_ A)) 0 = foldM g (seqZ 0 (nrows_ A)) 0)
      as ->.
    { apply foldM_ext. intros t z Hz. apply elem_of_seqZ in Hz.
      unfold f, g.
      rewrite (vector_at_lookup (data_ col)) by lia.
      specialize (Hcol z 0 ltac:(lia) ltac:(lia)).
      rewrite matrix_at_lookup in Hcol by lia.
      replace (0 * nrows_ col + z) with z in Hcol by lia.
      replace (z + 0) with z in Hcol by lia.
      replace (0 + j) with j in Hcol by lia.
      rewrite Hcol.
      destruct (matrix_at A z j), (vector_at a z); simpl; [|done..].
      f_equal. lia. }
    destruct (foldM g _ _); simpl; [|done]. done.
Qed.

Lemma int_dot_product_witness :
  vector_dot [1; 2; 3] [4; 5; 6] = Some 32
  ∧ ∃ Y col, vector_mul_matrix [5; 6] (Matrix 2 3 [1; 2; 3; 4; 5; 6])
               = Some Y
      ∧ extract_submatrix (Matrix 2 3 [1; 2; 3; 4; 5; 6]) 0 1 2 1 = Some col
      ∧ vector_at Y 1 = vector_dot [5; 6] (data_ col).
Proof.
  split.
  - apply (proj1 (int_dot_product [1; 2; 3] [4; 5; 6]
                    (Matrix 2 3 [1; 2; 3; 4; 5; 6]) 1)).
    reflexivity.
  - apply (proj2 (proj2 (proj2 (int_dot_product [5; 6] [4; 5]
                    (Matrix 2 3 [1; 2; 3; 4; 5; 6]) 1)))).
    + unfold matrix_wf. simpl. lia.
    + reflexivity.
    + simpl. lia.
    + simpl. lia.
Defined.

End TensorOpsProofs.

(** * Columns, rows and the results of legendre *)

Module QuadratureOpsProofs.

Import Tensors Quadrature TensorsProofs QuadratureProofs.






(** X26. [update_row] writes one row: the entries of the row are those of the
    vector, in order, and the other rows are as before. It aborts when the
    vector does not have one element per column or the row index is not
    below the number of rows. *)
Theorem update_row_writes_one_row (m : matrix double) (R C r : Z)
    (v : list double) :
  has_dims m R C →
  (size v = C ∧ 0 ≤ r < R →
   ∃ m', update_row m r v = Some m' ∧ has_dims m' R C
     ∧ (∀ j, 0 ≤ j < C → entry m' r j = v !! Z.to_nat j)
     ∧ ∀ i j, 0 ≤ i < R → 0 ≤ j < C → i ≠ r →
         entry m' i j = entry m i j)
  ∧ (size v ≠ C ∨ R ≤ r → update_row m r v = None).
Proof.
  intros Hm. split.
  - intros [Hv Hr]. by apply update_row_spec.
  - intros Hbad. destruct Hm as (Hr & Hc & Hl). unfold update_row.
    destruct (Z.eqb_spec (ncols_ m) (size v)) as [Ev|]; [simpl|done].
    destruct (Z.ltb_spec r (nrows_ m)); [lia|done].
Qed.

Lemma update_row_writes_one_row_witness :
  ∃ m', update_row matrix_2x3 1 [7%float; 8%float; 9%float] = Some m'
     ∧ has_dims m' 2 3
     ∧ (∀ j, 0 ≤ j < 3 →
          entry m' 1 j = [7%float; 8%float; 9%float] !! Z.to_nat j)
     ∧ ∀ i j, 0 ≤ i < 2 → 0 ≤ j < 3 → i ≠ 1 →
         entry m' i j = entry matrix_2x3 i j.
Proof.
  destruct (update_row_writes_one_row matrix_2x3 2 3 1
              [7%float; 8%float; 9%float]) as (Hrun & _).
  - unfold has_dims. simpl. lia.
  - apply Hrun. unfold size. simpl. lia.
Defined.

(** X27. [legendre] returns exactly when the degree is not negative and the
    domain is not empty, whatever the points are (NaN and infinities
    included); the two matrices then have one row per point and
    [max 1 degree] columns. *)
Theorem legendre_returns_iff (domain : list double) (degree : Z) :
  (0 ≤ degree ∧ 0 < size domain →
   ∃ L L', legendre domain degree = Some (L, L')
     ∧ has_dims L (size domain) (Z.max 1 degree)
     ∧ has_dims L' (size domain) (Z.max 1 degree))
  ∧ (¬ (0 ≤ degree ∧ 0 < size domain) → legendre domain degree = None).
Proof.
  split.
  - intros [Hdeg Hdom].
    destruct (legendre_normalized_dims domain degree Hdeg Hdom)
      as ([N N'] & EN & HN & HN'). simpl in HN, HN'.
    destruct (zero_loop degree (size domain) (find domain out_of_range)
                (N, N')) as ([Z1 Z2] & EZ & HZ1 & HZ2 & _); try done.
    { intros i (Hi & x & Hx & _)%find_spec.
      apply lookup_lt_Some in Hx. unfold size. lia. }
    simpl in HZ1, HZ2.
    unfold legendre. rewrite EN. bind_step. rewrite EZ. bind_step.
    destruct (0 <? degree).
    + eexists _, _. split; [done|].
      destruct HZ1 as (? & ? & ?), HZ2 as (? & ? & ?).
      unfold has_dims, matrix_scale. simpl. rewrite !length_fmap. done.
    + by exists Z1, Z2.
  - intros Hbad. unfold legendre, legendre_normalized.
    destruct (Z.leb_spec 0 degree); [simpl|done].
    destruct (Z.ltb_spec 0 (size domain)); [lia|done].
Qed.

Lemma legendre_returns_iff_witness :
  ∃ L L', legendre [nan; infinity; 0.25%float] 4 = Some (L, L')
     ∧ has_dims L (size [nan; infinity; 0.25%float]) (Z.max 1 4)
     ∧ has_dims L' (size [nan; infinity; 0.25%float]) (Z.max 1 4).
Proof.
  apply (proj1 (legendre_returns_iff [nan; infinity; 0.25%float] 4)).
  unfold size. simpl. lia.
Defined.

End QuadratureOpsProofs.

(** * Selection of a PDE *)

Module SelectionProofs.

Import Factory Selection.

(** X28. [make_PDE] leaves through [exit(-1)], after printing its message,
    exactly for a value of the enumeration type that is none of the 17
    enumerators; for every enumerator it returns a PDE built with the level
    and the degree it was given. Every PDE class is built for some
    enumerator, and every class but [PDE_continuity_1d], which stands in
    for the choices not yet implemented, for one enumerator only. *)
Theorem make_PDE_exits_only_off_enumeration (choice level degree : Z) :
  (0 ≤ choice < 17 →
   ∃ c, make_PDE_raw choice level degree = made c level degree)
  ∧ (¬ (0 ≤ choice < 17) →
     make_PDE_raw choice level degree = exited "Invalid pde choice" (-1))
  ∧ (∀ k, ∃ c, make_PDE c level degree = made k level degree)
  ∧ (∀ c c' k, k ≠ PDE_continuity_1d →
       make_PDE c level degree = made k level degree →
       make_PDE c' level degree = made k level degree → c = c').
Proof.
  split; [|split; [|split]].
  - intros Hc. unfold make_PDE_raw.
    assert (∃ n : nat, (n < 17)%nat ∧ choice = Z.of_nat n) as (n & Hn & ->).
    { exists (Z.to_nat choice). lia. }
    do 17 (destruct n as [|n]; [by eexists|]). lia.
  - intros Hc. unfold make_PDE_raw, PDE_opts_of_int.
    destruct (Z.ltb_spec choice 0) as [Hneg|Hpos].
    + by destruct (_ !! Z.to_nat choice).
    + rewrite lookup_ge_None_2 by (simpl; lia). done.
  - intros k.
    destruct k;
      first [ by exists continuity_1 | by exists continuity_2
            | by exists continuity_3 | by exists continuity_6
            | by exists fokkerplanck_1d_4p1a | by exists fokkerplanck_1d_4p2
            | by exists fokkerplanck_1d_4p3 | by exists fokkerplanck_1d_4p4
            | by exists fokkerplanck_1d_4p5
            | by exists fokkerplanck_2d_complete | by exists impurity_3d_A ].
  - intros c c' k Hk Hc Hc'.
    destruct c, c'; simpl in Hc, Hc'; first [reflexivity | congruence].
Qed.

Lemma make_PDE_exits_only_off_enumeration_witness :
  ∃ c, make_PDE_raw 13 3 2 = made c 3 2.
Proof.
  apply (proj1 (make_PDE_exits_only_off_enumeration 13 3 2)). lia.
Defined.

(** X29. The selection strings and the enumerators correspond one to one: no
    string is listed twice (so the map drops no entry), every enumerator has
    a string, and looking a listed string up gives the enumerator it is
    listed with; a string that is not listed is not found. *)
Theorem pde_mapping_is_one_to_one (name : string) (c : PDE_opts) :
  NoDup (fst <$> pde_mapping)
  ∧ NoDup (snd <$> pde_mapping)
  ∧ (∃ name', pde_at name' = Some c)
  ∧ ((name, c) ∈ pde_mapping ↔ pde_at name = Some c)
  ∧ (name ∉ fst <$> pde_mapping → pde_at name = None).
Proof.
  assert (∀ n d, (n, d) ∈ pde_mapping → pde_at n = Some d) as Hfwd.
  { intros n d Hin. unfold pde_at.
    repeat (apply elem_of_cons in Hin as [Hin|Hin];
            [injection Hin as -> ->; vm_compute; reflexivity|]).
    by apply elem_of_nil in Hin. }
  split; [|split; [|split; [|split]]].
  - apply (bool_decide_unpack (NoDup (fst <$> pde_mapping))).
    vm_compute. exact I.
  - apply (bool_decide_unpack (NoDup (snd <$> pde_mapping))).
    vm_compute. exact I.
  - assert (∃ name', (name', c) ∈ pde_mapping) as [name' Hin].
    { destruct c; eexists;
        repeat first [apply list_elem_of_here | apply list_elem_of_further]. }
    exists name'. by apply Hfwd.
  - split; [apply Hfwd|].
    unfold pde_at. intros Hat.
    destruct (list_find _ _) as [[i [n' c']]|] eqn:Ef; [|done].
    simpl in Hat. injection Hat as ->.
    apply list_find_Some in Ef as (Hl & Hn & _). simpl in Hn. subst n'.
    by eapply list_elem_of_lookup_2.
  - intros Hout. unfold pde_at.
    destruct (list_find _ _) as [[i [n' c']]|] eqn:Ef; [|done].
    apply list_find_Some in Ef as (Hl & Hn & _). simpl in Hn. subst n'.
    destruct Hout. apply list_elem_of_fmap. exists (name, c').
    split; [done|]. by eapply list_elem_of_lookup_2.
Qed.

Lemma pde_mapping_is_one_to_one_witness :
  pde_at "vlasov43" = Some vlasov43 ∧ pde_at "vlasov6" = None.
Proof.
  destruct (pde_mapping_is_one_to_one "vlasov43" vlasov43)
    as (_ & _ & _ & Hin & _).
  destruct (pde_mapping_is_one_to_one "vlasov6" vlasov43)
    as (_ & _ & _ & _ & Hout).
  split.
  - apply Hin. vm_compute.
    repeat first [apply list_elem_of_here | apply list_elem_of_further].
  - apply Hout. apply (bool_decide_unpack _). vm_compute. exact I.
Defined.

End SelectionProofs.
